(** * sfizz: aligned buffers, audio spans, the file pool and the voice

    A shallow embedding of the parts of

      - [src/sfizz/Buffer.h]           ([sfz::Buffer])
      - [src/src/sfizz/AudioSpan.h]    ([sfz::AudioSpan])
      - [src/src/sfizz/FilePool.cpp]   ([sfz::FilePool])
      - [src/sfizz/Voice.cpp]          ([sfz::Voice])

    that the properties below talk about, followed by those properties.

    Conventions.  Machine integers are [Z] with their wrap-around written
    out ([Machine.to_size_t], [Machine.to_uint32], [Machine.to_int]).
    Pointers into raw allocations are byte addresses, [0] being [nullptr].
    [float] samples are idealised as exact rationals [Q]; the read
    positions of a voice, whose integer parts decide which frames are read,
    are rounded to [float] after each operation ([Machine.to_float]).  An
    operation whose C++ behaviour is undefined (a read outside an allocated
    block, a read through a null pointer), that ends the program (a span
    asked for more elements than it has) or that yields no number (a
    division by zero) makes the embedded function answer [None]. *)

From Stdlib Require Import ZArith QArith Qround Lia List Bool String.
From stdpp Require Import base option list gmap strings.
Import ListNotations.

Local Open Scope Z_scope.

(** ** Machine integers and floats *)

Module Machine.

Definition to_size_t (z : Z) : Z := z mod 2 ^ 64.

Definition to_uint32 (z : Z) : Z := z mod 2 ^ 32.

(** Conversion to [int]: two's complement on 32 bits. *)
Definition to_int (z : Z) : Z := (z + 2 ^ 31) mod 2 ^ 32 - 2 ^ 31.

(** [num / den] rounded to the nearest integer, a tie going to the even
    one. *)
Definition round_half_even (num den : Z) : Z :=
  let q := num / den in
  let r := num mod den in
  if 2 * r <? den then q
  else if den <? 2 * r then q + 1
  else if Z.even q then q else q + 1.

(** The exponent [e] with [2 ^ e <= a / d < 2 ^ (e + 1)], for positive [a]
    and [d]. *)
Definition binade (a d : Z) : Z :=
  let e := Z.log2 a - Z.log2 d in
  if (if 0 <=? e then a <? d * 2 ^ e else a * 2 ^ (- e) <? d) then e - 1 else e.

(** The [float] nearest to a rational: IEEE 754 binary32, round to nearest
    with ties to even, a significand of 24 bits and exponents from -126 on
    (the subnormal numbers included).  A rational beyond the largest
    [float], which the machine rounds to an infinity, keeps its 24 bits
    here. *)
Definition to_float (q : Q) : Q :=
  let a := Z.abs (Qnum q) in
  let d := Z.pos (Qden q) in
  if a =? 0 then 0%Q
  else
    let shift := 23 - Z.max (binade a d) (-126) in
    let m :=
      if 0 <=? shift then round_half_even (a * 2 ^ shift) d
      else round_half_even a (d * 2 ^ (- shift)) in
    let m := Z.sgn (Qnum q) * m in
    Qred (if 0 <=? shift then Qmake m (Z.to_pos (2 ^ shift))
          else inject_Z (m * 2 ^ (- shift))).

End Machine.

(** ** Buffer.h *)

Module Buffer.

Section Buffer.

(** The template parameters: [Alignment] and [sizeof(value_type)]. *)
Variable Alignment : Z.
Variable sizeofT : Z.

Definition AlignmentMask : Z := Machine.to_uint32 (Alignment - 1).

Definition TypeAlignment : Z := Alignment / sizeofT.

Definition TypeAlignmentMask : Z := Machine.to_size_t (TypeAlignment - 1).

(** The three [static_assert]s on the template parameters, apart from
    [std::is_arithmetic]. *)
Definition static_asserts : Prop :=
  (Alignment = 0 \/ Alignment = 4 \/ Alignment = 8 \/ Alignment = 16)
  /\ 0 < sizeofT
  /\ TypeAlignment * sizeofT = Alignment.

Record t : Type := mk {
  largerSize : Z;
  alignedSize : Z;
  normalData : Z;
  paddedData : Z;
  normalEnd : Z;
  _alignedEnd : Z
}.

(** [Buffer()]: every member keeps its default initialiser. *)
Definition empty_buffer : t :=
  {| largerSize := 0; alignedSize := 0; normalData := 0;
     paddedData := 0; normalEnd := 0; _alignedEnd := 0 |}.

(** [p + n] on a [value_type*]. *)
Definition ptr_add (p n : Z) : Z := p + n * sizeofT.

(** [std::align(alignment, size, ptr, space)] of the C++ library: the first
    address at or after [ptr] that is a multiple of [alignment], or
    [nullptr] when [size] bytes do not fit in [space] from there. *)
Definition std_align (alignment size ptr space : Z) : Z :=
  if space <? size then 0
  else
    let aligned := Machine.to_size_t (Z.land (ptr - 1 + alignment) (- alignment)) in
    let diff := aligned - ptr in
    if diff >? space - size then 0 else aligned.

(** [clear()].  [paddedData] is freed and keeps its value. *)
Definition clear (b : t) : t :=
  {| largerSize := 0; alignedSize := 0; normalData := 0;
     paddedData := paddedData b; normalEnd := 0; _alignedEnd := 0 |}.

(** The number of bytes [resize] asks [std::realloc] / [std::malloc] for. *)
Definition requested_bytes (newSize : Z) : Z :=
  let tempSize := Machine.to_size_t (newSize + Machine.to_uint32 (2 * AlignmentMask)) in
  Machine.to_size_t (tempSize * sizeofT).

(** [resize(newSize)].  [newData] is what the allocator answers to the
    request ([0] when the allocation fails; a failing [std::realloc] leaves
    the old block allocated). *)
Definition resize (b : t) (newSize : Z) (newData : Z) : bool * t :=
  if newSize =? 0 then (true, clear b)
  else
    let tempSize := Machine.to_size_t (newSize + Machine.to_uint32 (2 * AlignmentMask)) in
    if newData =? 0 then (false, b)
    else
      let largerSize' := tempSize in
      let alignedSize' := newSize in
      let paddedData' := newData in
      let normalData' := std_align Alignment alignedSize' newData tempSize in
      let normalEnd' := ptr_add normalData' alignedSize' in
      let endMisalignment := Z.land alignedSize' TypeAlignmentMask in
      let alignedEnd' :=
        if negb (endMisalignment =? 0)
        then ptr_add (ptr_add normalEnd' Alignment) (- endMisalignment)
        else normalEnd' in
      (true,
       {| largerSize := largerSize'; alignedSize := alignedSize';
          normalData := normalData'; paddedData := paddedData';
          normalEnd := normalEnd'; _alignedEnd := alignedEnd' |}).

Definition data (b : t) : Z := normalData b.
Definition size (b : t) : Z := alignedSize b.
Definition empty (b : t) : bool := alignedSize b =? 0.
Definition end_ (b : t) : Z := normalEnd b.
Definition alignedEnd (b : t) : Z := _alignedEnd b.

(** The number of elements between [data()] and [alignedEnd()]. *)
Definition aligned_length (b : t) : Z := (alignedEnd b - data b) / sizeofT.

(** What section 4.1 of the specification gives for that number:
    [ceil(N / vectorLanes) * vectorLanes] with
    [vectorLanes = Alignment / sizeof(T)]. *)
Definition rounded_up_length (N : Z) : Z :=
  let vectorLanes := Alignment / sizeofT in
  ((N + vectorLanes - 1) / vectorLanes) * vectorLanes.

(** The call [resize(newSize)] makes to the allocator:
    [paddedData != nullptr ? std::realloc(paddedData, ...) : std::malloc(...)],
    and none when [newSize] is 0. *)
Inductive allocation : Type :=
| call_malloc (bytes : Z)
| call_realloc (p : Z) (bytes : Z).

Definition resize_allocation (b : t) (newSize : Z) : option allocation :=
  if newSize =? 0 then None
  else if negb (paddedData b =? 0)
       then Some (call_realloc (paddedData b) (requested_bytes newSize))
       else Some (call_malloc (requested_bytes newSize)).

(** The pointer [clear()] hands to [std::free]. *)
Definition clear_frees (b : t) : Z := paddedData b.

End Buffer.

End Buffer.

(** ** AudioSpan.h *)

Module AudioSpan.

(** A [Type*].  A pointer that was never written is [indeterminate]; a
    valid one is known by the cells that can be read from it on. *)
Inductive pointer : Type :=
| indeterminate
| nullptr
| ptr (cells : list Q).

(** [p[i]]. *)
Definition deref (p : pointer) (i : Z) : option Q :=
  match p with
  | ptr cells => if i <? 0 then None else cells !! Z.to_nat i
  | _ => None
  end.

(** [absl::Span<Type>]: a pointer and a length. *)
Record Span : Type := mkSpan { span_data : pointer; span_size : Z }.

(** [absl::Span<Type>{}]. *)
Definition empty_span : Span := {| span_data := nullptr; span_size := 0 |}.

(** [absl::Span<Type>::npos], the largest [size_t]. *)
Definition npos : Z := 2 ^ 64 - 1.

(** Modelled from the spec: the owning [AudioBuffer] of [AudioBuffer.h],
    which "owns channels AlignedBuffers of equal length frames", each with
    "a padded tail".  [ab_numFrames] is its frame count, and [ab_channels]
    gives for each channel the elements that can be read from its
    [data()] on: the frames, followed by what the padded tail of its
    [Buffer] holds.  [Buffer::resize] asks the allocator for
    [2 * (Alignment - 1)] elements more than the frames (Buffer.h:66) and
    places [data()] less than [Alignment] bytes into the block, so that the
    tail is never empty (lemma [resize_tail_in_block] below): the element
    at index [ab_numFrames] is inside the block, with whatever the
    allocator left there. *)
Record AudioBuffer : Type := mkAudioBuffer {
  ab_numFrames : Z;
  ab_channels : list (list Q)
}.

(** The channels hold their frames and at least one element of tail. *)
Definition has_tail (b : AudioBuffer) : bool :=
  forallb (fun cells => ab_numFrames b <? Z.of_nat (length cells)) (ab_channels b).

Section AudioSpan.

(** The template parameter [MaxChannels]. *)
Variable MaxChannels : nat.

Record t : Type := mk {
  spans : list pointer;   (* std::array<Type*, MaxChannels> *)
  numFrames : Z;          (* size_type numFrames { 0 } *)
  numChannels : Z         (* int numChannels { 0 } *)
}.

(** [AudioSpan()]. *)
Definition default : t :=
  {| spans := replicate MaxChannels indeterminate; numFrames := 0; numChannels := 0 |}.

(** The loop of [AudioSpan(std::initializer_list<absl::Span<Type>>)]:
    [k] is the position of [thisSpan], [size] the local of that name. *)
Fixpoint from_spans_loop (arr : list pointer) (k : nat) (size : Z)
    (l : list Span) : list pointer * Z :=
  match l with
  | [] => (arr, size)
  | newSpan :: rest =>
      if (k <? MaxChannels)%nat
      then from_spans_loop (<[k := span_data newSpan]> arr) (S k)
             (Z.min size (span_size newSpan)) rest
      else (arr, size)
  end.

(** The value of the local [size] when the constructor's loop ends. *)
Definition from_spans_size (l : list Span) : Z :=
  snd (from_spans_loop (replicate MaxChannels indeterminate) 0 npos l).

(** [AudioSpan(std::initializer_list<absl::Span<Type>> spans)].  The member
    initialiser list only names [numChannels]; the body assigns the channel
    pointers and the local [size], and nothing assigns [numFrames]. *)
Definition from_spans (l : list Span) : t :=
  {| spans := fst (from_spans_loop (replicate MaxChannels indeterminate) 0 npos l);
     numFrames := 0;
     numChannels := Machine.to_int (Z.of_nat (length l)) |}.

(** [AudioSpan(AudioBuffer<U, N, Alignment>&)]: a channel index at or
    beyond [MaxChannels] would be written outside [spans]. *)
Definition from_buffer (b : AudioBuffer) : option t :=
  let n := length (ab_channels b) in
  if (n <=? MaxChannels)%nat
  then Some {| spans := map ptr (ab_channels b) ++ replicate (MaxChannels - n) indeterminate;
               numFrames := ab_numFrames b;
               numChannels := Z.of_nat n |}
  else None.

(** [spans[channelIndex]] on the [std::array]: undefined outside it. *)
Definition array_at (a : list pointer) (channelIndex : Z) : option pointer :=
  if channelIndex <? 0 then None else a !! Z.to_nat channelIndex.

Definition getChannel (s : t) (channelIndex : Z) : option pointer :=
  if channelIndex <? numChannels s
  then array_at (spans s) channelIndex
  else Some nullptr.

Definition getSpan (s : t) (channelIndex : Z) : option Span :=
  if channelIndex <? numChannels s
  then p ← array_at (spans s) channelIndex;
       Some {| span_data := p; span_size := numFrames s |}
  else Some empty_span.

Definition getConstSpan (s : t) (channelIndex : Z) : option Span :=
  if channelIndex <? numChannels s
  then p ← array_at (spans s) channelIndex;
       Some {| span_data := p; span_size := numFrames s |}
  else Some empty_span.

Definition getNumFrames (s : t) : Z := numFrames s.

Definition getNumChannels (s : t) : Z := numChannels s.

(** [sfz::meanSquared<Type>(absl::Span<const Type>)] of [SIMDHelpers.h],
    a parameter of this development. *)
Variable span_meanSquared : Span -> Q.

(** [x / n] for a [Type] [x] and an [int] [n]: no number when [n] is 0. *)
Definition divide (x : Q) (n : Z) : option Q :=
  if n =? 0 then None else Some (x / inject_Z n)%Q.

(** [for (int i = 0; i < numChannels; ++i) result += ...], the remaining
    values of [i] being [todo]. *)
Fixpoint meanSquared_loop (s : t) (todo : list Z) (result : Q) : option Q :=
  match todo with
  | [] => Some result
  | i :: rest =>
      sp ← getConstSpan s i;
      meanSquared_loop s rest (result + span_meanSquared sp)%Q
  end.

Definition meanSquared (s : t) : option Q :=
  if numChannels s =? 0 then Some 0%Q
  else
    result ← meanSquared_loop s (seqZ 0 (numChannels s)) 0%Q;
    divide result (numChannels s).

(** A span as its constructors build it: the channel count fits the
    array. *)
Definition well_formed (s : t) : Prop :=
  length (spans s) = MaxChannels /\ 0 <= numChannels s <= Z.of_nat MaxChannels.

(** [p + offset] on a [Type*], [offset] being a [size_type]: a pointer
    inside the cells or one past their end; anything else is not a pointer
    that may be used. *)
Definition ptr_offset (p : pointer) (offset : Z) : pointer :=
  match p with
  | ptr cells =>
      if (0 <=? offset) && (offset <=? Z.of_nat (length cells))
      then ptr (drop (Z.to_nat offset) cells)
      else indeterminate
  | nullptr => if offset =? 0 then nullptr else indeterminate
  | indeterminate => indeterminate
  end.

(** [this->spans[i] = p]: undefined outside the array. *)
Definition array_set (a : list pointer) (i : Z) (p : pointer) : option (list pointer) :=
  if (i <? 0) || (Z.of_nat (length a) <=? i) then None
  else Some (<[Z.to_nat i := p]> a).

(** The loop of the constructor from an array of pointers,
    [this->spans[i] = spans[i] + offset] for the values [todo] of [i]. *)
Fixpoint from_array_loop (source arr : list pointer) (offset : Z) (todo : list Z)
    : option (list pointer) :=
  match todo with
  | [] => Some arr
  | i :: rest =>
      p ← array_at source i;
      arr' ← array_set arr i (ptr_offset p offset);
      from_array_loop source arr' offset rest
  end.

(** [AudioSpan(const std::array<Type*, MaxChannels>& spans, int numChannels,
    size_type offset, size_type numFrames)]. *)
Definition from_array (source : list pointer) (numChannels' offset numFrames' : Z)
    : option t :=
  arr ← from_array_loop source (replicate MaxChannels indeterminate) offset
          (seqZ 0 numChannels');
  Some {| spans := arr; numFrames := numFrames'; numChannels := numChannels' |}.

(** The loop of [AudioSpan(std::initializer_list<Type*>, size_type)]. *)
Fixpoint from_pointers_loop (arr : list pointer) (k : nat) (l : list pointer)
    : list pointer :=
  match l with
  | [] => arr
  | newSpan :: rest =>
      if (k <? MaxChannels)%nat
      then from_pointers_loop (<[k := newSpan]> arr) (S k) rest
      else arr
  end.

(** [AudioSpan(std::initializer_list<Type*> spans, size_type numFrames)]. *)
Definition from_pointers (l : list pointer) (numFrames' : Z) : t :=
  {| spans := from_pointers_loop (replicate MaxChannels indeterminate) 0 l;
     numFrames := numFrames';
     numChannels := Machine.to_int (Z.of_nat (length l)) |}.

(** [first(length)]. *)
Definition first (s : t) (length : Z) : option t :=
  from_array (spans s) (numChannels s) 0 length.

(** [last(length)]: the offset is [numFrames - length] on [size_type]. *)
Definition last (s : t) (length : Z) : option t :=
  from_array (spans s) (numChannels s) (Machine.to_size_t (numFrames s - length)) length.

(** [subspan(offset, length)]. *)
Definition subspan (s : t) (offset length : Z) : option t :=
  from_array (spans s) (numChannels s) offset length.

(** [subspan(offset)]: the length is [numFrames - offset] on [size_type]. *)
Definition subspan_from (s : t) (offset : Z) : option t :=
  from_array (spans s) (numChannels s) offset (Machine.to_size_t (numFrames s - offset)).

(** Frame [j] of channel [channelIndex], read through [getChannel]. *)
Definition frame (s : t) (channelIndex j : Z) : option Q :=
  p ← getChannel s channelIndex; deref p j.

End AudioSpan.

End AudioSpan.

(** ** FilePool.h, FilePool.cpp *)

Module FilePool.

(** [sfz::Oversampling], declared in [Oversampler.h]: the four
    enumerators that [readFromFile] switches on. *)
Inductive Oversampling : Type := x1 | x2 | x4 | x8.

(** Modelled from the spec: the integer value of an enumerator, "integer
    multiplier in {1,2,4,8}", as [static_cast<float>(factor)] and
    [getNumFrames() / oversamplingFactor] use it. *)
Definition factor (f : Oversampling) : Z :=
  match f with x1 => 1 | x2 => 2 | x4 => 4 | x8 => 8 end.

(** A file below [rootDirectory], as libsndfile sees it: one it cannot
    open, or a sound file with its header fields and the number of frames
    [readf] manages to decode from its body. *)
Inductive DiskFile : Type :=
| unopenable
| sound (channels frames samplerate : Z) (decodable_frames : Z).

(** The files below [rootDirectory] are a [gmap string DiskFile], keyed by
    their name relative to that directory. *)

(** [SndfileHandle]: the accessors of libsndfile's C++ wrapper answer 0
    on a handle that failed to open. *)
Record SndfileHandle : Type := mkHandle {
  sf_error : Z;
  sf_channels : Z;
  sf_frames : Z;
  sf_samplerate : Z;
  sf_decodable : Z
}.

Definition SndfileHandle_open (f : DiskFile) : SndfileHandle :=
  match f with
  | unopenable =>
      {| sf_error := 1; sf_channels := 0; sf_frames := 0;
         sf_samplerate := 0; sf_decodable := 0 |}
  | sound c n r d =>
      {| sf_error := 0; sf_channels := c; sf_frames := n;
         sf_samplerate := r; sf_decodable := d |}
  end.

(** [sndFile.readf(ptr, numFrames)]: the number of frames delivered. *)
Definition readf (h : SndfileHandle) (numFrames : Z) : Z :=
  Z.min numFrames (sf_decodable h).

(** A [std::shared_ptr<AudioBuffer<float>>] that is not null: the address
    of the buffer it shares, and the shape of that buffer. *)
Record AudioBufferPtr : Type := mkAudioBufferPtr {
  address : nat;
  getNumChannels : Z;
  getNumFrames : Z
}.

Record PreloadedFileHandle : Type := mkPreloaded {
  preloadedData : AudioBufferPtr;
  sampleRate : Q
}.

(** A [FilePromisePtr], known by the address of the promise it shares. *)
Definition FilePromisePtr : Type := nat.

Record t : Type := mk {
  preloadSize : Z;                                   (* uint32_t *)
  oversamplingFactor : Oversampling;
  preloadedFiles : gmap string PreloadedFileHandle;   (* see [keys_intact] *)
  promiseQueue : list FilePromisePtr;
  filledPromiseQueue : list FilePromisePtr;
  temporaryFilePromises : list FilePromisePtr;
  promisesToClean : list FilePromisePtr;
  next_address : nat   (* the next address the allocator hands out *)
}.

Definition with_preloadedFiles (m : gmap string PreloadedFileHandle) (pool : t) : t :=
  {| preloadSize := preloadSize pool; oversamplingFactor := oversamplingFactor pool;
     preloadedFiles := m; promiseQueue := promiseQueue pool;
     filledPromiseQueue := filledPromiseQueue pool;
     temporaryFilePromises := temporaryFilePromises pool;
     promisesToClean := promisesToClean pool; next_address := next_address pool |}.

Definition with_next_address (a : nat) (pool : t) : t :=
  {| preloadSize := preloadSize pool; oversamplingFactor := oversamplingFactor pool;
     preloadedFiles := preloadedFiles pool; promiseQueue := promiseQueue pool;
     filledPromiseQueue := filledPromiseQueue pool;
     temporaryFilePromises := temporaryFilePromises pool;
     promisesToClean := promisesToClean pool; next_address := a |}.

Definition with_filledPromiseQueue (q : list FilePromisePtr) (pool : t) : t :=
  {| preloadSize := preloadSize pool; oversamplingFactor := oversamplingFactor pool;
     preloadedFiles := preloadedFiles pool; promiseQueue := promiseQueue pool;
     filledPromiseQueue := q;
     temporaryFilePromises := temporaryFilePromises pool;
     promisesToClean := promisesToClean pool; next_address := next_address pool |}.

Definition with_temporaryFilePromises (v : list FilePromisePtr) (pool : t) : t :=
  {| preloadSize := preloadSize pool; oversamplingFactor := oversamplingFactor pool;
     preloadedFiles := preloadedFiles pool; promiseQueue := promiseQueue pool;
     filledPromiseQueue := filledPromiseQueue pool;
     temporaryFilePromises := v;
     promisesToClean := promisesToClean pool; next_address := next_address pool |}.

Definition with_promisesToClean (v : list FilePromisePtr) (pool : t) : t :=
  {| preloadSize := preloadSize pool; oversamplingFactor := oversamplingFactor pool;
     preloadedFiles := preloadedFiles pool; promiseQueue := promiseQueue pool;
     filledPromiseQueue := filledPromiseQueue pool;
     temporaryFilePromises := temporaryFilePromises pool;
     promisesToClean := v; next_address := next_address pool |}.

(** Modelled from the spec: [sfz::upsample2x], [upsample4x] and
    [upsample8x] of [Oversampler.h].  The oversampling factor is an
    "integer multiplier applied when a sample is loaded"; the upsampled
    buffer has [factor] times the frames of the buffer read from the
    file. *)
Definition upsampled_frames (f : Oversampling) (numFrames : Z) : Z :=
  factor f * numFrames.

(** [readFromFile<float>(sndFile, numFrames, factor)]: a buffer of
    [numFrames] frames is allocated and filled by [readf], whose result is
    not looked at, then upsampled.  The buffer returned is a fresh one. *)
Definition readFromFile (sndFile : SndfileHandle) (numFrames : Z)
    (f : Oversampling) (pool : t) : AudioBufferPtr * t :=
  ({| address := next_address pool;
      getNumChannels := sf_channels sndFile;
      getNumFrames := upsampled_frames f numFrames |},
   with_next_address (S (next_address pool)) pool).

(** The local [framesToLoad] of [preloadFile]. *)
Definition framesToLoad (pool : t) (sndFile : SndfileHandle) (maxOffset : Z) : Z :=
  let frames := Machine.to_uint32 (sf_frames sndFile) in
  if preloadSize pool =? 0 then frames
  else Z.min frames (Machine.to_uint32 (maxOffset + preloadSize pool)).

Definition preloadFile (disk : gmap string DiskFile) (pool : t) (filename : string)
    (maxOffset : Z) : bool * t :=
  match disk !! filename with
  | None => (false, pool)
  | Some file =>
      let sndFile := SndfileHandle_open file in
      if negb (sf_channels sndFile =? 1) && negb (sf_channels sndFile =? 2)
      then (false, pool)
      else
        let framesToLoad := framesToLoad pool sndFile maxOffset in
        match preloadedFiles pool !! filename with
        | Some resident =>
            if framesToLoad >? getNumFrames (preloadedData resident)
            then
              let '(buffer, pool') :=
                readFromFile sndFile framesToLoad (oversamplingFactor pool) pool in
              (true,
               with_preloadedFiles
                 (<[filename := {| preloadedData := buffer;
                                   sampleRate := sampleRate resident |}]>
                    (preloadedFiles pool')) pool')
            else (true, pool)
        | None =>
            let '(buffer, pool') :=
              readFromFile sndFile framesToLoad (oversamplingFactor pool) pool in
            (true,
             with_preloadedFiles
               (<[filename := {| preloadedData := buffer;
                                 sampleRate := inject_Z (sf_samplerate sndFile
                                                         * factor (oversamplingFactor pool)) |}]>
                  (preloadedFiles pool')) pool')
        end
  end.

(** The number of frames of the file that a resident head covers, as
    [setPreloadSize] and [setOversamplingFactor] compute it before they
    reload: [preloadedData->getNumFrames() / oversamplingFactor]. *)
Definition resident_file_frames (pool : t) (resident : PreloadedFileHandle) : Z :=
  getNumFrames (preloadedData resident) / factor (oversamplingFactor pool).

(** The address of the head stored for [filename], if any. *)
Definition head_address (pool : t) (filename : string) : option nat :=
  (fun h => address (preloadedData h)) <$> preloadedFiles pool !! filename.

(** [use_count()] of a promise: the copies of the pointer held in the
    pool's queues and vectors, and the [elsewhere p] copies held outside
    them (by voices and by the loading threads). *)
Definition occurrences (p : FilePromisePtr) (l : list FilePromisePtr) : nat :=
  count_occ Nat.eq_dec l p.

Definition use_count (elsewhere : FilePromisePtr -> nat) (pool : t)
    (p : FilePromisePtr) : nat :=
  (elsewhere p
   + occurrences p (promiseQueue pool)
   + occurrences p (filledPromiseQueue pool)
   + occurrences p (temporaryFilePromises pool)
   + occurrences p (promisesToClean pool))%nat.

(** [std::iter_swap] on two iterators of a vector, given by position. *)
Definition iter_swap (v : list FilePromisePtr) (i j : nat) : option (list FilePromisePtr) :=
  x ← v !! i;
  y ← v !! j;
  Some (<[i := y]> (<[j := x]> v)).

(** [pop_back()]: undefined on an empty vector. *)
Definition pop_back (v : list FilePromisePtr) : option (list FilePromisePtr) :=
  match v with
  | [] => None
  | _ => Some (take (length v - 1)%nat v)
  end.

(** The first loop of [cleanupPromises]: each promise dequeued from the
    filled queue is pushed on the linear storage and the local pointer is
    reset. *)
Fixpoint drain (queue temporary : list FilePromisePtr) : list FilePromisePtr :=
  match queue with
  | [] => temporary
  | promise :: rest => drain rest (temporary ++ [promise])
  end.

(** The second loop of [cleanupPromises].  [promiseIterator] is a position
    in [temporaryFilePromises] and [sentinel] the position of
    [temporaryFilePromises.end() - 1], which is [-1] on an empty vector.
    Each round either removes one element or advances the iterator, so
    [fuel] rounds are enough when [fuel] is the length of the vector. *)
Fixpoint sweep (fuel : nat) (elsewhere : FilePromisePtr -> nat) (pool : t)
    (promiseIterator : nat) (sentinel : Z) : option t :=
  if (promiseIterator =? length (temporaryFilePromises pool))%nat then Some pool
  else
    match fuel with
    | O => None
    | S fuel' =>
        p ← temporaryFilePromises pool !! promiseIterator;
        if (use_count elsewhere pool p =? 1)%nat
        then
          let pool1 := with_promisesToClean (promisesToClean pool ++ [p]) pool in
          swapped ← (if sentinel <? 0 then None
                     else iter_swap (temporaryFilePromises pool1)
                            promiseIterator (Z.to_nat sentinel));
          popped ← pop_back swapped;
          sweep fuel' elsewhere (with_temporaryFilePromises popped pool1)
            promiseIterator (sentinel - 1)
        else sweep fuel' elsewhere pool (S promiseIterator) sentinel
    end.

Definition cleanupPromises (elsewhere : FilePromisePtr -> nat) (pool : t) : option t :=
  let pool1 :=
    with_temporaryFilePromises
      (drain (filledPromiseQueue pool) (temporaryFilePromises pool))
      (with_filledPromiseQueue [] pool) in
  sweep (length (temporaryFilePromises pool1)) elsewhere pool1 0
    (Z.of_nat (length (temporaryFilePromises pool1)) - 1).

(** [SndfileHandle sndFile(rootDirectory / name)]: a name that is not on
    the disk gives a handle that failed to open. *)
Definition SndfileHandle_at (disk : gmap string DiskFile) (name : string) : SndfileHandle :=
  match disk !! name with
  | Some file => SndfileHandle_open file
  | None => SndfileHandle_open unopenable
  end.

(** [FilePool::FileInformation]. *)
Record FileInformation : Type := mkInfo {
  info_end : Z;
  info_loopBegin : Z;
  info_loopEnd : Z;
  info_sampleRate : Q;
  info_numChannels : Z
}.

(** What [sndFile.command(SFC_GET_INSTRUMENT, ...)] leaves in the fields
    of [SF_INSTRUMENT] that [getFileInformation] reads. *)
Record SF_INSTRUMENT : Type := mkInstrument {
  loop_count : Z;
  loops_0_start : Z;
  loops_0_end : Z
}.

(** [getFileInformation(filename)].  [default_loopBegin] and
    [default_loopEnd] are [Default::loopRange.getStart()] and
    [Default::loopRange.getEnd()] of [Defaults.h], parameters of this
    development. *)
Definition getFileInformation (default_loopBegin default_loopEnd : Z)
    (disk : gmap string DiskFile) (instrumentInfo : SF_INSTRUMENT)
    (filename : string) : option FileInformation :=
  match disk !! filename with
  | None => None
  | Some file =>
      let sndFile := SndfileHandle_open file in
      if negb (sf_channels sndFile =? 1) && negb (sf_channels sndFile =? 2)
      then None
      else
        Some {| info_end := Machine.to_uint32 (sf_frames sndFile);
                info_sampleRate := inject_Z (sf_samplerate sndFile);
                info_numChannels := sf_channels sndFile;
                info_loopBegin :=
                  if loop_count instrumentInfo =? 1
                  then Machine.to_uint32 (loops_0_start instrumentInfo)
                  else default_loopBegin;
                info_loopEnd :=
                  if loop_count instrumentInfo =? 1
                  then Machine.to_uint32 (loops_0_end instrumentInfo)
                  else default_loopEnd |}
  end.

(** [getNumPreloadedSamples()]. *)
Definition getNumPreloadedSamples (pool : t) : nat := size (preloadedFiles pool).

(** Modelled from the spec: [config::defaultSampleRate] of [Config.h],
    44.1 kHz in section 6 of the specification. *)
Definition defaultSampleRate : Q := 44100.

(** Modelled from the spec: [config::defaultOversamplingFactor] of
    [Config.h], "x1" in section 6 of the specification. *)
Definition defaultOversamplingFactor : Oversampling := x1.

(** [FilePromise]; a null [preloadedData] or [fileData] is [None], and so
    is the empty [filename] view. *)
Record FilePromise : Type := mkPromise {
  promise_filename : option string;
  promise_preloadedData : option AudioBufferPtr;
  promise_fileData : option AudioBufferPtr;
  promise_sampleRate : Q;
  promise_dataReady : bool;
  promise_oversamplingFactor : Oversampling
}.

(** [FilePromise{}], as [std::make_shared<FilePromise>()] builds it. *)
Definition empty_promise : FilePromise :=
  {| promise_filename := None;
     promise_preloadedData := None;
     promise_fileData := None;
     promise_sampleRate := defaultSampleRate;
     promise_dataReady := false;
     promise_oversamplingFactor := defaultOversamplingFactor |}.

Definition with_promiseQueue (q : list FilePromisePtr) (pool : t) : t :=
  {| preloadSize := preloadSize pool; oversamplingFactor := oversamplingFactor pool;
     preloadedFiles := preloadedFiles pool; promiseQueue := q;
     filledPromiseQueue := filledPromiseQueue pool;
     temporaryFilePromises := temporaryFilePromises pool;
     promisesToClean := promisesToClean pool; next_address := next_address pool |}.

Definition with_preloadSize (n : Z) (pool : t) : t :=
  {| preloadSize := n; oversamplingFactor := oversamplingFactor pool;
     preloadedFiles := preloadedFiles pool; promiseQueue := promiseQueue pool;
     filledPromiseQueue := filledPromiseQueue pool;
     temporaryFilePromises := temporaryFilePromises pool;
     promisesToClean := promisesToClean pool; next_address := next_address pool |}.

Definition with_oversamplingFactor (f : Oversampling) (pool : t) : t :=
  {| preloadSize := preloadSize pool; oversamplingFactor := f;
     preloadedFiles := preloadedFiles pool; promiseQueue := promiseQueue pool;
     filledPromiseQueue := filledPromiseQueue pool;
     temporaryFilePromises := temporaryFilePromises pool;
     promisesToClean := promisesToClean pool; next_address := next_address pool |}.

(** [getFilePromise(filename)]: the address of the new promise, what the
    promise holds when it is returned, and the pool afterwards.
    [has_room] is the answer of [promiseQueue.try_enqueue], which the code
    does not look at. *)
Definition getFilePromise (pool : t) (has_room : bool) (filename : string)
    : FilePromisePtr * FilePromise * t :=
  let promise := next_address pool in
  let pool1 := with_next_address (S (next_address pool)) pool in
  match preloadedFiles pool !! filename with
  | Some preloaded =>
      (promise,
       {| promise_filename := Some filename;
          promise_preloadedData := Some (preloadedData preloaded);
          promise_fileData := None;
          promise_sampleRate := sampleRate preloaded;
          promise_dataReady := false;
          promise_oversamplingFactor := oversamplingFactor pool |},
       if has_room then with_promiseQueue (promiseQueue pool1 ++ [promise]) pool1
       else pool1)
  | None => (promise, empty_promise, pool1)
  end.

(** The keys of [preloadedFiles] are [absl::string_view]s (FilePool.h:204):
    [preloadFile] stores a view of the [std::string] its caller passed
    (FilePool.cpp:115), not a copy of it.  The map [preloadedFiles] is
    keyed by the characters these strings held when they were inserted; it
    is what a lookup sees for as long as every one of these strings is
    alive and still holds these characters.  [intact] tells, for the
    string behind each key, whether that is so at the time of a call. *)
Definition keys_intact (intact : string -> bool) (pool : t) : bool :=
  forallb (fun entry : string * PreloadedFileHandle => intact entry.1)
          (map_to_list (preloadedFiles pool)).

(** [getFilePromise(filename)] in a later call.  [find] hashes [filename]
    and compares it with the characters behind the keys: once the string
    behind a key is destroyed or overwritten the view dangles or no longer
    matches its hash, and what the lookup does is not determined here. *)
Definition getFilePromise_later (intact : string -> bool) (pool : t) (has_room : bool)
    (filename : string) : option (FilePromisePtr * FilePromise * t) :=
  if keys_intact intact pool then Some (getFilePromise pool has_room filename)
  else None.

(** The number of frames [setPreloadSize] and [setOversamplingFactor] read
    again for one preloaded file: [newPreloadSize + maxOffset], with the
    locals [numFrames] and [maxOffset] of their loops. *)
Definition reload_frames (oldPool : t) (newPreloadSize : Z)
    (preloadedFile : PreloadedFileHandle) : Z :=
  let numFrames :=
    getNumFrames (preloadedData preloadedFile) / factor (oversamplingFactor oldPool) in
  let maxOffset :=
    Machine.to_uint32
      (if numFrames >? preloadSize oldPool then numFrames - preloadSize oldPool else 0) in
  Machine.to_uint32 (newPreloadSize + maxOffset).

(** The body of the loops of [setPreloadSize] and [setOversamplingFactor]
    for one preloaded file: the head is read again with
    [newPreloadSize + maxOffset] frames at [newFactor]; [newSampleRate] is
    what the loop does to the stored sample rate (nothing in
    [setPreloadSize]). *)
Definition reload (disk : gmap string DiskFile) (oldPool : t)
    (newPreloadSize : Z) (newFactor : Oversampling) (newSampleRate : Q -> Q)
    (name : string) (preloadedFile : PreloadedFileHandle) (acc : t) : t :=
  let sndFile := SndfileHandle_at disk name in
  let '(buffer, acc') :=
    readFromFile sndFile (reload_frames oldPool newPreloadSize preloadedFile) newFactor acc in
  with_preloadedFiles
    (<[name := {| preloadedData := buffer;
                  sampleRate := newSampleRate (sampleRate preloadedFile) |}]>
       (preloadedFiles acc')) acc'.

(** [setPreloadSize(preloadSize)]; the files are visited in the order of
    the map. *)
Definition setPreloadSize (disk : gmap string DiskFile) (pool : t) (preloadSize' : Z) : t :=
  with_preloadSize preloadSize'
    (map_fold (reload disk pool preloadSize' (oversamplingFactor pool) (fun rate => rate))
       pool (preloadedFiles pool)).

(** [setOversamplingFactor(factor)]. *)
Definition setOversamplingFactor (disk : gmap string DiskFile) (pool : t)
    (f : Oversampling) : t :=
  let samplerateChange :=
    (inject_Z (factor f) / inject_Z (factor (oversamplingFactor pool)))%Q in
  with_oversamplingFactor f
    (map_fold (reload disk pool (preloadSize pool) f
                 (fun rate => rate * samplerateChange)%Q)
       pool (preloadedFiles pool)).

Definition getOversamplingFactor (pool : t) : Oversampling := oversamplingFactor pool.

Definition getPreloadSize (pool : t) : Z := preloadSize pool.

(** One loading thread between two passes of its loop: the pool, the
    promises on the heap, the local [promise] and the counter
    [threadsLoading]. *)
Record Loader : Type := mkLoader {
  loader_pool : t;
  loader_promises : gmap FilePromisePtr FilePromise;
  loader_promise : option FilePromisePtr;
  threadsLoading : Z;
  emptyQueue : bool
}.

(** One pass of the loop of [loadingThread], run without another thread
    in between.  [held p] counts the copies of the pointer outside the pool
    and outside this thread. *)
Definition loadingThread_pass (disk : gmap string DiskFile)
    (held : FilePromisePtr -> nat) (st : Loader) : Loader :=
  let pool := with_promisesToClean [] (loader_pool st) in
  if emptyQueue st
  then
    {| loader_pool := with_promiseQueue [] pool;
       loader_promises := loader_promises st;
       loader_promise :=
         match List.last (map Some (promiseQueue pool)) None with
         | Some p => Some p
         | None => loader_promise st
         end;
       threadsLoading := threadsLoading st;
       emptyQueue := false |}
  else
    match promiseQueue pool with
    | [] =>
        {| loader_pool := pool; loader_promises := loader_promises st;
           loader_promise := loader_promise st;
           threadsLoading := threadsLoading st; emptyQueue := false |}
    | promise :: rest =>
        let pool := with_promiseQueue rest pool in
        let to_filled (promises : gmap FilePromisePtr FilePromise) :=
          {| loader_pool :=
               with_filledPromiseQueue (filledPromiseQueue pool ++ [promise]) pool;
             loader_promises := promises;
             loader_promise := None;
             threadsLoading := threadsLoading st;
             emptyQueue := false |} in
        if (S (use_count held pool promise) =? 1)%nat
        then to_filled (loader_promises st)
        else
          let name :=
            default ""%string (loader_promises st !! promise ≫= promise_filename) in
          let sndFile := SndfileHandle_at disk name in
          if negb (sf_error sndFile =? 0)
          then
            {| loader_pool := pool; loader_promises := loader_promises st;
               loader_promise := Some promise;
               threadsLoading := threadsLoading st + 1;
               emptyQueue := false |}
          else
            let frames := Machine.to_uint32 (sf_frames sndFile) in
            let '(buffer, pool') :=
              readFromFile sndFile frames (oversamplingFactor pool) pool in
            let loaded (fp : FilePromise) :=
              {| promise_filename := promise_filename fp;
                 promise_preloadedData := promise_preloadedData fp;
                 promise_fileData := Some buffer;
                 promise_sampleRate := promise_sampleRate fp;
                 promise_dataReady := true;
                 promise_oversamplingFactor := promise_oversamplingFactor fp |} in
            {| loader_pool :=
                 with_filledPromiseQueue (filledPromiseQueue pool' ++ [promise]) pool';
               loader_promises := alter loaded promise (loader_promises st);
               loader_promise := None;
               threadsLoading := threadsLoading st + 1 - 1;
               emptyQueue := false |}
    end.

(** [waitForBackgroundLoading()] returns once the pending queue is empty
    and no thread counts as loading. *)
Definition waitForBackgroundLoading_returns (st : Loader) : bool :=
  (length (promiseQueue (loader_pool st)) =? 0)%nat && negb (threadsLoading st >? 0).

End FilePool.

(** ** Voice.cpp *)

Module Voice.

Module State.
Inductive t : Type := idle | playing | release.
End State.

Inductive TriggerType : Type := NoteOn | NoteOff | CC.

Inductive SfzLoopMode : Type := no_loop | one_shot | loop_continuous | loop_sustain.

(** Modelled from the spec: [config::numChannels] of [Config.h], 2 in
    section 6 of the specification. *)
Definition config_numChannels : nat := 2.

(** Modelled from the spec: [config::sustainCC] of [Config.h], 64. *)
Definition sustainCC : Z := 64.

(** Modelled from the spec: [config::halfCCThreshold] of [Config.h], 64. *)
Definition halfCCThreshold : Z := 64.

(** What the voice asks of its region, declared in [Region.h]: each field
    stands for the answer of the member or accessor of that name, and is a
    parameter of this development. *)
Record Region : Type := mkRegion {
  region_sampleRate : Q;
  getBasePitchVariation : Z -> Z -> Q;
  getOffset : Z;
  getDelay : Q;
  amplitudeEG_getDelay : (Z -> Z) -> Z -> Q;
  isGenerator : bool;
  isStereo : bool;
  shouldLoop : bool;
  trueSampleEnd : Z;
  loopRange_getStart : Z;
  loopRange_getEnd : Z;
  canUsePreloadedData : bool;
  preloadedData : option AudioSpan.AudioBuffer;   (* a shared_ptr, [None] when null *)
  loopMode : SfzLoopMode;
  checkSustain : bool;
  offBy : option Z
}.

(** What is kept of the ADSR envelope [egEnvelope], declared in
    [ADSREnvelope.h]: the delay it was last reset with and the offset
    [startRelease] was last called with. *)
Record EGEnvelope : Type := mkEG {
  eg_delay : Z;
  eg_releaseDelay : option Z
}.

(** The members of [Voice] that the modelled functions read or write.  The
    five smoothing envelopes, the base gains, the phase and the power
    history are written by these functions and read by none of the
    branches below. *)
Record t : Type := mk {
  state : State.t;
  region : option Region;          (* Region*, [None] when null *)
  triggerType : TriggerType;
  triggerNumber : Z;
  triggerChannel : Z;
  triggerValue : Z;
  speedRatio : Q;
  pitchRatio : Q;
  sourcePosition : Z;
  floatPositionOffset : Q;
  initialDelay : Z;
  noteIsOff : bool;
  dataReady : bool;
  fileData : option AudioSpan.AudioBuffer;
  ticket : Z;
  sampleRate : Q;
  samplesPerBlock : Z;
  egEnvelope : EGEnvelope
}.

(** [static_cast] of a [float] to an integer type: towards zero. *)
Definition truncate (q : Q) : Z :=
  if Qle_bool 0 q then Qfloor q else Qceiling q.

(** [secondsToSamples] of [prepareEGEnvelope]. *)
Definition secondsToSamples (v : t) (timeInSeconds : Q) : Z :=
  Machine.to_int (truncate (timeInSeconds * sampleRate v)).

(** [prepareEGEnvelope(delay, velocity)], for the delay handed to
    [egEnvelope.reset]. *)
Definition prepareEGEnvelope (cc : Z -> Z) (r : Region) (v : t)
    (delay velocity : Z) : EGEnvelope :=
  {| eg_delay := delay + secondsToSamples v (amplitudeEG_getDelay r cc velocity);
     eg_releaseDelay := None |}.

(** [startVoice(region, delay, channel, number, value, triggerType)];
    [cc] is [midiState.cc]. *)
Definition startVoice (cc : Z -> Z) (v : t) (r : Region)
    (delay channel number value : Z) (triggerType' : TriggerType) : t :=
  let delay := if delay <? 0 then 0 else delay in
  let initialDelay' :=
    delay + Machine.to_uint32 (truncate (getDelay r * sampleRate v)) in
  {| state := State.playing;
     region := Some r;
     triggerType := triggerType';
     triggerNumber := number;
     triggerChannel := channel;
     triggerValue := value;
     speedRatio := (region_sampleRate r / sampleRate v)%Q;
     pitchRatio := getBasePitchVariation r number value;
     sourcePosition := getOffset r;
     floatPositionOffset := floatPositionOffset v;
     initialDelay := initialDelay';
     noteIsOff := noteIsOff v;
     dataReady := dataReady v;
     fileData := fileData v;
     ticket := ticket v;
     sampleRate := sampleRate v;
     samplesPerBlock := samplesPerBlock v;
     egEnvelope := prepareEGEnvelope cc r v initialDelay' value |}.

Definition with_state (s : State.t) (eg : EGEnvelope) (v : t) : t :=
  {| state := s; region := region v; triggerType := triggerType v;
     triggerNumber := triggerNumber v; triggerChannel := triggerChannel v;
     triggerValue := triggerValue v; speedRatio := speedRatio v;
     pitchRatio := pitchRatio v; sourcePosition := sourcePosition v;
     floatPositionOffset := floatPositionOffset v;
     initialDelay := initialDelay v; noteIsOff := noteIsOff v;
     dataReady := dataReady v; fileData := fileData v; ticket := ticket v;
     sampleRate := sampleRate v; samplesPerBlock := samplesPerBlock v;
     egEnvelope := eg |}.

Definition with_noteIsOff (b : bool) (v : t) : t :=
  {| state := state v; region := region v; triggerType := triggerType v;
     triggerNumber := triggerNumber v; triggerChannel := triggerChannel v;
     triggerValue := triggerValue v; speedRatio := speedRatio v;
     pitchRatio := pitchRatio v; sourcePosition := sourcePosition v;
     floatPositionOffset := floatPositionOffset v;
     initialDelay := initialDelay v; noteIsOff := b;
     dataReady := dataReady v; fileData := fileData v; ticket := ticket v;
     sampleRate := sampleRate v; samplesPerBlock := samplesPerBlock v;
     egEnvelope := egEnvelope v |}.

Definition with_initialDelay (d : Z) (v : t) : t :=
  {| state := state v; region := region v; triggerType := triggerType v;
     triggerNumber := triggerNumber v; triggerChannel := triggerChannel v;
     triggerValue := triggerValue v; speedRatio := speedRatio v;
     pitchRatio := pitchRatio v; sourcePosition := sourcePosition v;
     floatPositionOffset := floatPositionOffset v;
     initialDelay := d; noteIsOff := noteIsOff v;
     dataReady := dataReady v; fileData := fileData v; ticket := ticket v;
     sampleRate := sampleRate v; samplesPerBlock := samplesPerBlock v;
     egEnvelope := egEnvelope v |}.

Definition with_position (position : Z) (offset : Q) (v : t) : t :=
  {| state := state v; region := region v; triggerType := triggerType v;
     triggerNumber := triggerNumber v; triggerChannel := triggerChannel v;
     triggerValue := triggerValue v; speedRatio := speedRatio v;
     pitchRatio := pitchRatio v; sourcePosition := position;
     floatPositionOffset := offset;
     initialDelay := initialDelay v; noteIsOff := noteIsOff v;
     dataReady := dataReady v; fileData := fileData v; ticket := ticket v;
     sampleRate := sampleRate v; samplesPerBlock := samplesPerBlock v;
     egEnvelope := egEnvelope v |}.

Definition is_playing (s : State.t) : bool :=
  match s with State.playing => true | _ => false end.

Definition is_release (s : State.t) : bool :=
  match s with State.release => true | _ => false end.

Definition is_idle (s : State.t) : bool :=
  match s with State.idle => true | _ => false end.

Definition isFree (v : t) : bool :=
  match region v with None => true | Some _ => false end.

Definition canBeStolen (v : t) : bool := is_release (state v).

(** [release(delay)]. *)
Definition release (v : t) (delay : Z) : t :=
  if is_playing (state v)
  then with_state State.release
         {| eg_delay := eg_delay (egEnvelope v); eg_releaseDelay := Some delay |} v
  else v.

Definition is_one_shot (m : SfzLoopMode) : bool :=
  match m with one_shot => true | _ => false end.

Definition is_NoteOn (k : TriggerType) : bool :=
  match k with NoteOn => true | _ => false end.

(** [registerNoteOff(delay, channel, noteNumber, velocity)]. *)
Definition registerNoteOff (cc : Z -> Z) (v : t)
    (delay channel noteNumber velocity : Z) : t :=
  match region v with
  | None => v
  | Some r =>
      if negb (is_playing (state v)) then v
      else if (triggerChannel v =? channel) && (triggerNumber v =? noteNumber)
      then
        let v1 := with_noteIsOff true v in
        if is_one_shot (loopMode r) then v1
        else if negb (checkSustain r) || (cc sustainCC <? halfCCThreshold)
        then release v1 delay
        else v1
      else v
  end.

(** [registerCC(delay, channel, ccNumber, ccValue)]: the release on the
    sustain pedal; the events registered on the smoothing envelopes are not
    kept. *)
Definition registerCC (v : t) (delay channel ccNumber ccValue : Z) : t :=
  match region v with
  | None => v
  | Some r =>
      if checkSustain r && noteIsOff v && (ccNumber =? sustainCC)
         && (ccValue <? halfCCThreshold)
      then release v delay
      else v
  end.

(** [checkOffGroup(delay, group)]. *)
Definition checkOffGroup (v : t) (delay group : Z) : bool * t :=
  match region v with
  | Some r =>
      if is_NoteOn (triggerType v)
      then match offBy r with
           | Some g => if g =? group then (true, release v delay) else (false, v)
           | None => (false, v)
           end
      else (false, v)
  | None => (false, v)
  end.

(** [reset()]. *)
Definition reset (v : t) : t :=
  {| state := State.idle; region := None; triggerType := triggerType v;
     triggerNumber := triggerNumber v; triggerChannel := triggerChannel v;
     triggerValue := triggerValue v; speedRatio := speedRatio v;
     pitchRatio := pitchRatio v; sourcePosition := 0;
     floatPositionOffset := 0%Q;
     initialDelay := initialDelay v; noteIsOff := false;
     dataReady := false; fileData := None; ticket := ticket v;
     sampleRate := sampleRate v; samplesPerBlock := samplesPerBlock v;
     egEnvelope := egEnvelope v |}.

(** *** The helpers of [SIMDHelpers.h] used by [fillWithData] *)

(** The helpers [sfz::fill], [sfz::cumsum], [sfz::add], [sfz::subtract] and
    [sfz::sfzInterpolationCast] are defined in [SIMDHelpers.h]; they are
    modelled from section 4.5, step 5, of the specification: "starting from
    sourcePosition + floatPositionOffset, advance by pitchRatio *
    speedRatio per sample.  Split into integer index and [0,1) fraction;
    left coefficient = 1 - fraction, right = fraction."  The positions are
    [float]s: every sum, product and difference below is rounded by
    [Machine.to_float], the sums being taken one after the other from the
    first element on. *)

(** Modelled from the spec: [sfz::fill<T>(span, value)], every element of
    a span of [n] elements set to [value]. *)
Definition fill {A : Type} (n : nat) (value : A) : list A := replicate n value.

(** Modelled from the spec: [cumsum(input, output)], the running sum so
    far being [sum]. *)
Fixpoint cumsum (sum : Q) (input : list Q) : list Q :=
  match input with
  | [] => []
  | x :: rest =>
      let sum := Machine.to_float (sum + x) in
      sum :: cumsum sum rest
  end.

(** Modelled from the spec: [add<int>(value, span)], [value] added to
    every element. *)
Definition add_int (value : Z) (span : list Z) : list Z :=
  map (fun x => x + value) span.

(** Modelled from the spec:
    [sfzInterpolationCast(floatJumps, jumps, leftCoeffs, rightCoeffs)], the
    integer part of each position, one minus its fraction and its
    fraction. *)
Definition sfzInterpolationCast (floatJumps : list Q) : list Z * list Q * list Q :=
  let fraction (x : Q) := Machine.to_float (x - inject_Z (truncate x)) in
  (map truncate floatJumps,
   map (fun x => Machine.to_float (1 - fraction x)) floatJumps,
   map fraction floatJumps).

(** [jumps[0] += floatPositionOffset]. *)
Definition add_to_first (offset : Q) (jumps : list Q) : list Q :=
  match jumps with
  | [] => []
  | x :: rest => Machine.to_float (x + offset) :: rest
  end.

(** *** [fillWithData] *)

(** The two channels of the block handed to [fillWithData], frame by
    frame. *)
Record Block : Type := mkBlock { left : list Q; right : list Q }.

Definition block_frames (b : Block) : nat := length (left b).

(** The [source] chosen by the lambda at the head of [fillWithData]. *)
Definition source (v : t) (r : Region) : option AudioSpan.t :=
  if canUsePreloadedData r then preloadedData r ≫= AudioSpan.from_buffer config_numChannels
  else if negb (dataReady v) then preloadedData r ≫= AudioSpan.from_buffer config_numChannels
  else fileData v ≫= AudioSpan.from_buffer config_numChannels.

(** [indices], [leftCoeffs] and [rightCoeffs] after
    [add<int>(sourcePosition, indices)], for a block of [n] frames. *)
Definition read_positions (v : t) (n : nat) : list Z * list Q * list Q :=
  let jumps := fill n (Machine.to_float (pitchRatio v * speedRatio v)) in
  let jumps := add_to_first (floatPositionOffset v) jumps in
  let jumps := cumsum 0%Q jumps in
  let '(indices, leftCoeffs, rightCoeffs) := sfzInterpolationCast jumps in
  (add_int (sourcePosition v) indices, leftCoeffs, rightCoeffs).

(** The local [sampleEnd]. *)
Definition sampleEnd (r : Region) (src : AudioSpan.t) : Z :=
  Z.min (Machine.to_int (trueSampleEnd r))
        (Machine.to_int (AudioSpan.getNumFrames src)) - 1.

(** The loop of the looping branch.  Each index above [sampleEnd] has
    [offset] subtracted from itself and from every index after it;
    [pending] is what the earlier rounds have subtracted from the indices
    still to visit. *)
Fixpoint wrap_indices (sampleEnd offset pending : Z) (indices : list Z) : list Z :=
  match indices with
  | [] => []
  | index :: rest =>
      let index := index - pending in
      if index >? sampleEnd
      then (index - offset) :: wrap_indices sampleEnd offset (pending + offset) rest
      else index :: wrap_indices sampleEnd offset pending rest
  end.

(** The position of the first index above [sampleEnd], where the loop of
    the other branch fills and breaks. *)
Fixpoint first_above (sampleEnd : Z) (indices : list Z) : option nat :=
  match indices with
  | [] => None
  | index :: rest =>
      if index >? sampleEnd then Some O else S <$> first_above sampleEnd rest
  end.

(** [fill(span.last(remainingElements), value)]. *)
Definition fill_last {A : Type} (span : list A) (remainingElements : nat) (value : A) : list A :=
  take (length span - remainingElements)%nat span ++ fill remainingElements value.

Definition clamp_indices (sampleEnd : Z) (indices : list Z)
    (leftCoeffs rightCoeffs : list Q) : list Z * list Q * list Q :=
  match first_above sampleEnd indices with
  | None => (indices, leftCoeffs, rightCoeffs)
  | Some position =>
      let remainingElements := (length indices - position)%nat in
      (fill_last indices remainingElements sampleEnd,
       fill_last leftCoeffs remainingElements 0%Q,
       fill_last rightCoeffs remainingElements 1%Q)
  end.

(** Whether the looping branch is taken. *)
Definition loops_within (r : Region) (src : AudioSpan.t) : bool :=
  shouldLoop r && (loopRange_getEnd r <=? AudioSpan.getNumFrames src).

(** [indices], [leftCoeffs] and [rightCoeffs] when the interpolation
    starts. *)
Definition adjusted_positions (v : t) (r : Region) (src : AudioSpan.t)
    (n : nat) : list Z * list Q * list Q :=
  let '(indices, leftCoeffs, rightCoeffs) := read_positions v n in
  if loops_within r src
  then
    let offset := sampleEnd r src - Machine.to_int (loopRange_getStart r) in
    (wrap_indices (sampleEnd r src) offset 0 indices, leftCoeffs, rightCoeffs)
  else clamp_indices (sampleEnd r src) indices leftCoeffs rightCoeffs.

(** One channel of the interpolation loop: the frame at the index times
    the left coefficient plus the frame after it times the right one. *)
Fixpoint interpolate (channel : AudioSpan.pointer) (indices : list Z)
    (leftCoeffs rightCoeffs : list Q) : option (list Q) :=
  match indices, leftCoeffs, rightCoeffs with
  | ind :: indices', leftCoeff :: leftCoeffs', rightCoeff :: rightCoeffs' =>
      a ← AudioSpan.deref channel ind;
      b ← AudioSpan.deref channel (ind + 1);
      out ← interpolate channel indices' leftCoeffs' rightCoeffs';
      Some ((a * leftCoeff + b * rightCoeff)%Q :: out)
  | _, _, _ => Some []
  end.

(** [absl::c_find(indices, sampleEnd)], as a distance from [begin()]. *)
Fixpoint find_index (x : Z) (indices : list Z) : nat :=
  match indices with
  | [] => O
  | y :: rest => if y =? x then O else S (find_index x rest)
  end.

(** [buffer.subspan(last).fill(0.0f)] on one channel. *)
Definition zero_from (last : nat) (channel : list Q) : list Q :=
  take last channel ++ fill (length channel - last)%nat 0%Q.

Definition last_Z (l : list Z) : Z := List.last l 0.
Definition last_Q (l : list Q) : Q := List.last l 0%Q.

(** The interpolation loops: a source of one channel is written to the
    left channel only, any other source to both channels. *)
Definition write_block (src : AudioSpan.t) (buffer : Block) (indices : list Z)
    (leftCoeffs rightCoeffs : list Q) : option Block :=
  leftSource ← AudioSpan.getChannel src 0;
  if AudioSpan.getNumChannels src =? 1
  then
    l ← interpolate leftSource indices leftCoeffs rightCoeffs;
    Some {| left := l; right := right buffer |}
  else
    rightSource ← AudioSpan.getChannel src 1;
    l ← interpolate leftSource indices leftCoeffs rightCoeffs;
    r ← interpolate rightSource indices leftCoeffs rightCoeffs;
    Some {| left := l; right := r |}.

(** The end of [fillWithData]: the position is stored and, when a region
    that does not loop has reached [sampleEnd] in a voice that is not yet
    releasing, the voice is released and the block zeroed from the first
    frame read at [sampleEnd]. *)
Definition finish (v : t) (r : Region) (src : AudioSpan.t) (indices : list Z)
    (rightCoeffs : list Q) (written : Block) : t * Block :=
  let v1 := with_position (last_Z indices) (last_Q rightCoeffs) v in
  if negb (is_release (state v1)) && negb (shouldLoop r)
     && (sourcePosition v1 =? sampleEnd r src)
  then
    let last := find_index (sampleEnd r src) indices in
    (release v1 (Z.of_nat last),
     {| left := zero_from last (left written);
        right := zero_from last (right written) |})
  else (v1, written).

Definition fillWithData (v : t) (buffer : Block) : option (t * Block) :=
  let n := block_frames buffer in
  if (n =? 0)%nat then Some (v, buffer)
  else
    r ← region v;
    src ← source v r;
    if samplesPerBlock v <? Z.of_nat n then None   (* indexSpan.first(n) *)
    else
      let '(indices, leftCoeffs, rightCoeffs) := adjusted_positions v r src n in
      written ← write_block src buffer indices leftCoeffs rightCoeffs;
      Some (finish v r src indices rightCoeffs written).

(** [fillWithGenerator]: it writes the block and the phase, and none of
    the members kept in [t]. *)
Definition fillWithGenerator (v : t) : t := v.

(** [renderBlock(buffer)] on a buffer of [numFrames] frames, for the
    members kept in [t]; [egSmoothing] is what [egEnvelope.isSmoothing()]
    answers once the block is processed.  [processMono] and
    [processStereo] start with [tempSpan1.first(numSamples)] on the whole
    block, which ends the program when the block has more frames than
    [samplesPerBlock]; of what they do to the samples nothing is kept. *)
Definition renderBlock (v : t) (numFrames : nat) (egSmoothing : bool) : option t :=
  match region v with
  | None => Some v
  | Some r =>
      if is_idle (state v) then Some v
      else
        let delay := Z.min (Machine.to_size_t (initialDelay v)) (Z.of_nat numFrames) in
        let delayed_frames := (numFrames - Z.to_nat delay)%nat in
        let v1 := with_initialDelay (initialDelay v - delay) v in
        v2 ← (if isGenerator r then Some (fillWithGenerator v1)
              else fst <$> fillWithData v1
                     {| left := fill delayed_frames 0%Q;
                        right := fill delayed_frames 0%Q |});
        if samplesPerBlock v2 <? Z.of_nat numFrames then None   (* tempSpan1.first(n) *)
        else Some (if negb egSmoothing then reset v2 else v2)
  end.

(** *** The file data handed over by the loading thread *)

(** [setFileData(file, ticket)]. *)
Definition setFileData (v : t) (file : AudioSpan.AudioBuffer) (ticket' : Z) : t :=
  if negb (ticket' =? ticket v) then v
  else
    {| state := state v; region := region v; triggerType := triggerType v;
       triggerNumber := triggerNumber v; triggerChannel := triggerChannel v;
       triggerValue := triggerValue v; speedRatio := speedRatio v;
       pitchRatio := pitchRatio v; sourcePosition := sourcePosition v;
       floatPositionOffset := floatPositionOffset v;
       initialDelay := initialDelay v; noteIsOff := noteIsOff v;
       dataReady := true; fileData := Some file; ticket := ticket v;
       sampleRate := sampleRate v; samplesPerBlock := samplesPerBlock v;
       egEnvelope := egEnvelope v |}.

(** [expectFileData(ticket)]. *)
Definition expectFileData (v : t) (ticket' : Z) : t :=
  {| state := state v; region := region v; triggerType := triggerType v;
     triggerNumber := triggerNumber v; triggerChannel := triggerChannel v;
     triggerValue := triggerValue v; speedRatio := speedRatio v;
     pitchRatio := pitchRatio v; sourcePosition := sourcePosition v;
     floatPositionOffset := floatPositionOffset v;
     initialDelay := initialDelay v; noteIsOff := noteIsOff v;
     dataReady := dataReady v; fileData := fileData v; ticket := ticket';
     sampleRate := sampleRate v; samplesPerBlock := samplesPerBlock v;
     egEnvelope := egEnvelope v |}.

(** [garbageCollect()]. *)
Definition garbageCollect (v : t) : t :=
  if is_idle (state v) && isFree v
  then
    {| state := state v; region := region v; triggerType := triggerType v;
       triggerNumber := triggerNumber v; triggerChannel := triggerChannel v;
       triggerValue := triggerValue v; speedRatio := speedRatio v;
       pitchRatio := pitchRatio v; sourcePosition := sourcePosition v;
       floatPositionOffset := floatPositionOffset v;
       initialDelay := initialDelay v; noteIsOff := noteIsOff v;
       dataReady := dataReady v; fileData := None; ticket := ticket v;
       sampleRate := sampleRate v; samplesPerBlock := samplesPerBlock v;
       egEnvelope := egEnvelope v |}
  else v.

(** *** The operations of the audio thread on one voice *)

Inductive operation : Type :=
| do_startVoice (cc : Z -> Z) (r : Region) (delay channel number value : Z)
    (triggerType : TriggerType)
| do_release (delay : Z)
| do_registerNoteOff (cc : Z -> Z) (delay channel noteNumber velocity : Z)
| do_registerCC (delay channel ccNumber ccValue : Z)
| do_checkOffGroup (delay group : Z)
| do_renderBlock (numFrames : nat) (egSmoothing : bool)
| do_reset.

Definition perform (v : t) (o : operation) : option t :=
  match o with
  | do_startVoice cc r delay channel number value k =>
      Some (startVoice cc v r delay channel number value k)
  | do_release delay => Some (release v delay)
  | do_registerNoteOff cc delay channel noteNumber velocity =>
      Some (registerNoteOff cc v delay channel noteNumber velocity)
  | do_registerCC delay channel ccNumber ccValue =>
      Some (registerCC v delay channel ccNumber ccValue)
  | do_checkOffGroup delay group => Some (snd (checkOffGroup v delay group))
  | do_renderBlock numFrames egSmoothing => renderBlock v numFrames egSmoothing
  | do_reset => Some (reset v)
  end.

(** The states a voice goes through under a sequence of operations. *)
Fixpoint run (v : t) (ops : list operation) : option (list State.t) :=
  match ops with
  | [] => Some []
  | o :: rest =>
      v' ← perform v o;
      states ← run v' rest;
      Some (state v' :: states)
  end.

(** The states a voice goes through under a sequence of operations, as far
    as the operations have a defined result: the list stops before the
    first one that has none. *)
Fixpoint reached (v : t) (ops : list operation) : list State.t :=
  match ops with
  | [] => []
  | o :: rest =>
      match perform v o with
      | Some v' => state v' :: reached v' rest
      | None => []
      end
  end.

(** The transitions that section 8 of the specification lists:
    idle to playing, playing to release, release to idle, playing to
    idle. *)
Definition listed_transition (s s' : State.t) : Prop :=
  (s = State.idle /\ s' = State.playing)
  \/ (s = State.playing /\ s' = State.release)
  \/ (s = State.release /\ s' = State.idle)
  \/ (s = State.playing /\ s' = State.idle).

(** What each operation can do to the state: [startVoice] sets it to
    playing, [reset] to idle, the operations that go through [release]
    leave it or take playing to release, and [renderBlock], which calls
    both [release] and [reset], does one of these or ends in idle. *)
Definition transition (o : operation) (s s' : State.t) : Prop :=
  match o with
  | do_startVoice _ _ _ _ _ _ _ => s' = State.playing
  | do_reset => s' = State.idle
  | do_release _
  | do_registerNoteOff _ _ _ _ _
  | do_registerCC _ _ _ _
  | do_checkOffGroup _ _ =>
      s' = s \/ (s = State.playing /\ s' = State.release)
  | do_renderBlock _ _ =>
      s' = s
      \/ (s = State.playing /\ s' = State.release)
      \/ (s <> State.idle /\ s' = State.idle)
  end.

(** [states] are reached from [s] by [ops], one [transition] each. *)
Fixpoint follows (s : State.t) (ops : list operation) (states : list State.t) : Prop :=
  match ops, states with
  | [], [] => True
  | o :: ops', s' :: states' => transition o s s' /\ follows s' ops' states'
  | _, _ => False
  end.

(** No two consecutive states are idle then release. *)
Fixpoint never_idle_to_release (s : State.t) (states : list State.t) : Prop :=
  match states with
  | [] => True
  | s' :: states' =>
      ~ (s = State.idle /\ s' = State.release) /\ never_idle_to_release s' states'
  end.

End Voice.

(** ** Concrete inputs *)

Module Inputs.

(** A buffer of four [float]s aligned on 16 bytes, as a first successful
    [resize(4)] leaves it when the allocator answers address 4096. *)
Definition four_floats : Buffer.t :=
  snd (Buffer.resize 16 4 Buffer.empty_buffer 4 4096).

(** Two channels of three frames each, viewed by a span of two channels. *)
Definition stereo_span : AudioSpan.t :=
  {| AudioSpan.spans := [AudioSpan.ptr [1; 2; 3]%Q; AudioSpan.ptr [0; 2; 0]%Q];
     AudioSpan.numFrames := 3;
     AudioSpan.numChannels := 2 |}.

(** The mean of the squares of the first [span_size] cells of a span, a
    possible [sfz::meanSquared]. *)
Definition mean_of_squares (sp : AudioSpan.Span) : Q :=
  match AudioSpan.span_data sp with
  | AudioSpan.ptr cells =>
      (fold_left Qplus
         (map (fun x => x * x)%Q (take (Z.to_nat (AudioSpan.span_size sp)) cells)) 0
       / inject_Z (AudioSpan.span_size sp))%Q
  | _ => 0%Q
  end.

(** The controllers all at 0. *)
Definition no_cc : Z -> Z := fun _ => 0.

(** A mono region of four frames, 10 to 40, whose sample ends at frame 2;
    it does not loop and is played at the pitch and rate of the file.  The
    three elements after the frames are the start of the padded tail of
    the channel, with what the allocator left there (99 here). *)
Definition short_region : Voice.Region :=
  {| Voice.region_sampleRate := 44100;
     Voice.getBasePitchVariation := fun _ _ => 1%Q;
     Voice.getOffset := 0;
     Voice.getDelay := 0;
     Voice.amplitudeEG_getDelay := fun _ _ => 0%Q;
     Voice.isGenerator := false;
     Voice.isStereo := false;
     Voice.shouldLoop := false;
     Voice.trueSampleEnd := 2;
     Voice.loopRange_getStart := 0;
     Voice.loopRange_getEnd := 4294967295;
     Voice.canUsePreloadedData := true;
     Voice.preloadedData :=
       Some {| AudioSpan.ab_numFrames := 4;
               AudioSpan.ab_channels := [[10; 20; 30; 40; 99; 99; 99]%Q] |};
     Voice.loopMode := Voice.no_loop;
     Voice.checkSustain := true;
     Voice.offBy := None |}.

(** A voice as it is constructed: idle, without a region, with blocks of at
    most 1024 frames at 44100 Hz. *)
Definition idle_voice : Voice.t :=
  {| Voice.state := Voice.State.idle;
     Voice.region := None;
     Voice.triggerType := Voice.NoteOn;
     Voice.triggerNumber := 0;
     Voice.triggerChannel := 0;
     Voice.triggerValue := 0;
     Voice.speedRatio := 1;
     Voice.pitchRatio := 1;
     Voice.sourcePosition := 0;
     Voice.floatPositionOffset := 0;
     Voice.initialDelay := 0;
     Voice.noteIsOff := false;
     Voice.dataReady := false;
     Voice.fileData := None;
     Voice.ticket := 0;
     Voice.sampleRate := 44100;
     Voice.samplesPerBlock := 1024;
     Voice.egEnvelope := {| Voice.eg_delay := 0; Voice.eg_releaseDelay := None |} |}.

(** The voice started on [short_region] by note 60 at velocity 100. *)
Definition playing_voice : Voice.t :=
  Voice.startVoice no_cc idle_voice short_region 0 1 60 100 Voice.NoteOn.

(** The same voice once released. *)
Definition released_voice : Voice.t := Voice.release playing_voice 0.

(** A block of four frames of silence. *)
Definition silent_block : Voice.Block :=
  {| Voice.left := Voice.fill 4 0%Q; Voice.right := Voice.fill 4 0%Q |}.

(** A mono file of 100000 frames that decodes in full, and a mono file
    whose header announces 1000 frames and whose body cannot be decoded. *)
Definition whole_file : FilePool.DiskFile := FilePool.sound 1 100000 44100 100000.
Definition cut_file : FilePool.DiskFile := FilePool.sound 1 1000 44100 0.

Definition disk : gmap string FilePool.DiskFile :=
  <["whole.wav" := whole_file]> (<["cut.wav" := cut_file]> ∅).

(** A pool with nothing preloaded and a preload size of 8192 frames. *)
Definition empty_pool (f : FilePool.Oversampling) : FilePool.t :=
  {| FilePool.preloadSize := 8192;
     FilePool.oversamplingFactor := f;
     FilePool.preloadedFiles := ∅;
     FilePool.promiseQueue := [];
     FilePool.filledPromiseQueue := [];
     FilePool.temporaryFilePromises := [];
     FilePool.promisesToClean := [];
     FilePool.next_address := 0 |}.

(** The pool oversampling twice, after [preloadFile("whole.wav", 0)]. *)
Definition pool_x2 : FilePool.t :=
  snd (FilePool.preloadFile disk (empty_pool FilePool.x2) "whole.wav" 0).

(** The source [fillWithData] selects for a voice on [short_region]: the
    preloaded head. *)
Definition short_source : AudioSpan.t :=
  {| AudioSpan.spans := [AudioSpan.ptr [10; 20; 30; 40; 99; 99; 99]%Q;
                         AudioSpan.indeterminate];
     AudioSpan.numFrames := 4;
     AudioSpan.numChannels := 1 |}.

(** Four promises: the second is also held by a voice, the others by the
    pool alone. *)
Definition held_by_voices (p : FilePool.FilePromisePtr) : nat :=
  match p with 2%nat => 1%nat | _ => 0%nat end.

Definition pool_with_promises : FilePool.t :=
  {| FilePool.preloadSize := 8192;
     FilePool.oversamplingFactor := FilePool.x1;
     FilePool.preloadedFiles := ∅;
     FilePool.promiseQueue := [];
     FilePool.filledPromiseQueue := [4%nat];
     FilePool.temporaryFilePromises := [1%nat; 2%nat; 3%nat];
     FilePool.promisesToClean := [];
     FilePool.next_address := 0 |}.

(** Three channel pointers, one more than a span of two channels holds. *)
Definition three_pointers : list AudioSpan.pointer :=
  [AudioSpan.ptr [1; 2; 3]%Q; AudioSpan.ptr [4; 5; 6]%Q; AudioSpan.ptr [7; 8; 9]%Q].

(** A buffer of two channels of three frames. *)
Definition stereo_buffer : AudioSpan.AudioBuffer :=
  {| AudioSpan.ab_numFrames := 3;
     AudioSpan.ab_channels := [[1; 2; 3; 99; 99; 99]%Q; [0; 2; 0; 99; 99; 99]%Q] |}.

(** The pool with a preload size of 8192 and no oversampling, after
    [preloadFile("whole.wav", 0)]. *)
Definition pool_x1 : FilePool.t :=
  snd (FilePool.preloadFile disk (empty_pool FilePool.x1) "whole.wav" 0).

(** A promise for ["whole.wav"] made by [getFilePromise] on [pool_x1],
    and one made for a file that has since left the disk. *)
Definition whole_promise : FilePool.FilePromise :=
  snd (fst (FilePool.getFilePromise pool_x1 true "whole.wav")).

Definition gone_promise : FilePool.FilePromise :=
  {| FilePool.promise_filename := Some "gone.wav"%string;
     FilePool.promise_preloadedData := FilePool.promise_preloadedData whole_promise;
     FilePool.promise_fileData := None;
     FilePool.promise_sampleRate := 44100;
     FilePool.promise_dataReady := false;
     FilePool.promise_oversamplingFactor := FilePool.x1 |}.

(** A loading thread about to take the promise at address 1 from the
    pending queue; [which] is what that promise is. *)
Definition loader_with (which : FilePool.FilePromise) : FilePool.Loader :=
  {| FilePool.loader_pool := snd (FilePool.getFilePromise pool_x1 true "whole.wav");
     FilePool.loader_promises := <[1%nat := which]> ∅;
     FilePool.loader_promise := None;
     FilePool.threadsLoading := 0;
     FilePool.emptyQueue := false |}.

(** The promise at address 1 is held by one voice, or by none. *)
Definition one_voice (p : FilePool.FilePromisePtr) : nat :=
  match p with 1%nat => 1%nat | _ => 0%nat end.

Definition no_voice (p : FilePool.FilePromisePtr) : nat := 0%nat.

(** [short_region] played to the end of its file: the sample ends where
    the four frames end. *)
Definition whole_region : Voice.Region :=
  {| Voice.region_sampleRate := 44100;
     Voice.getBasePitchVariation := fun _ _ => 1%Q;
     Voice.getOffset := 0;
     Voice.getDelay := 0;
     Voice.amplitudeEG_getDelay := fun _ _ => 0%Q;
     Voice.isGenerator := false;
     Voice.isStereo := false;
     Voice.shouldLoop := false;
     Voice.trueSampleEnd := 4;
     Voice.loopRange_getStart := 0;
     Voice.loopRange_getEnd := 4294967295;
     Voice.canUsePreloadedData := true;
     Voice.preloadedData := Voice.preloadedData short_region;
     Voice.loopMode := Voice.no_loop;
     Voice.checkSustain := true;
     Voice.offBy := None |}.

(** The voice started on [whole_region] by note 60 at velocity 100, and
    the same voice once released. *)
Definition whole_voice : Voice.t :=
  Voice.startVoice no_cc idle_voice whole_region 0 1 60 100 Voice.NoteOn.


(** A stereo file of four frames played to its end, with the tails of its
    two channels. *)
Definition stereo_region : Voice.Region :=
  {| Voice.region_sampleRate := 44100;
     Voice.getBasePitchVariation := fun _ _ => 1%Q;
     Voice.getOffset := 0;
     Voice.getDelay := 0;
     Voice.amplitudeEG_getDelay := fun _ _ => 0%Q;
     Voice.isGenerator := false;
     Voice.isStereo := true;
     Voice.shouldLoop := false;
     Voice.trueSampleEnd := 4;
     Voice.loopRange_getStart := 0;
     Voice.loopRange_getEnd := 4294967295;
     Voice.canUsePreloadedData := true;
     Voice.preloadedData :=
       Some {| AudioSpan.ab_numFrames := 4;
               AudioSpan.ab_channels := [[10; 20; 30; 40; 99; 99; 99]%Q;
                                         [1; 2; 3; 4; 77; 77; 77]%Q] |};
     Voice.loopMode := Voice.no_loop;
     Voice.checkSustain := true;
     Voice.offBy := None |}.

Definition stereo_voice_released : Voice.t :=
  Voice.release
    (Voice.startVoice no_cc idle_voice stereo_region 0 1 60 100 Voice.NoteOn) 0.

(** Every string that was passed to [preloadFile] is alive and unchanged. *)
Definition all_intact : string -> bool := fun _ => true.

(** [short_region] looping over its frames 0 to 2. *)
Definition looping_region : Voice.Region :=
  {| Voice.region_sampleRate := 44100;
     Voice.getBasePitchVariation := fun _ _ => 1%Q;
     Voice.getOffset := 0;
     Voice.getDelay := 0;
     Voice.amplitudeEG_getDelay := fun _ _ => 0%Q;
     Voice.isGenerator := false;
     Voice.isStereo := false;
     Voice.shouldLoop := true;
     Voice.trueSampleEnd := 3;
     Voice.loopRange_getStart := 0;
     Voice.loopRange_getEnd := 3;
     Voice.canUsePreloadedData := true;
     Voice.preloadedData :=
       Some {| AudioSpan.ab_numFrames := 4;
               AudioSpan.ab_channels := [[10; 20; 30; 40; 99; 99; 99]%Q] |};
     Voice.loopMode := Voice.loop_continuous;
     Voice.checkSustain := true;
     Voice.offBy := None |}.

(** The voice started on [looping_region] by note 60 at velocity 100. *)
Definition looping_voice : Voice.t :=
  Voice.startVoice no_cc idle_voice looping_region 0 1 60 100 Voice.NoteOn.

(** The sustain pedal held down. *)
Definition pedal_down : Z -> Z := fun number => if number =? 64 then 127 else 0.

(** A region streamed from disk: its preloaded data is not enough. *)
Definition streamed_region : Voice.Region :=
  {| Voice.region_sampleRate := 44100;
     Voice.getBasePitchVariation := fun _ _ => 1%Q;
     Voice.getOffset := 0;
     Voice.getDelay := 0;
     Voice.amplitudeEG_getDelay := fun _ _ => 0%Q;
     Voice.isGenerator := false;
     Voice.isStereo := false;
     Voice.shouldLoop := false;
     Voice.trueSampleEnd := 6;
     Voice.loopRange_getStart := 0;
     Voice.loopRange_getEnd := 4294967295;
     Voice.canUsePreloadedData := false;
     Voice.preloadedData :=
       Some {| AudioSpan.ab_numFrames := 4;
               AudioSpan.ab_channels := [[10; 20; 30; 40; 99; 99; 99]%Q] |};
     Voice.loopMode := Voice.no_loop;
     Voice.checkSustain := true;
     Voice.offBy := None |}.

(** The six frames of the file of [streamed_region]. *)
Definition streamed_file : AudioSpan.AudioBuffer :=
  {| AudioSpan.ab_numFrames := 6;
     AudioSpan.ab_channels := [[10; 20; 30; 40; 50; 60; 99; 99; 99]%Q] |}.

End Inputs.

(** * Properties *)

(** ** Buffer *)

Section BufferFacts.

Import Buffer Inputs.

Lemma four_floats_not_empty : empty four_floats = false /\ data four_floats = 4096.
Proof. split; reflexivity. Qed.

(** C3.  [Buffer<float, 16>::resize(5)] succeeds and leaves [alignedEnd()]
    twenty elements after [data()], where rounding 5 up to a multiple of
    the 4 vector lanes gives 8: the code adds [Alignment] (a byte count) to
    an element pointer where the number of lanes is meant. *)
Theorem resize_float_5_alignedEnd :
  let b := snd (resize 16 4 empty_buffer 5 4096) in
  fst (resize 16 4 empty_buffer 5 4096) = true
  /\ data b = 4096
  /\ aligned_length 4 b = 20
  /\ rounded_up_length 16 4 5 = 8.
Proof. repeat split; vm_compute; reflexivity. Qed.

(** The part of C3 that the code does meet: after a successful
    [resize(N)], [alignedEnd() >= end() >= data()] and the byte distance
    from [data()] to [alignedEnd()] is a multiple of the alignment. *)
Lemma resize_alignedEnd_aligned (Alignment sizeofT : Z) (b : Buffer.t) (N newData : Z) :
  static_asserts Alignment sizeofT ->
  Alignment <> 0 ->
  0 < N ->
  newData <> 0 ->
  let b' := snd (resize Alignment sizeofT b N newData) in
  fst (resize Alignment sizeofT b N newData) = true
  /\ data b' <= end_ b' <= alignedEnd b'
  /\ (alignedEnd b' - data b') mod Alignment = 0.
Proof.
  intros (HA & Hs & HT) HA0 HN Hd. unfold resize.
  destruct (N =? 0) eqn:E0; [apply Z.eqb_eq in E0; lia|].
  destruct (newData =? 0) eqn:E1; [apply Z.eqb_eq in E1; lia|].
  cbn [fst snd data end_ alignedEnd normalData normalEnd _alignedEnd].
  set (d := std_align _ _ _ _). clearbody d.
  unfold TypeAlignmentMask, ptr_add.
  assert (Hle : sizeofT <= 16).
  { unfold TypeAlignment in HT.
    destruct (Z_lt_le_dec 16 sizeofT) as [Hgt|]; [|assumption].
    rewrite Z.div_small in HT by lia. lia. }
  assert (Hk : exists k, 0 <= k /\ TypeAlignment Alignment sizeofT = 2 ^ k
                         /\ 2 ^ k * sizeofT = Alignment).
  { assert (Hc : sizeofT = 1 \/ sizeofT = 2 \/ sizeofT = 3 \/ sizeofT = 4
                 \/ sizeofT = 5 \/ sizeofT = 6 \/ sizeofT = 7 \/ sizeofT = 8
                 \/ sizeofT = 9 \/ sizeofT = 10 \/ sizeofT = 11 \/ sizeofT = 12
                 \/ sizeofT = 13 \/ sizeofT = 14 \/ sizeofT = 15 \/ sizeofT = 16) by lia.
    unfold TypeAlignment in *.
    destruct HA as [HA|[HA|[HA|HA]]]; [contradiction| | |]; subst Alignment;
      repeat (destruct Hc as [Hc|Hc]; [subst sizeofT; vm_compute in HT; try discriminate HT|]);
      try (subst sizeofT; vm_compute in HT; try discriminate HT).
    all: first [ exists 0; split; [lia|split; reflexivity]
               | exists 1; split; [lia|split; reflexivity]
               | exists 2; split; [lia|split; reflexivity]
               | exists 3; split; [lia|split; reflexivity]
               | exists 4; split; [lia|split; reflexivity] ]. }
  destruct Hk as (k & Hk0 & Hk & HkA). rewrite Hk.
  assert (Hk4 : k <= 4).
  { destruct (Z_lt_le_dec 4 k) as [Hgt|]; [|assumption].
    assert (2 ^ 5 <= 2 ^ k) by (apply Z.pow_le_mono_r; lia).
    assert (Alignment <= 16) by lia. nia. }
  assert (Hmask : Machine.to_size_t (2 ^ k - 1) = Z.ones k).
  { unfold Machine.to_size_t. rewrite Z.ones_equiv, Z.mod_small; [lia|].
    assert (0 < 2 ^ k) by (apply Z.pow_pos_nonneg; lia).
    assert (2 ^ k <= 2 ^ 4) by (apply Z.pow_le_mono_r; lia).
    change (2 ^ 64) with 18446744073709551616. change (2 ^ 4) with 16 in *. lia. }
  rewrite Hmask, Z.land_ones by assumption.
  assert (Hpow : 0 < 2 ^ k) by (apply Z.pow_pos_nonneg; lia).
  pose proof (Z.mod_pos_bound N (2 ^ k) Hpow) as Hm.
  pose proof (Z.div_mod N (2 ^ k) ltac:(lia)) as Hdiv.
  set (m := N mod 2 ^ k) in *. set (q := N / 2 ^ k) in *.
  assert (HmA : m < Alignment) by nia.
  split; [reflexivity|].
  destruct (m =? 0) eqn:Em; cbn [negb].
  - apply Z.eqb_eq in Em. split; [nia|].
    replace (d + N * sizeofT - d) with (q * Alignment) by nia.
    apply Z.mod_mul. assumption.
  - apply Z.eqb_neq in Em. split; [nia|].
    replace (d + N * sizeofT + Alignment * sizeofT + - m * sizeofT - d)
      with ((q + sizeofT) * Alignment) by nia.
    apply Z.mod_mul. assumption.
Qed.

(** C4, as stated, fails: a [resize(8)] whose allocation fails on a buffer
    of four elements answers [false] and the buffer is not cleared. *)
Lemma resize_failure_not_cleared :
  empty four_floats = false
  /\ fst (resize 16 4 four_floats 8 0) = false
  /\ ~ (size (snd (resize 16 4 four_floats 8 0)) = 0
        /\ data (snd (resize 16 4 four_floats 8 0)) = 0).
Proof.
  split; [reflexivity|]. split; [reflexivity|].
  intros [H _]. vm_compute in H. discriminate H.
Qed.

(** C4 (amended).  When the allocation inside [resize(N)] fails, for
    [N > 0], [resize] answers [false] and leaves the buffer as it was,
    whether it was empty or not. *)
Theorem resize_failure_leaves_buffer (Alignment sizeofT : Z) (b : Buffer.t) (N : Z) :
  0 < N -> resize Alignment sizeofT b N 0 = (false, b).
Proof.
  intros HN. unfold resize.
  destruct (N =? 0) eqn:E; [apply Z.eqb_eq in E; lia|].
  reflexivity.
Qed.

Lemma resize_failure_leaves_buffer_witness :
  0 < 8 /\ resize 16 4 four_floats 8 0 = (false, four_floats).
Proof.
  split; [lia|]. apply (resize_failure_leaves_buffer 16 4 four_floats 8). lia.
Defined.

End BufferFacts.

(** ** AudioSpan *)

Section AudioSpanFacts.

Import AudioSpan.

Lemma from_spans_numFrames (MaxChannels : nat) (l : list Span) :
  getNumFrames (from_spans MaxChannels l) = 0.
Proof. reflexivity. Qed.

(** C1.  Built from one span of three samples and one of five, the span
    has a frame count of 0, while the constructor's local [size] ends at
    the minimum, 3: the constructor computes the minimum and never stores
    it in [numFrames]. *)
Theorem from_spans_drops_the_minimum :
  let l := [ {| span_data := ptr [1; 2; 3]%Q; span_size := 3 |};
             {| span_data := ptr [1; 2; 3; 4; 5]%Q; span_size := 5 |} ] in
  getNumFrames (from_spans 2 l) = 0
  /\ getNumChannels (from_spans 2 l) = 2
  /\ from_spans_size 2 l = 3.
Proof. repeat split; vm_compute; reflexivity. Qed.

End AudioSpanFacts.

Section AudioSpanAccessFacts.

Import AudioSpan Inputs.

Lemma meanSquared_loop_defined (msq : Span -> Q) (s : AudioSpan.t) :
  forall (n : nat) (from : Z) (result : Q),
    0 <= from ->
    from + Z.of_nat n <= numChannels s ->
    (Z.to_nat from + n <= length (spans s))%nat ->
    meanSquared_loop msq s (seqZ from (Z.of_nat n)) result
    = Some (fold_left Qplus
              (map (fun p => msq {| span_data := p; span_size := numFrames s |})
                   (take n (drop (Z.to_nat from) (spans s))))
              result).
Proof.
  induction n as [|n IH]; intros from result Hfrom Hn Hlen.
  - reflexivity.
  - rewrite Nat2Z.inj_succ, seqZ_cons by lia.
    replace (Z.pred (Z.succ (Z.of_nat n))) with (Z.of_nat n) by lia.
    cbn [meanSquared_loop]. unfold getConstSpan, array_at.
    destruct (from <? numChannels s) eqn:E1; [|apply Z.ltb_ge in E1; lia].
    destruct (from <? 0) eqn:E2; [apply Z.ltb_lt in E2; lia|].
    destruct (spans s !! Z.to_nat from) as [p|] eqn:E3;
      [|apply lookup_ge_None in E3; lia].
    cbn [mbind option_bind].
    rewrite IH by lia.
    rewrite (drop_S _ p _ E3). cbn [take map fold_left].
    replace (Z.to_nat (Z.succ from)) with (S (Z.to_nat from)) by lia.
    reflexivity.
Qed.

(** C10.  [meanSquared()] answers 0 on a span without channels, and on a
    span with at least one channel (and no more than the array holds) the
    sum of the mean squares of its channels divided by their number: a
    number in both cases, the division by the channel count being reached
    only when that count is not 0. *)
Theorem meanSquared_guarded (msq : Span -> Q) (MaxChannels : nat) (s : AudioSpan.t) :
  (numChannels s = 0 -> meanSquared msq s = Some 0%Q)
  /\ (well_formed MaxChannels s -> 1 <= numChannels s ->
      meanSquared msq s
      = Some (fold_left Qplus
                (map (fun p => msq {| span_data := p; span_size := numFrames s |})
                     (take (Z.to_nat (numChannels s)) (spans s)))
                0
              / inject_Z (numChannels s))%Q).
Proof.
  split.
  - intros H0. unfold meanSquared. rewrite H0. reflexivity.
  - intros [Hlen [Hlo Hhi]] H1. unfold meanSquared.
    destruct (numChannels s =? 0) eqn:E; [apply Z.eqb_eq in E; lia|].
    pose proof (meanSquared_loop_defined msq s (Z.to_nat (numChannels s)) 0 0%Q) as L.
    rewrite Z2Nat.id in L by lia.
    rewrite L by (simpl; lia).
    cbn [mbind option_bind]. unfold divide. rewrite E.
    rewrite drop_0. reflexivity.
Qed.

Lemma meanSquared_guarded_witness :
  (well_formed 2 stereo_span /\ 1 <= numChannels stereo_span)
  /\ meanSquared mean_of_squares stereo_span
     = Some (fold_left Qplus
               (map (fun p => mean_of_squares
                                {| span_data := p; span_size := numFrames stereo_span |})
                    (take (Z.to_nat (numChannels stereo_span)) (spans stereo_span)))
               0
             / inject_Z (numChannels stereo_span))%Q.
Proof.
  assert (W : well_formed 2 stereo_span) by (vm_compute; repeat split; congruence).
  assert (N : 1 <= numChannels stereo_span) by (vm_compute; congruence).
  split; [split; assumption|].
  apply (proj2 (meanSquared_guarded mean_of_squares 2 stereo_span) W N).
Defined.

End AudioSpanAccessFacts.

(** ** Invalid arguments *)

Section InvalidArguments.

Import AudioSpan Voice Inputs.

Lemma getChannel_out_of_range (s : AudioSpan.t) (channelIndex : Z) :
  numChannels s <= channelIndex -> getChannel s channelIndex = Some nullptr.
Proof.
  intros H. unfold getChannel.
  destruct (channelIndex <? numChannels s) eqn:E; [apply Z.ltb_lt in E; lia|].
  reflexivity.
Qed.

(** C9.  [startVoice] with a negative delay does what it does with a delay
    of 0, the initial delay being the one of the region alone; and
    [getChannel], [getSpan] and [getConstSpan] with a channel index that is
    not below the channel count answer a null pointer and empty spans,
    without reading the channel array.  All four are total functions: no
    failure is raised. *)
Theorem invalid_arguments_absorbed (cc : Z -> Z) (v : Voice.t) (r : Region)
    (delay channel number value : Z) (k : TriggerType)
    (s : AudioSpan.t) (channelIndex : Z) :
  delay < 0 ->
  numChannels s <= channelIndex ->
  startVoice cc v r delay channel number value k
  = startVoice cc v r 0 channel number value k
  /\ initialDelay (startVoice cc v r delay channel number value k)
     = Machine.to_uint32 (truncate (getDelay r * sampleRate v))
  /\ getChannel s channelIndex = Some nullptr
  /\ getSpan s channelIndex = Some empty_span
  /\ getConstSpan s channelIndex = Some empty_span.
Proof.
  intros Hd Hc.
  assert (E : (channelIndex <? numChannels s) = false) by (apply Z.ltb_ge; lia).
  assert (D : (delay <? 0) = true) by (apply Z.ltb_lt; lia).
  repeat split.
  - unfold startVoice. rewrite D. reflexivity.
  - unfold startVoice. rewrite D. cbn [initialDelay]. lia.
  - apply getChannel_out_of_range, Hc.
  - unfold getSpan. rewrite E. reflexivity.
  - unfold getConstSpan. rewrite E. reflexivity.
Qed.

Lemma invalid_arguments_absorbed_witness :
  (-5 < 0 /\ numChannels stereo_span <= 2)
  /\ startVoice no_cc idle_voice short_region (-5) 1 60 100 NoteOn = playing_voice
  /\ getChannel stereo_span 2 = Some nullptr.
Proof.
  assert (Hd : -5 < 0) by lia.
  assert (Hc : numChannels stereo_span <= 2) by (vm_compute; congruence).
  pose proof (invalid_arguments_absorbed no_cc idle_voice short_region (-5) 1 60 100
                NoteOn stereo_span 2 Hd Hc) as [H1 [_ [H3 _]]].
  split; [split; assumption|]. split; [exact H1 | exact H3].
Defined.

End InvalidArguments.

(** ** FilePool: preloading *)

Section PreloadFacts.

Import FilePool Inputs.

(** C5, as stated, fails: the body of ["cut.wav"] does not decode ([readf]
    delivers fewer frames than [preloadFile] asks for) and [preloadFile]
    answers [true]. *)
Lemma preloadFile_true_when_decoding_fails :
  disk !! "cut.wav" = Some cut_file
  /\ readf (SndfileHandle_open cut_file)
       (framesToLoad (empty_pool x1) (SndfileHandle_open cut_file) 0)
     < framesToLoad (empty_pool x1) (SndfileHandle_open cut_file) 0
  /\ fst (preloadFile disk (empty_pool x1) "cut.wav" 0) = true.
Proof. repeat split; vm_compute; reflexivity. Qed.

(** C5 (amended).  [preloadFile] answers [false] if and only if the file
    is missing or the decoder reports a channel count other than 1 and 2
    (as it does, with 0, for a file it cannot open); in every other case,
    also when the frames fail to decode, it answers [true]. *)
Theorem preloadFile_false_iff (disk : gmap string DiskFile) (pool : FilePool.t)
    (filename : string) (maxOffset : Z) :
  fst (preloadFile disk pool filename maxOffset) = false
  <-> (disk !! filename = None
       \/ exists file, disk !! filename = Some file
            /\ sf_channels (SndfileHandle_open file) <> 1
            /\ sf_channels (SndfileHandle_open file) <> 2).
Proof.
  unfold preloadFile.
  destruct (disk !! filename) as [file|] eqn:Hfile; [|split; auto].
  set (h := SndfileHandle_open file).
  destruct (negb (sf_channels h =? 1) && negb (sf_channels h =? 2)) eqn:E.
  - split; [intros _; right; exists file|reflexivity].
    apply andb_true_iff in E as [E1 E2].
    apply negb_true_iff, Z.eqb_neq in E1. apply negb_true_iff, Z.eqb_neq in E2.
    fold h. auto.
  - assert (T : forall x : bool * FilePool.t, fst x = true ->
                  fst x = false <->
                  (Some file = None
                   \/ exists file0, Some file = Some file0
                        /\ sf_channels (SndfileHandle_open file0) <> 1
                        /\ sf_channels (SndfileHandle_open file0) <> 2)).
    { intros x Hx. rewrite Hx. split; [discriminate|].
      intros [Hn | (f & Hf & H1 & H2)]; [discriminate|].
      injection Hf as <-. fold h in H1, H2.
      apply andb_false_iff in E as [E | E];
        apply negb_false_iff, Z.eqb_eq in E; contradiction. }
    apply T.
    destruct (preloadedFiles pool !! filename) as [res|];
      [destruct (framesToLoad pool h maxOffset >? getNumFrames (preloadedData res))|];
      reflexivity.
Qed.

(** A file the decoder cannot open is refused through the channel count. *)
Lemma preloadFile_unopenable (disk : gmap string DiskFile) (pool : FilePool.t)
    (filename : string) (maxOffset : Z) :
  disk !! filename = Some unopenable ->
  preloadFile disk pool filename maxOffset = (false, pool).
Proof. intros H. unfold preloadFile. rewrite H. reflexivity. Qed.

(** When the head is resident, it is replaced exactly when [framesToLoad]
    exceeds the frame count of the resident buffer. *)
Lemma preloadFile_resident (disk : gmap string DiskFile) (pool : FilePool.t)
    (filename : string) (maxOffset : Z) (file : DiskFile) (resident : PreloadedFileHandle) :
  disk !! filename = Some file ->
  fst (preloadFile disk pool filename maxOffset) = true ->
  preloadedFiles pool !! filename = Some resident ->
  let pool' := snd (preloadFile disk pool filename maxOffset) in
  if framesToLoad pool (SndfileHandle_open file) maxOffset
     >? getNumFrames (preloadedData resident)
  then head_address pool' filename = Some (next_address pool)
  else pool' = pool.
Proof.
  intros Hfile Hok Hres. unfold preloadFile in *. rewrite Hfile, Hres in *.
  destruct (negb (sf_channels (SndfileHandle_open file) =? 1)
            && negb (sf_channels (SndfileHandle_open file) =? 2));
    [discriminate Hok|].
  destruct (framesToLoad pool (SndfileHandle_open file) maxOffset
            >? getNumFrames (preloadedData resident)); cbn.
  - unfold head_address. cbn. rewrite lookup_insert_eq. reflexivity.
  - reflexivity.
Qed.

Lemma framesToLoad_nonneg (pool : FilePool.t) (h : SndfileHandle) (maxOffset : Z) :
  0 <= framesToLoad pool h maxOffset.
Proof.
  unfold framesToLoad, Machine.to_uint32.
  pose proof (Z.mod_pos_bound (sf_frames h) (2 ^ 32) ltac:(lia)).
  pose proof (Z.mod_pos_bound (maxOffset + preloadSize pool) (2 ^ 32) ltac:(lia)).
  destruct (preloadSize pool =? 0); lia.
Qed.

Lemma upsampled_frames_ge (f : Oversampling) (n : Z) :
  0 <= n -> n <= upsampled_frames f n.
Proof. intros H. unfold upsampled_frames. destruct f; cbn [factor]; lia. Qed.

(** Preloading a second time with the same arguments, the disk and the
    configuration of the pool being the same, changes nothing: the stored
    head and its address stay. *)
Lemma preloadFile_twice (disk : gmap string DiskFile) (pool : FilePool.t)
    (filename : string) (maxOffset : Z) :
  preloadFile disk (snd (preloadFile disk pool filename maxOffset)) filename maxOffset
  = (fst (preloadFile disk pool filename maxOffset),
     snd (preloadFile disk pool filename maxOffset)).
Proof.
  unfold preloadFile.
  destruct (disk !! filename) as [file|] eqn:Hfile; [|reflexivity].
  set (h := SndfileHandle_open file).
  destruct (negb (sf_channels h =? 1) && negb (sf_channels h =? 2)) eqn:E;
    [reflexivity|].
  pose proof (framesToLoad_nonneg pool h maxOffset) as Hn.
  pose proof (upsampled_frames_ge (oversamplingFactor pool) _ Hn) as Hu.
  destruct (preloadedFiles pool !! filename) as [res|] eqn:Hres.
  - destruct (framesToLoad pool h maxOffset >? getNumFrames (preloadedData res)) eqn:G.
    + cbn [readFromFile snd fst with_preloadedFiles with_next_address preloadedFiles].
      rewrite lookup_insert_eq.
      cbn [preloadedData getNumFrames].
      replace (framesToLoad _ h maxOffset) with (framesToLoad pool h maxOffset) by reflexivity.
      destruct (framesToLoad pool h maxOffset
                >? upsampled_frames (oversamplingFactor pool) (framesToLoad pool h maxOffset)) eqn:G';
        [apply Z.gtb_lt in G'; lia|].
      reflexivity.
    + cbn [snd fst]. rewrite Hres, G. reflexivity.
  - cbn [readFromFile snd fst with_preloadedFiles with_next_address preloadedFiles].
    rewrite lookup_insert_eq.
    cbn [preloadedData getNumFrames].
    replace (framesToLoad _ h maxOffset) with (framesToLoad pool h maxOffset) by reflexivity.
    destruct (framesToLoad pool h maxOffset
              >? upsampled_frames (oversamplingFactor pool) (framesToLoad pool h maxOffset)) eqn:G';
      [apply Z.gtb_lt in G'; lia|].
    reflexivity.
Qed.

(** C6.  With an oversampling factor of 2 and a preload size of 8192,
    [preloadFile("whole.wav", 0)] leaves a head of 16384 frames that covers
    the first 8192 frames of the file.  [preloadFile("whole.wav", 1000)]
    then asks for the first 9192 frames of the file, more than are
    resident, and answers [true] without reloading: the head keeps its
    address.  The comparison sets a count of file frames against the
    oversampled frame count of the buffer, which [setPreloadSize] and
    [setOversamplingFactor] divide by the factor first. *)
Theorem preloadFile_x2_larger_prefix_not_reloaded :
  (exists resident,
      preloadedFiles pool_x2 !! "whole.wav" = Some resident
      /\ getNumFrames (preloadedData resident) = 16384
      /\ resident_file_frames pool_x2 resident = 8192)
  /\ framesToLoad pool_x2 (SndfileHandle_open whole_file) 1000 = 9192
  /\ fst (preloadFile disk pool_x2 "whole.wav" 1000) = true
  /\ head_address (snd (preloadFile disk pool_x2 "whole.wav" 1000)) "whole.wav"
     = head_address pool_x2 "whole.wav".
Proof.
  split; [|repeat split; vm_compute; reflexivity].
  eexists. split; [vm_compute; reflexivity|]. split; vm_compute; reflexivity.
Qed.

(** At a factor of 1 the same two calls do reload. *)
Lemma preloadFile_x1_larger_prefix_reloaded :
  let pool := snd (preloadFile disk (empty_pool x1) "whole.wav" 0) in
  head_address pool "whole.wav" = Some 0%nat
  /\ head_address (snd (preloadFile disk pool "whole.wav" 1000)) "whole.wav" = Some 1%nat.
Proof. split; vm_compute; reflexivity. Qed.

End PreloadFacts.

(** ** Voice: the states *)

Section VoiceStates.

Import Voice Inputs.

Lemma release_transition (v : Voice.t) (delay : Z) :
  state (release v delay) = state v
  \/ (state v = State.playing /\ state (release v delay) = State.release).
Proof.
  unfold release. destruct (state v) eqn:E; cbn [is_playing]; auto.
Qed.

Lemma fillWithData_transition (v v' : Voice.t) (buffer out : Block) :
  fillWithData v buffer = Some (v', out) ->
  state v' = state v \/ (state v = State.playing /\ state v' = State.release).
Proof.
  unfold fillWithData. intros H.
  destruct (block_frames buffer =? 0)%nat; [injection H as <- _; auto|].
  destruct (region v) as [r|]; [|discriminate H]. cbn [mbind option_bind] in H.
  destruct (source v r) as [src|]; [|discriminate H]. cbn [mbind option_bind] in H.
  destruct (samplesPerBlock v <? Z.of_nat (block_frames buffer)); [discriminate H|].
  destruct (adjusted_positions v r src (block_frames buffer)) as [[indices leftCoeffs] rightCoeffs].
  destruct (write_block src buffer indices leftCoeffs rightCoeffs) as [written|];
    [|discriminate H].
  cbn [mbind option_bind] in H. unfold finish in H.
  match type of H with
  | Some (if ?c then _ else _) = _ => destruct c
  end; injection H as <- _.
  - apply (release_transition (with_position _ _ v)).
  - auto.
Qed.

Lemma perform_transition (v v' : Voice.t) (o : operation) :
  perform v o = Some v' -> transition o (state v) (state v').
Proof.
  destruct o; cbn [perform transition]; intros H.
  - injection H as <-. reflexivity.
  - injection H as <-. apply release_transition.
  - injection H as <-. unfold registerNoteOff.
    destruct (region v) as [r|]; auto.
    destruct (negb (is_playing (state v))); auto.
    destruct ((triggerChannel v =? channel) && (triggerNumber v =? noteNumber)); auto.
    destruct (is_one_shot (loopMode r)); auto.
    destruct (negb (checkSustain r) || (cc sustainCC <? halfCCThreshold)); auto.
    apply (release_transition (with_noteIsOff true v)).
  - injection H as <-. unfold registerCC.
    destruct (region v) as [r|]; auto.
    match goal with |- context [if ?c then _ else _] => destruct c end; auto.
    apply release_transition.
  - injection H as <-. unfold checkOffGroup.
    destruct (region v) as [r|]; auto.
    destruct (is_NoteOn (triggerType v)); auto.
    destruct (offBy r) as [g|]; auto.
    destruct (g =? group); auto.
    apply release_transition.
  - unfold renderBlock in H.
    destruct (region v) as [r|] eqn:Hr; [|injection H as <-; auto].
    destruct (state v) eqn:Hs; cbn [is_idle] in H; [injection H as <-; auto| |].
    all: match type of H with
         | context [with_initialDelay ?d ?w] => set (v1 := with_initialDelay d w) in H
         end.
    all: assert (Hs1 : state v1 = state v) by reflexivity.
    all: destruct (isGenerator r).
    all: cbn [mbind option_bind fmap option_fmap option_map] in H.
    all: try (destruct (fillWithData v1 _) as [[v2 out]|] eqn:F; [|discriminate H];
              apply fillWithData_transition in F).
    all: cbn [fst mbind option_bind fmap option_fmap option_map] in H.
    all: match type of H with
         | (if ?c then _ else _) = _ => destruct c; [discriminate H|]
         end.
    all: destruct egSmoothing; cbn [negb] in H; injection H as <-;
      unfold fillWithGenerator; cbn [reset state]; rewrite ?Hs1, ?Hs in *.
    all: try (right; right; split; [discriminate|reflexivity]).
    all: try (left; reflexivity).
    all: destruct F as [F | [F1 F2]]; try discriminate F1; auto.
  - injection H as <-. reflexivity.
Qed.

Lemma transition_not_idle_to_release (o : operation) (s s' : State.t) :
  transition o s s' -> ~ (s = State.idle /\ s' = State.release).
Proof.
  intros T [-> ->]. destruct o; cbn [transition] in T;
    repeat match goal with
           | H : _ \/ _ |- _ => destruct H
           | H : _ /\ _ |- _ => destruct H
           end; congruence.
Qed.

(** C8, as stated, fails: a voice that is releasing and is started again
    goes from release to playing, which is none of the listed
    transitions. *)
Lemma startVoice_leaves_release :
  run idle_voice
    [ do_startVoice no_cc short_region 0 1 60 100 NoteOn;
      do_release 0;
      do_startVoice no_cc short_region 0 1 60 100 NoteOn ]
  = Some [State.playing; State.release; State.playing]
  /\ ~ listed_transition State.release State.playing.
Proof.
  split; [reflexivity|].
  unfold listed_transition. intros [[H _]|[[H _]|[[_ H]|[H _]]]]; discriminate H.
Qed.

(** C8 (amended).  Under any sequence of [startVoice], [release],
    [registerNoteOff], [registerCC], [checkOffGroup], [renderBlock] and
    [reset], the state changes only as follows: [startVoice] takes any
    state (idle, and also playing or release) to playing; [release],
    directly or inside one of the other operations, takes playing to
    release and nothing else; [reset], directly or at the end of
    [renderBlock], takes any state to idle.  In particular the state never
    goes from idle to release.  This holds of the states reached by every
    sequence, up to the first operation, if there is one, that reads
    outside a block or ends the program; and so of all the states of a
    sequence that runs to its end. *)
Theorem run_follows (v : Voice.t) (ops : list operation) :
  (follows (state v) (take (length (reached v ops)) ops) (reached v ops)
   /\ never_idle_to_release (state v) (reached v ops))
  /\ forall states : list State.t,
       run v ops = Some states ->
       reached v ops = states
       /\ follows (state v) ops states
       /\ never_idle_to_release (state v) states.
Proof.
  assert (Prefix : forall (ops : list operation) (v : Voice.t),
             follows (state v) (take (length (reached v ops)) ops) (reached v ops)
             /\ never_idle_to_release (state v) (reached v ops)).
  { clear v ops. induction ops as [|o ops IH]; intros v; cbn [reached].
    - split; exact I.
    - destruct (perform v o) as [v'|] eqn:P; [|split; exact I].
      apply perform_transition in P. destruct (IH v') as [F N].
      cbn [length take follows never_idle_to_release].
      repeat split; try assumption.
      apply (transition_not_idle_to_release o), P. }
  assert (Whole : forall (ops : list operation) (v : Voice.t) (states : list State.t),
             run v ops = Some states -> reached v ops = states).
  { clear v ops. induction ops as [|o ops IH]; intros v states H; cbn [run reached] in *.
    - injection H as <-. reflexivity.
    - destruct (perform v o) as [v'|] eqn:P; [|discriminate H].
      cbn [mbind option_bind] in H.
      destruct (run v' ops) as [states'|] eqn:R; [|discriminate H].
      cbn [mbind option_bind] in H. injection H as <-.
      rewrite (IH v' states' R). reflexivity. }
  split; [apply Prefix|].
  intros states H. pose proof (Whole ops v states H) as E.
  split; [exact E|].
  assert (L : length states = length ops).
  { clear E. revert v states H. induction ops as [|o ops' IH]; intros v states H;
      cbn [run] in H.
    - injection H as <-. reflexivity.
    - destruct (perform v o) as [v'|]; [|discriminate H].
      cbn [mbind option_bind] in H.
      destruct (run v' ops') as [states'|] eqn:R; [|discriminate H].
      cbn [mbind option_bind] in H. injection H as <-.
      cbn [length]. rewrite (IH v' states' R). reflexivity. }
  destruct (Prefix ops v) as [F N]. rewrite E in F, N.
  rewrite L, firstn_all in F. split; assumption.
Qed.

Lemma run_follows_witness :
  run idle_voice
    [ do_startVoice no_cc whole_region 0 1 60 100 NoteOn;
      do_renderBlock 4 true;
      do_renderBlock 4 false;
      do_release 0 ]
  = Some [State.playing; State.release; State.idle; State.idle]
  /\ never_idle_to_release State.idle
       [State.playing; State.release; State.idle; State.idle].
Proof.
  assert (R : run idle_voice
                [ do_startVoice no_cc whole_region 0 1 60 100 NoteOn;
                  do_renderBlock 4 true;
                  do_renderBlock 4 false;
                  do_release 0 ]
              = Some [State.playing; State.release; State.idle; State.idle])
    by (vm_compute; reflexivity).
  split; [exact R|].
  exact (proj2 (proj2 (proj2 (run_follows idle_voice _) _ R))).
Defined.

End VoiceStates.

(** ** FilePool: the cleanup of promises *)

Section CleanupFacts.

Import FilePool.

Lemma drain_app (queue temporary : list FilePromisePtr) :
  drain queue temporary = temporary ++ queue.
Proof.
  revert temporary. induction queue as [|p queue IH]; intros temporary; cbn [drain].
  - rewrite app_nil_r. reflexivity.
  - rewrite IH, <- app_assoc. reflexivity.
Qed.

(** Swapping the element at [i] with the last one and popping the back
    removes that element, keeps what is before [i] in place and keeps all
    the others. *)
Lemma swap_remove (v : list FilePromisePtr) (i : nat) (p : FilePromisePtr) :
  v !! i = Some p ->
  exists popped,
    iter_swap v i (length v - 1) ≫= pop_back = Some popped
    /\ length popped = (length v - 1)%nat
    /\ take i popped = take i v
    /\ Permutation v (p :: popped).
Proof.
  intros H. apply list_elem_of_split_length in H as (l1 & l2 & -> & ->).
  destruct l2 as [|z l2'] using rev_ind.
  - exists l1. unfold iter_swap.
    rewrite length_app. cbn [length].
    replace (length l1 + 1 - 1)%nat with (length l1) by lia.
    rewrite list_lookup_middle by reflexivity. cbn [mbind option_bind].
    rewrite list_insert_insert_eq.
    rewrite list_insert_id by (apply list_lookup_middle; reflexivity).
    unfold pop_back. destruct (l1 ++ [p]) eqn:E; [destruct l1; discriminate E|].
    rewrite <- E, length_app. cbn [length].
    replace (length l1 + 1 - 1)%nat with (length l1) by lia.
    rewrite !take_app_length. split; [reflexivity|]. split; [reflexivity|]. split.
    + rewrite take_ge by lia. reflexivity.
    + rewrite Permutation_app_comm. reflexivity.
  - clear IHl2'. exists (l1 ++ z :: l2').
    set (n := (length l1 + S (length l2'))%nat).
    assert (Hlen : (length (l1 ++ p :: l2' ++ [z]) - 1)%nat = n).
    { rewrite length_app. cbn [length]. rewrite length_app. cbn [length]. lia. }
    rewrite Hlen. unfold iter_swap.
    rewrite (list_lookup_middle l1 (l2' ++ [z]) p (length l1) eq_refl).
    cbn [mbind option_bind].
    assert (Hz : (l1 ++ p :: l2' ++ [z]) !! n = Some z).
    { unfold n. rewrite lookup_app_r by lia.
      replace (length l1 + S (length l2') - length l1)%nat with (S (length l2')) by lia.
      cbn. apply list_lookup_middle. reflexivity. }
    rewrite Hz. cbn [mbind option_bind].
    assert (Hs : <[length l1 := z]> (<[n := p]> (l1 ++ p :: l2' ++ [z]))
                 = (l1 ++ z :: l2') ++ [p]).
    { unfold n. clear. induction l1 as [|x l1 IH]; cbn.
      - f_equal. induction l2' as [|y l2' IH]; cbn; [reflexivity|].
        f_equal. exact IH.
      - f_equal. exact IH. }
    rewrite Hs. unfold pop_back.
    destruct ((l1 ++ z :: l2') ++ [p]) eqn:E; [destruct l1; discriminate E|].
    rewrite <- E, length_app. cbn [length].
    replace (length (l1 ++ z :: l2') + 1 - 1)%nat with (length (l1 ++ z :: l2')) by lia.
    rewrite take_app_length. split; [reflexivity|]. split; [|split].
    + rewrite length_app. cbn [length]. unfold n. lia.
    + rewrite !take_app_le by lia. reflexivity.
    + rewrite (Permutation_app_comm l2' [z]). cbn [app].
      rewrite <- !Permutation_middle. rewrite perm_swap. reflexivity.
Qed.

Lemma occurrences_move (v popped toClean : list FilePromisePtr) (p : FilePromisePtr) :
  Permutation v (p :: popped) ->
  forall q,
    (occurrences q popped + occurrences q (toClean ++ [p])
     = occurrences q v + occurrences q toClean)%nat.
Proof.
  intros HP q. unfold occurrences.
  rewrite (Permutation_count_occ Nat.eq_dec) in HP. rewrite (HP q).
  rewrite count_occ_app. cbn [count_occ].
  unfold FilePromisePtr in *. destruct (Nat.eq_dec p q); lia.
Qed.

Lemma use_count_move (elsewhere : FilePromisePtr -> nat) (pool : FilePool.t)
    (popped : list FilePromisePtr) (p : FilePromisePtr) :
  Permutation (temporaryFilePromises pool) (p :: popped) ->
  forall q,
    use_count elsewhere
      (with_temporaryFilePromises popped
         (with_promisesToClean (promisesToClean pool ++ [p]) pool)) q
    = use_count elsewhere pool q.
Proof.
  intros HP q. unfold use_count. cbn.
  pose proof (occurrences_move _ _ (promisesToClean pool) p HP q) as M.
  unfold occurrences, FilePromisePtr in *. lia.
Qed.

(** The invariant of the second loop of [cleanupPromises]: the promises
    before the iterator are held more than once, [sentinel] is the last
    position, and what leaves the vector goes to [promisesToClean]. *)
Lemma sweep_spec (elsewhere : FilePromisePtr -> nat) :
  forall (fuel : nat) (pool : FilePool.t) (it : nat) (sentinel : Z),
    sentinel = Z.of_nat (length (temporaryFilePromises pool)) - 1 ->
    (it <= length (temporaryFilePromises pool))%nat ->
    (length (temporaryFilePromises pool) - it <= fuel)%nat ->
    (forall j p, (j < it)%nat -> temporaryFilePromises pool !! j = Some p ->
                 use_count elsewhere pool p <> 1%nat) ->
    exists pool',
      sweep fuel elsewhere pool it sentinel = Some pool'
      /\ promiseQueue pool' = promiseQueue pool
      /\ filledPromiseQueue pool' = filledPromiseQueue pool
      /\ (forall p, (occurrences p (temporaryFilePromises pool')
                     + occurrences p (promisesToClean pool')
                     = occurrences p (temporaryFilePromises pool)
                       + occurrences p (promisesToClean pool))%nat)
      /\ (forall p, In p (temporaryFilePromises pool') ->
                    use_count elsewhere pool' p <> 1%nat)
      /\ (forall p, use_count elsewhere pool p <> 1%nat ->
                    occurrences p (temporaryFilePromises pool')
                    = occurrences p (temporaryFilePromises pool)).
Proof.
  assert (Exit : forall (pool : FilePool.t) (it : nat),
             it = length (temporaryFilePromises pool) ->
             (forall j p, (j < it)%nat -> temporaryFilePromises pool !! j = Some p ->
                          use_count elsewhere pool p <> 1%nat) ->
             forall p, In p (temporaryFilePromises pool) ->
                       use_count elsewhere pool p <> 1%nat).
  { intros pool it -> Inv p Hin.
    apply list_elem_of_In, list_elem_of_lookup in Hin as [j Hj].
    apply (Inv j p); [|exact Hj]. apply lookup_lt_Some in Hj. exact Hj. }
  induction fuel as [|fuel IH]; intros pool it sentinel Hs Hle Hfuel Inv; cbn [sweep].
  - assert (E : it = length (temporaryFilePromises pool)) by lia.
    rewrite (proj2 (Nat.eqb_eq _ _) E).
    exists pool. repeat split; try reflexivity. apply (Exit pool it E Inv).
  - destruct (it =? length (temporaryFilePromises pool))%nat eqn:E.
    { apply Nat.eqb_eq in E.
      exists pool. repeat split; try reflexivity. apply (Exit pool it E Inv). }
    apply Nat.eqb_neq in E.
    destruct (temporaryFilePromises pool !! it) as [p|] eqn:Hp;
      [|apply lookup_ge_None in Hp; lia].
    cbn [mbind option_bind].
    destruct (use_count elsewhere pool p =? 1)%nat eqn:U.
    + apply Nat.eqb_eq in U.
      destruct (sentinel <? 0) eqn:S0; [apply Z.ltb_lt in S0; lia|].
      destruct (swap_remove _ _ _ Hp) as (popped & Hsw & Hlen & Htake & Hperm).
      replace (Z.to_nat sentinel) with (length (temporaryFilePromises pool) - 1)%nat by lia.
      cbn [with_promisesToClean temporaryFilePromises].
      apply bind_Some in Hsw as (swapped & Hswap & Hpop).
      rewrite Hswap. cbn [mbind option_bind]. rewrite Hpop. cbn [mbind option_bind].
      set (pool2 := with_temporaryFilePromises popped _).
      assert (UC : forall q, use_count elsewhere pool2 q = use_count elsewhere pool q)
        by (apply use_count_move, Hperm).
      destruct (IH pool2 it (sentinel - 1)) as (pool' & R & Q1 & Q2 & Occ & Clean & Keep).
      * cbn. lia.
      * cbn. lia.
      * cbn. lia.
      * intros j q Hj Hq. rewrite UC. apply (Inv j q Hj).
        cbn in Hq.
        rewrite <- (lookup_take_lt _ it j Hj), <- Htake, lookup_take_lt; assumption.
      * exists pool'. split; [exact R|]. split; [exact Q1|]. split; [exact Q2|].
        split; [|split].
        -- intros q. rewrite Occ. cbn.
           apply (occurrences_move _ _ (promisesToClean pool) p Hperm q).
        -- exact Clean.
        -- intros q Hq. rewrite Keep by (rewrite UC; exact Hq). cbn.
           assert (p <> q) by congruence.
           unfold occurrences.
           rewrite (Permutation_count_occ Nat.eq_dec) in Hperm. rewrite (Hperm q).
           rewrite count_occ_cons_neq by assumption. reflexivity.
    + apply Nat.eqb_neq in U.
      destruct (IH pool (S it) sentinel) as (pool' & R & Q); try lia.
      * intros j q Hj Hq. destruct (decide (j = it)) as [->|Hne].
        -- rewrite Hp in Hq. injection Hq as <-. exact U.
        -- apply (Inv j q); [lia|exact Hq].
      * exists pool'. split; [exact R|exact Q].
Qed.

(** C7.  [cleanupPromises] returns, and when it has: the filled queue is
    empty; no promise of [temporaryFilePromises] has a reference count of
    one; every promise that was in the filled queue or in
    [temporaryFilePromises] with a reference count of one is no longer in
    [temporaryFilePromises] and is in [promisesToClean]; every other
    promise is in [temporaryFilePromises] as many times as it was in the
    two together; and no reference count has changed. *)
Theorem cleanupPromises_sweeps (elsewhere : FilePromisePtr -> nat) (pool : FilePool.t) :
  exists pool',
    cleanupPromises elsewhere pool = Some pool'
    /\ filledPromiseQueue pool' = []
    /\ (forall p, use_count elsewhere pool' p = use_count elsewhere pool p)
    /\ (forall p, In p (temporaryFilePromises pool') ->
                  use_count elsewhere pool' p <> 1%nat)
    /\ (forall p, In p (temporaryFilePromises pool ++ filledPromiseQueue pool) ->
                  use_count elsewhere pool p = 1%nat ->
                  ~ In p (temporaryFilePromises pool')
                  /\ In p (promisesToClean pool'))
    /\ (forall p, use_count elsewhere pool p <> 1%nat ->
                  occurrences p (temporaryFilePromises pool')
                  = occurrences p (temporaryFilePromises pool ++ filledPromiseQueue pool)).
Proof.
  unfold cleanupPromises. rewrite drain_app.
  set (pool1 := with_temporaryFilePromises _ _).
  assert (UC1 : forall q, use_count elsewhere pool1 q = use_count elsewhere pool q).
  { intros q. unfold use_count, occurrences. cbn. rewrite count_occ_app.
    unfold FilePromisePtr in *. lia. }
  destruct (sweep_spec elsewhere (length (temporaryFilePromises pool1)) pool1 0
              (Z.of_nat (length (temporaryFilePromises pool1)) - 1))
    as (pool' & R & Q1 & Q2 & Occ & Clean & Keep); try lia.
  assert (UC : forall q, use_count elsewhere pool' q = use_count elsewhere pool q).
  { intros q. rewrite <- UC1. unfold use_count. rewrite Q1, Q2.
    pose proof (Occ q). unfold occurrences, FilePromisePtr in *. lia. }
  exists pool'. split; [exact R|]. split; [rewrite Q2; reflexivity|].
  split; [exact UC|]. split; [exact Clean|]. split.
  - intros p Hin Hone.
    assert (Hnot : ~ In p (temporaryFilePromises pool')).
    { intros Hin'. apply (Clean p Hin'). rewrite UC. exact Hone. }
    split; [exact Hnot|].
    apply (count_occ_In Nat.eq_dec). apply (count_occ_In Nat.eq_dec) in Hin.
    apply (count_occ_not_In Nat.eq_dec) in Hnot.
    pose proof (Occ p) as O. unfold occurrences in O. cbn in O.
    unfold FilePromisePtr in *. lia.
  - intros p Hp. rewrite Keep by (rewrite UC1; exact Hp). reflexivity.
Qed.

Example cleanupPromises_four_promises :
  (fun pool => (temporaryFilePromises pool, promisesToClean pool))
    <$> cleanupPromises Inputs.held_by_voices Inputs.pool_with_promises
  = Some ([2%nat], [1%nat; 4%nat; 3%nat]).
Proof. vm_compute. reflexivity. Qed.

End CleanupFacts.

(** ** Voice: reading past the end of the sample *)

Section FillWithDataFacts.

Import AudioSpan Voice Inputs.






Lemma fill_last_length {A : Type} (span : list A) (remainingElements : nat) (value : A) :
  (remainingElements <= length span)%nat ->
  length (fill_last span remainingElements value) = length span.
Proof.
  intros Hr. unfold fill_last, fill. rewrite length_app, length_take, length_replicate. lia.
Qed.







Lemma first_above_prefix (e : Z) (indices : list Z) :
  match first_above e indices with
  | None => Forall (fun k => k <= e) indices
  | Some position => Forall (fun k => k <= e) (take position indices)
  end.
Proof.
  induction indices as [|y indices IH]; cbn [first_above]; [constructor|].
  destruct (y >? e) eqn:E; [constructor|].
  rewrite Z.gtb_ltb in E. apply Z.ltb_ge in E.
  destruct (first_above e indices) as [position|]; cbn; constructor; assumption.
Qed.

Lemma clamp_indices_bounds (e : Z) (indices : list Z) (leftCoeffs rightCoeffs : list Q) :
  0 <= e ->
  Forall (fun k => 0 <= k) indices ->
  Forall (fun k => 0 <= k <= e) (fst (fst (clamp_indices e indices leftCoeffs rightCoeffs))).
Proof.
  intros He Hpos. unfold clamp_indices.
  pose proof (first_above_prefix e indices) as Hpre.
  destruct (first_above e indices) as [position|]; cbn [fst].
  - unfold fill_last, fill. apply Forall_app. split.
    + apply Forall_take with (n := (length indices - (length indices - position))%nat) in Hpos.
      assert (Hsub : Forall (fun k => k <= e)
                       (take (length indices - (length indices - position)) indices)).
      { destruct (le_lt_dec position (length indices)).
        - replace (length indices - (length indices - position))%nat with position by lia.
          exact Hpre.
        - rewrite take_ge in Hpre by lia.
          apply Forall_take. exact Hpre. }
      revert Hpos Hsub. generalize (take (length indices - (length indices - position)) indices).
      intros l H1 H2. induction H1; inversion H2; subst; constructor; auto; lia.
    + apply Forall_replicate. lia.
  - revert Hpos Hpre. generalize indices.
    intros l H1 H2. induction H1; inversion H2; subst; constructor; auto; lia.
Qed.

Lemma interpolate_defined (cells : list Q) (indices : list Z) (leftCoeffs rightCoeffs : list Q) :
  Forall (fun k => 0 <= k /\ k + 1 < Z.of_nat (length cells)) indices ->
  exists out, interpolate (ptr cells) indices leftCoeffs rightCoeffs = Some out.
Proof.
  intros H. revert leftCoeffs rightCoeffs.
  induction H as [|ind indices [H0 H1] _ IH]; intros leftCoeffs rightCoeffs.
  - exists []. reflexivity.
  - cbn [interpolate].
    destruct leftCoeffs as [|l leftCoeffs]; [exists []; reflexivity|].
    destruct rightCoeffs as [|r rightCoeffs]; [exists []; reflexivity|].
    unfold deref.
    destruct (ind <? 0) eqn:E0; [apply Z.ltb_lt in E0; lia|].
    destruct (ind + 1 <? 0) eqn:E1; [apply Z.ltb_lt in E1; lia|].
    destruct (cells !! Z.to_nat ind) as [a|] eqn:Da;
      [|apply lookup_ge_None in Da; lia].
    destruct (cells !! Z.to_nat (ind + 1)) as [b|] eqn:Db;
      [|apply lookup_ge_None in Db; lia].
    cbn [mbind option_bind].
    destruct (IH leftCoeffs rightCoeffs) as [out ->]. cbn [mbind option_bind].
    eexists. reflexivity.
Qed.

(** On a mono source, [fillWithData] reads inside the source, and so
    returns, when the read indices start at 0 or above and the frame after
    [sampleEnd] exists. *)
Lemma fillWithData_defined (v : Voice.t) (r : Region) (src : AudioSpan.t)
    (cells : list Q) (buffer : Block) :
  region v = Some r ->
  source v r = Some src ->
  loops_within r src = false ->
  getNumChannels src = 1 ->
  getChannel src 0 = Some (ptr cells) ->
  Z.of_nat (block_frames buffer) <= samplesPerBlock v ->
  Forall (fun k => 0 <= k) (fst (fst (read_positions v (block_frames buffer)))) ->
  0 <= sampleEnd r src ->
  sampleEnd r src + 1 < Z.of_nat (length cells) ->
  exists v' out, fillWithData v buffer = Some (v', out).
Proof.
  intros Hr Hsrc Hloop Hmono Hch Hn Hpos He Hnext. unfold fillWithData.
  destruct (block_frames buffer =? 0)%nat; [eauto|].
  rewrite Hr. cbn [mbind option_bind]. rewrite Hsrc. cbn [mbind option_bind].
  destruct (samplesPerBlock v <? Z.of_nat (block_frames buffer)) eqn:E;
    [apply Z.ltb_lt in E; lia|].
  pose proof (clamp_indices_bounds (sampleEnd r src) _
                (snd (fst (read_positions v (block_frames buffer))))
                (snd (read_positions v (block_frames buffer))) He Hpos) as Hb.
  unfold adjusted_positions. rewrite Hloop.
  destruct (read_positions v (block_frames buffer)) as [[i0 l0] r0]. cbn [fst snd] in Hb.
  destruct (clamp_indices (sampleEnd r src) i0 l0 r0) as [[indices leftCoeffs] rightCoeffs].
  cbn [fst] in Hb. unfold write_block. rewrite Hch, Hmono. cbn [mbind option_bind Z.eqb].
  destruct (interpolate_defined cells indices leftCoeffs rightCoeffs) as [out ->].
  { eapply Forall_impl; [exact Hb|]. cbn. intros k Hk. lia. }
  cbn [mbind option_bind Pos.eqb].
  destruct (finish v r src indices rightCoeffs _) as [v' out']. eauto.
Qed.

Example fillWithData_defined_released :
  exists v' out, fillWithData released_voice silent_block = Some (v', out).
Proof.
  apply (fillWithData_defined released_voice short_region short_source
           [10; 20; 30; 40; 99; 99; 99]%Q);
    try reflexivity; try (vm_compute; congruence).
  vm_compute. repeat constructor; congruence.
Qed.





(** The interpolation loops read inside the blocks of the channels, and so
    return, when every index and the one after it is. *)
Lemma write_block_defined (src : AudioSpan.t) (buffer : Block) (indices : list Z)
    (leftCoeffs rightCoeffs : list Q) (leftCells rightCells : list Q) :
  getChannel src 0 = Some (ptr leftCells) ->
  getNumChannels src = 1 \/ getChannel src 1 = Some (ptr rightCells) ->
  Forall (fun k => 0 <= k /\ k + 1 < Z.of_nat (length leftCells)) indices ->
  (getNumChannels src <> 1 ->
   Forall (fun k => 0 <= k /\ k + 1 < Z.of_nat (length rightCells)) indices) ->
  exists written, write_block src buffer indices leftCoeffs rightCoeffs = Some written.
Proof.
  intros Hl Hr Bl Br. unfold write_block. rewrite Hl. cbn [mbind option_bind].
  destruct (interpolate_defined leftCells indices leftCoeffs rightCoeffs Bl) as [l El].
  destruct (getNumChannels src =? 1) eqn:E.
  - rewrite El. cbn [mbind option_bind]. eauto.
  - apply Z.eqb_neq in E. destruct Hr as [Hr|Hr]; [contradiction|].
    rewrite Hr. cbn [mbind option_bind]. rewrite El. cbn [mbind option_bind].
    destruct (interpolate_defined rightCells indices leftCoeffs rightCoeffs (Br E))
      as [r' ->].
    cbn [mbind option_bind]. eauto.
Qed.

(** The element after [sampleEnd] is inside the block of every channel of
    a source whose buffer has its padded tail, whatever the region: it is
    a frame when the sample ends before the file, and the first element of
    the tail when it ends with it. *)
Lemma sampleEnd_inside_tail (r : Region) (b : AudioBuffer) (src : AudioSpan.t) (c : Z) :
  from_buffer config_numChannels b = Some src ->
  has_tail b = true ->
  0 <= ab_numFrames b < 2 ^ 31 ->
  0 <= c < getNumChannels src ->
  exists cells,
    getChannel src c = Some (ptr cells)
    /\ sampleEnd r src + 1 <= getNumFrames src
    /\ getNumFrames src < Z.of_nat (length cells).
Proof.
  unfold from_buffer. intros Hsrc Htail Hn Hc.
  destruct (length (ab_channels b) <=? config_numChannels)%nat; [|discriminate Hsrc].
  injection Hsrc as <-. cbn [getNumChannels numChannels] in Hc.
  unfold getChannel, array_at, sampleEnd. cbn [numChannels spans getNumFrames numFrames].
  destruct (c <? Z.of_nat (length (ab_channels b))) eqn:E1;
    [|apply Z.ltb_ge in E1; lia].
  destruct (c <? 0) eqn:E0; [apply Z.ltb_lt in E0; lia|].
  rewrite lookup_app_l by (rewrite length_map; lia).
  rewrite list_lookup_fmap.
  destruct (ab_channels b !! Z.to_nat c) as [cells|] eqn:L;
    [|apply lookup_ge_None in L; lia].
  exists cells. split; [reflexivity|]. split.
  - assert (T : Machine.to_int (ab_numFrames b) = ab_numFrames b).
    { unfold Machine.to_int. rewrite Z.mod_small; [lia|].
      change (2 ^ 32) with 4294967296. change (2 ^ 31) with 2147483648 in *. lia. }
    rewrite T. lia.
  - unfold has_tail in Htail. rewrite forallb_forall in Htail.
    apply Z.ltb_lt, Htail, list_elem_of_In. apply list_elem_of_lookup. eauto.
Qed.

(** In the branch that does not wrap, [fillWithData] reads inside the
    blocks of the channels, and so returns, when the read positions start
    at 0 or above and the element after [sampleEnd] is inside the block of
    each channel: a frame, or the first element of the padded tail when the
    sample ends with the file. *)
Lemma fillWithData_returns (v : Voice.t) (r : Region) (src : AudioSpan.t)
    (buffer : Block) (leftCells rightCells : list Q) :
  region v = Some r ->
  source v r = Some src ->
  loops_within r src = false ->
  Z.of_nat (block_frames buffer) <= samplesPerBlock v ->
  getChannel src 0 = Some (ptr leftCells) ->
  getNumChannels src = 1 \/ getChannel src 1 = Some (ptr rightCells) ->
  0 <= sampleEnd r src ->
  sampleEnd r src + 1 < Z.of_nat (length leftCells) ->
  (getNumChannels src <> 1 -> sampleEnd r src + 1 < Z.of_nat (length rightCells)) ->
  Forall (fun k => 0 <= k) (fst (fst (read_positions v (block_frames buffer)))) ->
  exists v' out, fillWithData v buffer = Some (v', out).
Proof.
  intros Hr Hsrc Hloop Hn Hch0 Hch1 He Hl0 Hl1 Hpos. unfold fillWithData.
  destruct (block_frames buffer =? 0)%nat; [eauto|].
  rewrite Hr. cbn [mbind option_bind]. rewrite Hsrc. cbn [mbind option_bind].
  destruct (samplesPerBlock v <? Z.of_nat (block_frames buffer)) eqn:E;
    [apply Z.ltb_lt in E; lia|].
  pose proof (clamp_indices_bounds (sampleEnd r src) _
                (snd (fst (read_positions v (block_frames buffer))))
                (snd (read_positions v (block_frames buffer))) He Hpos) as Hb.
  unfold adjusted_positions. rewrite Hloop.
  destruct (read_positions v (block_frames buffer)) as [[i0 l0] r0]. cbn [fst snd] in Hb.
  destruct (clamp_indices (sampleEnd r src) i0 l0 r0) as [[indices leftCoeffs] rightCoeffs].
  cbn [fst] in Hb.
  destruct (write_block_defined src buffer indices leftCoeffs rightCoeffs
              leftCells rightCells Hch0 Hch1) as [written ->].
  { eapply Forall_impl; [exact Hb|]. cbn. intros k Hk. lia. }
  { intros Hst. specialize (Hl1 Hst).
    eapply Forall_impl; [exact Hb|]. cbn. intros k Hk. lia. }
  cbn [mbind option_bind].
  destruct (finish v r src indices rightCoeffs written) as [v' out']. eauto.
Qed.

(** [renderBlock] returns under the same conditions, for a block of no
    more frames than [samplesPerBlock]. *)
Lemma renderBlock_returns (v : Voice.t) (r : Region) (src : AudioSpan.t)
    (leftCells rightCells : list Q) (frames : nat) (egSmoothing : bool) :
  region v = Some r ->
  source v r = Some src ->
  loops_within r src = false ->
  Z.of_nat frames <= samplesPerBlock v ->
  getChannel src 0 = Some (ptr leftCells) ->
  getNumChannels src = 1 \/ getChannel src 1 = Some (ptr rightCells) ->
  0 <= sampleEnd r src ->
  sampleEnd r src + 1 < Z.of_nat (length leftCells) ->
  (getNumChannels src <> 1 -> sampleEnd r src + 1 < Z.of_nat (length rightCells)) ->
  (forall n, Forall (fun k => 0 <= k) (fst (fst (read_positions v n)))) ->
  exists v', renderBlock v frames egSmoothing = Some v'.
Proof.
  intros Hr Hsrc Hloop Hn Hch0 Hch1 He Hl0 Hl1 Hpos. unfold renderBlock. rewrite Hr.
  destruct (is_idle (state v)); [eauto|].
  set (delay := Z.min (Machine.to_size_t (initialDelay v)) (Z.of_nat frames)).
  set (v1 := with_initialDelay (initialDelay v - delay) v).
  assert (Hd : 0 <= delay).
  { subst delay. unfold Machine.to_size_t.
    pose proof (Z.mod_pos_bound (initialDelay v) (2 ^ 64) ltac:(lia)). lia. }
  destruct (isGenerator r).
  - cbn [mbind option_bind]. unfold fillWithGenerator.
    change (samplesPerBlock v1) with (samplesPerBlock v).
    destruct (samplesPerBlock v <? Z.of_nat frames) eqn:E;
      [apply Z.ltb_lt in E; lia|]. eauto.
  - destruct (fillWithData_returns v1 r src
                {| left := fill (frames - Z.to_nat delay) 0%Q;
                   right := fill (frames - Z.to_nat delay) 0%Q |}
                leftCells rightCells) as (v2 & out & F); try assumption.
    { unfold block_frames, fill. cbn. rewrite length_replicate. lia. }
    { apply Hpos. }
    rewrite F. cbn [fmap option_fmap option_map mbind option_bind fst].
    assert (S2 : samplesPerBlock v2 = samplesPerBlock v).
    { unfold fillWithData in F.
      destruct (block_frames _ =? 0)%nat; [injection F as <- _; reflexivity|].
      change (region v1) with (region v) in F. rewrite Hr in F.
      cbn [mbind option_bind] in F.
      change (source v1 r) with (source v r) in F. rewrite Hsrc in F.
      cbn [mbind option_bind] in F.
      destruct (samplesPerBlock v1 <? _); [discriminate F|].
      destruct (adjusted_positions v1 r src _) as [[indices leftCoeffs] rightCoeffs].
      destruct (write_block src _ indices leftCoeffs rightCoeffs) as [written|];
        [|discriminate F].
      cbn [mbind option_bind] in F. unfold finish in F.
      match type of F with
      | Some (if ?c then _ else _) = _ => destruct c
      end; injection F as <- _; [unfold release|];
        try destruct (is_playing _); reflexivity. }
    rewrite S2.
    destruct (samplesPerBlock v <? Z.of_nat frames) eqn:E;
      [apply Z.ltb_lt in E; lia|]. eauto.
Qed.

(** A stereo file played to its end: both channels get, at the positions
    past [sampleEnd], the first element of the tail of their source
    channel. *)
Example fillWithData_stereo_tail :
  (fun vo => (left (snd vo) !! 3%nat, right (snd vo) !! 3%nat, state (fst vo)))
    <$> fillWithData stereo_voice_released silent_block
  = Some (Some (40 * 0 + 99 * 1)%Q, Some (4 * 0 + 77 * 1)%Q, State.release).
Proof. vm_compute. reflexivity. Qed.

(** The positions are sums of [float]s: thirty steps of the [float]
    nearest to 1/10 add up to less than 3, and the last index read is 2. *)
Example read_positions_in_float :
  let v := with_position 0 0%Q
             {| state := State.playing; region := Some whole_region;
                triggerType := NoteOn; triggerNumber := 60; triggerChannel := 1;
                triggerValue := 100; speedRatio := 1;
                pitchRatio := Machine.to_float (1 # 10);
                sourcePosition := 0; floatPositionOffset := 0; initialDelay := 0;
                noteIsOff := false; dataReady := false; fileData := None; ticket := 0;
                sampleRate := 44100; samplesPerBlock := 1024;
                egEnvelope := {| eg_delay := 0; eg_releaseDelay := None |} |} in
  Machine.to_float (1 # 10) = (13421773 # 134217728)%Q
  /\ last_Z (fst (fst (read_positions v 30))) = 2.
Proof. split; vm_compute; reflexivity. Qed.

(** A block of more frames than [samplesPerBlock] ends the program. *)
Example renderBlock_beyond_samplesPerBlock :
  renderBlock (with_initialDelay 3000 playing_voice) 2000 true = None.
Proof. vm_compute. reflexivity. Qed.



End FillWithDataFacts.

(** * Further properties *)

(** ** Buffer: the block of a resized buffer *)

Section BufferBlockFacts.

Import Buffer.

Lemma land_neg_pow2 (x j : Z) :
  0 <= j -> Z.land x (- 2 ^ j) = x - x mod 2 ^ j.
Proof.
  intros Hj.
  replace (- 2 ^ j) with (Z.lnot (Z.ones j))
    by (rewrite Z.ones_equiv; unfold Z.lnot; lia).
  rewrite <- Z.ldiff_land, Z.ldiff_ones_r by assumption.
  rewrite Z.shiftl_mul_pow2, Z.shiftr_div_pow2 by assumption.
  assert (0 < 2 ^ j) by (apply Z.pow_pos_nonneg; lia).
  pose proof (Z.div_mod x (2 ^ j) ltac:(lia)). lia.
Qed.

Lemma alignment_pow2 (Alignment sizeofT : Z) :
  static_asserts Alignment sizeofT -> Alignment <> 0 ->
  exists j, 2 <= j <= 4 /\ Alignment = 2 ^ j /\ 1 <= sizeofT <= Alignment.
Proof.
  intros (HA & Hs & HT) HA0.
  assert (Hle : sizeofT <= Alignment).
  { unfold TypeAlignment in HT.
    destruct (Z_lt_le_dec Alignment sizeofT) as [Hgt|]; [|assumption].
    rewrite Z.div_small in HT by lia. lia. }
  destruct HA as [HA|[HA|[HA|HA]]]; [contradiction| | |]; subst Alignment.
  - exists 2. repeat split; lia.
  - exists 3. repeat split; lia.
  - exists 4. repeat split; lia.
Qed.

(** The padded tail: after a successful [resize(N)], the [Alignment - 1]
    elements that follow [end()] are inside the block the allocator
    returned.  The element at index [size()], which an interpolation at
    the last frame reads, is one of them. *)
Lemma resize_tail_in_block (Alignment sizeofT : Z) (b : Buffer.t) (N newData : Z) :
  static_asserts Alignment sizeofT ->
  Alignment <> 0 ->
  0 < N ->
  0 < newData ->
  newData + (N + 2 * (Alignment - 1)) * sizeofT <= 2 ^ 64 ->
  let b' := snd (resize Alignment sizeofT b N newData) in
  newData <= data b'
  /\ end_ b' = data b' + N * sizeofT
  /\ end_ b' + (Alignment - 1) * sizeofT <= newData + requested_bytes Alignment sizeofT N.
Proof.
  intros Hst HA0 HN Hd Hfit.
  destruct (alignment_pow2 _ _ Hst HA0) as (j & Hj & HA & Hs).
  assert (Hp : 4 <= Alignment <= 16).
  { subst Alignment. split.
    - change 4 with (2 ^ 2). apply Z.pow_le_mono_r; lia.
    - change 16 with (2 ^ 4). apply Z.pow_le_mono_r; lia. }
  assert (H64 : 2 ^ 64 = 18446744073709551616) by reflexivity.
  assert (Hmask : AlignmentMask Alignment = Alignment - 1).
  { unfold AlignmentMask, Machine.to_uint32. apply Z.mod_small.
    change (2 ^ 32) with 4294967296. lia. }
  assert (Htemp : Machine.to_size_t (N + Machine.to_uint32 (2 * AlignmentMask Alignment))
                  = N + 2 * (Alignment - 1)).
  { rewrite Hmask. unfold Machine.to_uint32.
    rewrite (Z.mod_small (2 * (Alignment - 1))) by (change (2 ^ 32) with 4294967296; lia).
    unfold Machine.to_size_t. apply Z.mod_small. nia. }
  assert (Hbytes : requested_bytes Alignment sizeofT N
                   = (N + 2 * (Alignment - 1)) * sizeofT).
  { unfold requested_bytes. rewrite Htemp. unfold Machine.to_size_t.
    apply Z.mod_small. nia. }
  pose proof (Z.mod_pos_bound (newData - 1 + Alignment) Alignment ltac:(lia)) as Hm.
  intros b'. subst b'. unfold resize.
  destruct (N =? 0) eqn:E0; [apply Z.eqb_eq in E0; lia|].
  destruct (newData =? 0) eqn:E1; [apply Z.eqb_eq in E1; lia|].
  cbn [snd data end_ normalData normalEnd]. rewrite Htemp, Hbytes.
  unfold std_align, ptr_add.
  destruct (N + 2 * (Alignment - 1) <? N) eqn:E2; [apply Z.ltb_lt in E2; lia|].
  assert (Hland : Z.land (newData - 1 + Alignment) (- Alignment)
                  = newData - 1 + Alignment - (newData - 1 + Alignment) mod Alignment)
    by (rewrite HA; apply land_neg_pow2; lia).
  rewrite Hland. unfold Machine.to_size_t. rewrite Z.mod_small by nia.
  destruct (_ >? _) eqn:E3; [apply Z.gtb_lt in E3; lia|].
  split; [lia|]. split; [reflexivity|]. nia.
Qed.

(** X1.  After a successful [resize(N)] the buffer lies inside the block
    the allocator returned: [data()] is at or after the start of the
    block, less than [Alignment] bytes into it and a multiple of
    [Alignment]; [size()] is [N] and [end()] is [N] elements after
    [data()]; and [alignedEnd()] is at or before the end of the block. *)
Theorem resize_within_allocation (Alignment sizeofT : Z) (b : Buffer.t) (N newData : Z) :
  static_asserts Alignment sizeofT ->
  Alignment <> 0 ->
  0 < N ->
  0 < newData ->
  newData + (N + 2 * (Alignment - 1)) * sizeofT <= 2 ^ 64 ->
  let b' := snd (resize Alignment sizeofT b N newData) in
  requested_bytes Alignment sizeofT N = (N + 2 * (Alignment - 1)) * sizeofT
  /\ newData <= data b' < newData + Alignment
  /\ data b' mod Alignment = 0
  /\ size b' = N
  /\ end_ b' = data b' + N * sizeofT
  /\ end_ b' <= alignedEnd b' <= newData + requested_bytes Alignment sizeofT N.
Proof.
  intros Hst HA0 HN Hd Hfit.
  destruct (alignment_pow2 _ _ Hst HA0) as (j & Hj & HA & Hs).
  pose proof (resize_alignedEnd_aligned Alignment sizeofT b N newData Hst HA0 HN
                ltac:(lia)) as (_ & Hord & _).
  assert (Hp : 4 <= Alignment <= 16).
  { subst Alignment. split.
    - change 4 with (2 ^ 2). apply Z.pow_le_mono_r; lia.
    - change 16 with (2 ^ 4). apply Z.pow_le_mono_r; lia. }
  assert (H64 : 2 ^ 64 = 18446744073709551616) by reflexivity.
  assert (Hmask : AlignmentMask Alignment = Alignment - 1).
  { unfold AlignmentMask, Machine.to_uint32. apply Z.mod_small.
    change (2 ^ 32) with 4294967296. lia. }
  assert (Htemp : Machine.to_size_t (N + Machine.to_uint32 (2 * AlignmentMask Alignment))
                  = N + 2 * (Alignment - 1)).
  { rewrite Hmask. unfold Machine.to_uint32.
    rewrite (Z.mod_small (2 * (Alignment - 1))) by (change (2 ^ 32) with 4294967296; lia).
    unfold Machine.to_size_t. apply Z.mod_small. nia. }
  assert (Hbytes : requested_bytes Alignment sizeofT N
                   = (N + 2 * (Alignment - 1)) * sizeofT).
  { unfold requested_bytes. rewrite Htemp. unfold Machine.to_size_t.
    apply Z.mod_small. nia. }
  assert (Hdata : data (snd (resize Alignment sizeofT b N newData))
                  = newData - 1 + Alignment - (newData - 1 + Alignment) mod Alignment).
  { unfold resize.
    destruct (N =? 0) eqn:E0; [apply Z.eqb_eq in E0; lia|].
    destruct (newData =? 0) eqn:E1; [apply Z.eqb_eq in E1; lia|].
    cbn [snd data normalData]. rewrite Htemp. unfold std_align.
    destruct (N + 2 * (Alignment - 1) <? N) eqn:E2; [apply Z.ltb_lt in E2; lia|].
    assert (Hland : Z.land (newData - 1 + Alignment) (- Alignment)
                    = newData - 1 + Alignment - (newData - 1 + Alignment) mod Alignment)
      by (rewrite HA; apply land_neg_pow2; lia).
    rewrite Hland.
    pose proof (Z.mod_pos_bound (newData - 1 + Alignment) Alignment ltac:(lia)) as Hm.
    unfold Machine.to_size_t.
    rewrite Z.mod_small by nia.
    destruct (_ >? _) eqn:E3; [apply Z.gtb_lt in E3; lia|]. reflexivity. }
  intros b'. subst b'.
  pose proof (Z.mod_pos_bound (newData - 1 + Alignment) Alignment ltac:(lia)) as Hm.
  split; [exact Hbytes|]. split; [rewrite Hdata; lia|]. split.
  { rewrite Hdata.
    pose proof (Z.div_mod (newData - 1 + Alignment) Alignment ltac:(lia)) as Hdm.
    replace (newData - 1 + Alignment - (newData - 1 + Alignment) mod Alignment)
      with ((newData - 1 + Alignment) / Alignment * Alignment) by lia.
    apply Z.mod_mul. lia. }
  assert (Hshape : size (snd (resize Alignment sizeofT b N newData)) = N
                   /\ end_ (snd (resize Alignment sizeofT b N newData))
                      = data (snd (resize Alignment sizeofT b N newData)) + N * sizeofT
                   /\ alignedEnd (snd (resize Alignment sizeofT b N newData))
                      <= end_ (snd (resize Alignment sizeofT b N newData))
                         + (Alignment - 1) * sizeofT).
  { unfold resize.
    destruct (N =? 0) eqn:E0; [apply Z.eqb_eq in E0; lia|].
    destruct (newData =? 0) eqn:E1; [apply Z.eqb_eq in E1; lia|].
    cbn [snd data size end_ alignedEnd normalData alignedSize normalEnd _alignedEnd].
    unfold ptr_add. split; [reflexivity|]. split; [reflexivity|].
    destruct (Z.land N (TypeAlignmentMask Alignment sizeofT) =? 0) eqn:Em; cbn [negb].
    - nia.
    - apply Z.eqb_neq in Em.
      assert (0 <= Z.land N (TypeAlignmentMask Alignment sizeofT)).
      { apply Z.land_nonneg. left. lia. }
      nia. }
  destruct Hshape as (Hsize & Hend & Hale).
  split; [exact Hsize|]. split; [exact Hend|]. split; [lia|].
  rewrite Hbytes. rewrite Hend in Hale. rewrite Hdata in Hale. nia.
Qed.

Lemma resize_within_allocation_witness :
  let b' := snd (resize 16 4 empty_buffer 5 4100) in
  data b' = 4112 /\ alignedEnd b' <= 4100 + requested_bytes 16 4 5.
Proof.
  assert (Hst : static_asserts 16 4) by (vm_compute; intuition congruence).
  assert (HA : (16 : Z) <> 0) by lia.
  assert (HN : 0 < 5) by lia.
  assert (Hd : 0 < 4100) by lia.
  assert (Hfit : 4100 + (5 + 2 * (16 - 1)) * 4 <= 2 ^ 64) by (vm_compute; congruence).
  pose proof (resize_within_allocation 16 4 empty_buffer 5 4100 Hst HA HN Hd Hfit)
    as (_ & _ & _ & _ & _ & _ & H).
  split; [reflexivity|exact H].
Defined.

(** X2.  [resize(0)] on a buffer that holds a block empties it ([size()]
    is 0, [data()], [end()] and [alignedEnd()] are null) and frees the
    block, but keeps the freed pointer in [paddedData]: the next
    [resize(N)] hands that freed pointer to [std::realloc]. *)
Theorem clear_keeps_freed_pointer (Alignment sizeofT : Z) (b : Buffer.t)
    (newData N : Z) :
  paddedData b <> 0 ->
  0 < N ->
  let b' := snd (resize Alignment sizeofT b 0 newData) in
  fst (resize Alignment sizeofT b 0 newData) = true
  /\ empty b' = true /\ data b' = 0 /\ end_ b' = 0 /\ alignedEnd b' = 0
  /\ resize_allocation Alignment sizeofT b' N
     = Some (call_realloc (clear_frees b) (requested_bytes Alignment sizeofT N)).
Proof.
  intros Hp HN. cbn. repeat split.
  unfold resize_allocation. cbn.
  destruct (N =? 0) eqn:E0; [apply Z.eqb_eq in E0; lia|].
  destruct (paddedData b =? 0) eqn:E1; [apply Z.eqb_eq in E1; contradiction|].
  reflexivity.
Qed.

Lemma clear_keeps_freed_pointer_witness :
  resize_allocation 16 4 (snd (resize 16 4 Inputs.four_floats 0 0)) 8
  = Some (call_realloc 4096 (requested_bytes 16 4 8)).
Proof.
  assert (Hp : paddedData Inputs.four_floats <> 0) by (vm_compute; congruence).
  assert (HN : 0 < 8) by lia.
  exact (proj2 (proj2 (proj2 (proj2 (proj2
           (clear_keeps_freed_pointer 16 4 Inputs.four_floats 0 8 Hp HN)))))).
Defined.

End BufferBlockFacts.

(** ** AudioSpan: constructors and views *)

Section AudioSpanViewFacts.

Import AudioSpan.

Lemma ptr_offset_add (p : pointer) (a b : Z) :
  0 <= a -> 0 <= b -> ptr_offset (ptr_offset p a) b = ptr_offset p (a + b).
Proof.
  intros Ha Hb. destruct p as [| |cells]; cbn [ptr_offset].
  - reflexivity.
  - destruct (a =? 0) eqn:E; cbn [ptr_offset].
    + apply Z.eqb_eq in E. subst a. reflexivity.
    + apply Z.eqb_neq in E.
      destruct (a + b =? 0) eqn:E'; [apply Z.eqb_eq in E'; lia|reflexivity].
  - destruct (0 <=? a) eqn:E0; [|apply Z.leb_gt in E0; lia]. cbn [andb].
    destruct (a <=? Z.of_nat (length cells)) eqn:E1; cbn [ptr_offset].
    + apply Z.leb_le in E1. rewrite length_drop.
      destruct (0 <=? b) eqn:E2; [|apply Z.leb_gt in E2; lia].
      destruct (0 <=? a + b) eqn:E3; [|apply Z.leb_gt in E3; lia]. cbn [andb].
      destruct (b <=? Z.of_nat (length cells - Z.to_nat a)) eqn:E4.
      * apply Z.leb_le in E4.
        destruct (a + b <=? Z.of_nat (length cells)) eqn:E5;
          [|apply Z.leb_gt in E5; lia].
        rewrite drop_drop. f_equal. f_equal. lia.
      * apply Z.leb_gt in E4.
        destruct (a + b <=? Z.of_nat (length cells)) eqn:E5;
          [apply Z.leb_le in E5; lia|reflexivity].
    + apply Z.leb_gt in E1.
      destruct (0 <=? a + b); cbn [andb]; [|reflexivity].
      destruct (a + b <=? Z.of_nat (length cells)) eqn:E5;
        [apply Z.leb_le in E5; lia|reflexivity].
Qed.

Lemma deref_ptr_offset (p : pointer) (offset j : Z) :
  0 <= offset -> 0 <= j -> deref (ptr_offset p offset) j = deref p (offset + j).
Proof.
  intros Ho Hj. destruct p as [| |cells]; cbn [ptr_offset deref].
  - reflexivity.
  - destruct (offset =? 0); reflexivity.
  - destruct (0 <=? offset) eqn:E0; [|apply Z.leb_gt in E0; lia]. cbn [andb].
    destruct (j <? 0) eqn:E1; [apply Z.ltb_lt in E1; lia|].
    destruct (offset + j <? 0) eqn:E2; [apply Z.ltb_lt in E2; lia|].
    destruct (offset <=? Z.of_nat (length cells)) eqn:E3; cbn [deref].
    + rewrite E1, lookup_drop. f_equal. lia.
    + apply Z.leb_gt in E3. symmetry. apply lookup_ge_None. lia.
Qed.

(** What the loop of the constructor from an array leaves in the array:
    the shifted pointers in the slots it visits, the others as they
    were. *)
Lemma from_array_loop_spec (source : list pointer) (offset : Z) :
  forall (n : nat) (from : Z) (arr : list pointer),
    0 <= from ->
    from + Z.of_nat n <= Z.of_nat (length source) ->
    from + Z.of_nat n <= Z.of_nat (length arr) ->
    exists arr',
      from_array_loop source arr offset (seqZ from (Z.of_nat n)) = Some arr'
      /\ length arr' = length arr
      /\ forall k : nat,
           arr' !! k
           = if (from <=? Z.of_nat k) && (Z.of_nat k <? from + Z.of_nat n)
             then (fun p => ptr_offset p offset) <$> source !! k
             else arr !! k.
Proof.
  induction n as [|n IH]; intros from arr Hfrom Hsrc Harr.
  - exists arr. split; [reflexivity|]. split; [reflexivity|].
    intros k. destruct (from <=? Z.of_nat k) eqn:E; cbn [andb]; [|reflexivity].
    destruct (Z.of_nat k <? from + Z.of_nat 0) eqn:E'; [|reflexivity].
    apply Z.leb_le in E. apply Z.ltb_lt in E'. lia.
  - rewrite Nat2Z.inj_succ, seqZ_cons by lia.
    replace (Z.pred (Z.succ (Z.of_nat n))) with (Z.of_nat n) by lia.
    cbn [from_array_loop]. unfold array_at, array_set.
    destruct (from <? 0) eqn:E0; [apply Z.ltb_lt in E0; lia|].
    destruct (source !! Z.to_nat from) as [p|] eqn:Hp;
      [|apply lookup_ge_None in Hp; lia].
    cbn [mbind option_bind orb].
    destruct (Z.of_nat (length arr) <=? from) eqn:E1; [apply Z.leb_le in E1; lia|].
    cbn [mbind option_bind].
    destruct (IH (Z.succ from) (<[Z.to_nat from := ptr_offset p offset]> arr))
      as (arr' & R & Hlen & Hk); try (rewrite ?length_insert; lia).
    exists arr'. split; [exact R|]. split; [rewrite Hlen, length_insert; reflexivity|].
    intros k. rewrite Hk.
    destruct (decide (k = Z.to_nat from)) as [->|Hne].
    + rewrite Z2Nat.id by lia.
      rewrite list_lookup_insert_eq by lia. rewrite Hp.
      repeat match goal with
             | |- context [?a <=? ?b] =>
                 let E := fresh "E" in
                 destruct (a <=? b) eqn:E;
                 [apply Z.leb_le in E|apply Z.leb_gt in E]
             | |- context [?a <? ?b] =>
                 let E := fresh "E" in
                 destruct (a <? b) eqn:E;
                 [apply Z.ltb_lt in E|apply Z.ltb_ge in E]
             end; cbn [andb]; try reflexivity; lia.
    + rewrite list_lookup_insert_ne by congruence.
      repeat match goal with
             | |- context [?a <=? ?b] =>
                 let E := fresh "E" in
                 destruct (a <=? b) eqn:E;
                 [apply Z.leb_le in E|apply Z.leb_gt in E]
             | |- context [?a <? ?b] =>
                 let E := fresh "E" in
                 destruct (a <? b) eqn:E;
                 [apply Z.ltb_lt in E|apply Z.ltb_ge in E]
             end; cbn [andb]; try reflexivity; lia.
Qed.

Lemma from_array_spec (MaxChannels : nat) (source : list pointer)
    (numChannels' offset numFrames' : Z) :
  0 <= numChannels' <= Z.of_nat MaxChannels ->
  numChannels' <= Z.of_nat (length source) ->
  exists s',
    from_array MaxChannels source numChannels' offset numFrames' = Some s'
    /\ length (spans s') = MaxChannels
    /\ numChannels s' = numChannels'
    /\ numFrames s' = numFrames'
    /\ forall k : nat,
         spans s' !! k
         = if Z.of_nat k <? numChannels'
           then (fun p => ptr_offset p offset) <$> source !! k
           else replicate MaxChannels indeterminate !! k.
Proof.
  intros Hn Hsrc. unfold from_array.
  destruct (from_array_loop_spec source offset (Z.to_nat numChannels') 0
              (replicate MaxChannels indeterminate))
    as (arr & R & Hlen & Hk); try (rewrite ?length_replicate; lia).
  rewrite Z2Nat.id in R, Hk by lia. rewrite R. cbn [mbind option_bind].
  eexists. split; [reflexivity|]. cbn [spans numChannels numFrames].
  split; [rewrite Hlen, length_replicate; reflexivity|].
  split; [reflexivity|]. split; [reflexivity|].
  intros k. rewrite Hk.
  destruct (0 <=? Z.of_nat k) eqn:E; [|apply Z.leb_gt in E; lia]. reflexivity.
Qed.

(** X3.  [subspan(offset, length)] (and so [first] and [last], which
    build their result the same way) returns a span of the same channel
    count and of [length] frames whose frame [j] of every channel is frame
    [offset + j] of the span it was taken from. *)
Theorem subspan_views_frames (MaxChannels : nat) (s : AudioSpan.t) (offset length : Z) :
  well_formed MaxChannels s ->
  0 <= offset ->
  exists s',
    subspan MaxChannels s offset length = Some s'
    /\ getNumChannels s' = getNumChannels s
    /\ getNumFrames s' = length
    /\ forall i j, 0 <= j -> frame s' i j = frame s i (offset + j).
Proof.
  intros (Hlen & Hn) Ho. unfold subspan.
  destruct (from_array_spec MaxChannels (spans s) (numChannels s) offset length)
    as (s' & R & Hlen' & Hnc & Hnf & Hk); try lia.
  exists s'. split; [exact R|]. split; [exact Hnc|]. split; [exact Hnf|].
  intros i j Hj. unfold frame, getChannel, array_at. rewrite Hnc.
  destruct (i <? numChannels s) eqn:E; [|reflexivity].
  apply Z.ltb_lt in E.
  destruct (i <? 0) eqn:E0; [reflexivity|]. apply Z.ltb_ge in E0.
  rewrite Hk, Z2Nat.id by lia.
  destruct (i <? numChannels s) eqn:E'; [|apply Z.ltb_ge in E'; lia].
  destruct (spans s !! Z.to_nat i) as [p|] eqn:Hp;
    [|apply lookup_ge_None in Hp; lia].
  cbn [fmap option_fmap option_map mbind option_bind].
  apply deref_ptr_offset; assumption.
Qed.

Lemma subspan_views_frames_witness :
  exists s',
    subspan 2 Inputs.stereo_span 1 2 = Some s'
    /\ frame s' 0 1 = frame Inputs.stereo_span 0 2.
Proof.
  assert (W : well_formed 2 Inputs.stereo_span) by (vm_compute; repeat split; congruence).
  assert (Ho : 0 <= 1) by lia.
  destruct (subspan_views_frames 2 Inputs.stereo_span 1 2 W Ho)
    as (s' & R & _ & _ & F).
  exists s'. split; [exact R|]. apply (F 0 1). lia.
Defined.

(** X4.  Taking a subspan of a subspan is taking one subspan at the sum
    of the offsets: [subspan(a, n1).subspan(b, n2)] and
    [subspan(a + b, n2)] are the same span. *)
Theorem subspan_subspan (MaxChannels : nat) (s : AudioSpan.t) (a n1 b n2 : Z) :
  well_formed MaxChannels s ->
  0 <= a ->
  0 <= b ->
  subspan MaxChannels s a n1 ≫= (fun s1 => subspan MaxChannels s1 b n2)
  = subspan MaxChannels s (a + b) n2.
Proof.
  intros (Hlen & Hn) Ha Hb. unfold subspan.
  destruct (from_array_spec MaxChannels (spans s) (numChannels s) a n1)
    as (s1 & R1 & Hlen1 & Hnc1 & Hnf1 & Hk1); try lia.
  rewrite R1. cbn [mbind option_bind].
  destruct (from_array_spec MaxChannels (spans s1) (numChannels s1) b n2)
    as (s2 & R2 & Hlen2 & Hnc2 & Hnf2 & Hk2); try lia.
  destruct (from_array_spec MaxChannels (spans s) (numChannels s) (a + b) n2)
    as (s3 & R3 & Hlen3 & Hnc3 & Hnf3 & Hk3); try lia.
  rewrite R2, R3. f_equal.
  destruct s2 as [sp2 nf2 nc2], s3 as [sp3 nf3 nc3].
  cbn [spans numFrames numChannels] in *. subst nf2 nf3 nc2 nc3.
  f_equal; [|assumption]. apply list_eq. intros k.
  rewrite Hk2, Hk3, Hnc1, Hk1.
  destruct (Z.of_nat k <? numChannels s); [|reflexivity].
  destruct (spans s !! k) as [p|]; [|reflexivity].
  cbn [fmap option_fmap option_map]. f_equal. apply ptr_offset_add; assumption.
Qed.

Lemma subspan_subspan_witness :
  subspan 2 Inputs.stereo_span 1 2 ≫= (fun s1 => subspan 2 s1 1 1)
  = subspan 2 Inputs.stereo_span 2 1.
Proof.
  assert (W : well_formed 2 Inputs.stereo_span) by (vm_compute; repeat split; congruence).
  exact (subspan_subspan 2 Inputs.stereo_span 1 2 1 1 W ltac:(lia) ltac:(lia)).
Defined.

(** X5.  [subspan(offset)] does not clamp: up to the frame count it
    returns the [numFrames - offset] remaining frames, and beyond it a span
    whose frame count has wrapped around to
    [2^64 + numFrames - offset]. *)
Theorem subspan_from_frames (MaxChannels : nat) (s : AudioSpan.t) (offset : Z) :
  well_formed MaxChannels s ->
  0 <= numFrames s < 2 ^ 64 ->
  0 <= offset < 2 ^ 64 ->
  exists s',
    subspan_from MaxChannels s offset = Some s'
    /\ getNumChannels s' = getNumChannels s
    /\ getNumFrames s'
       = if offset <=? numFrames s
         then numFrames s - offset
         else 2 ^ 64 + numFrames s - offset.
Proof.
  intros (Hlen & Hn) Hf Ho. unfold subspan_from.
  destruct (from_array_spec MaxChannels (spans s) (numChannels s) offset
              (Machine.to_size_t (numFrames s - offset)))
    as (s' & R & _ & Hnc & Hnf & _); try lia.
  exists s'. split; [exact R|]. split; [exact Hnc|].
  unfold getNumFrames. rewrite Hnf. unfold Machine.to_size_t.
  destruct (offset <=? numFrames s) eqn:E.
  - apply Z.leb_le in E. apply Z.mod_small. lia.
  - apply Z.leb_gt in E.
    rewrite <- (Z.mod_add _ 1) by lia. rewrite Z.mod_small; lia.
Qed.

Lemma subspan_from_frames_witness :
  exists s',
    subspan_from 2 Inputs.stereo_span 5 = Some s'
    /\ getNumFrames s' = 2 ^ 64 + 3 - 5.
Proof.
  assert (W : well_formed 2 Inputs.stereo_span) by (vm_compute; repeat split; congruence).
  assert (Hf : 0 <= numFrames Inputs.stereo_span < 2 ^ 64) by (vm_compute; split; congruence).
  assert (Ho : 0 <= 5 < 2 ^ 64) by (vm_compute; split; congruence).
  destruct (subspan_from_frames 2 Inputs.stereo_span 5 W Hf Ho) as (s' & R & _ & F).
  exists s'. split; [exact R|exact F].
Defined.

Lemma from_pointers_loop_spec (MaxChannels : nat) :
  forall (l arr : list pointer) (k : nat),
    length arr = MaxChannels ->
    length (from_pointers_loop MaxChannels arr k l) = MaxChannels
    /\ forall j : nat,
         from_pointers_loop MaxChannels arr k l !! j
         = if (k <=? j)%nat && (j <? k + length l)%nat && (j <? MaxChannels)%nat
           then l !! (j - k)%nat
           else arr !! j.
Proof.
  induction l as [|p l IH]; intros arr k Hlen; cbn [from_pointers_loop length].
  - split; [exact Hlen|]. intros j.
    destruct (k <=? j)%nat eqn:E1; cbn [andb]; [|reflexivity].
    destruct (j <? k + 0)%nat eqn:E2; cbn [andb]; [|reflexivity].
    apply Nat.leb_le in E1. apply Nat.ltb_lt in E2. lia.
  - destruct (k <? MaxChannels)%nat eqn:E.
    + apply Nat.ltb_lt in E.
      destruct (IH (<[k := p]> arr) (S k)) as (Hl & Hj);
        [rewrite length_insert; exact Hlen|].
      split; [exact Hl|]. intros j. rewrite Hj.
      destruct (decide (j = k)) as [->|Hne].
      * rewrite list_lookup_insert_eq by lia.
        replace (k - k)%nat with O by lia. cbn [lookup list_lookup].
        destruct (S k <=? k)%nat eqn:E1; [apply Nat.leb_le in E1; lia|].
        destruct (k <=? k)%nat eqn:E2; [|apply Nat.leb_gt in E2; lia].
        destruct (k <? k + S (length l))%nat eqn:E3; [|apply Nat.ltb_ge in E3; lia].
        destruct (k <? MaxChannels)%nat eqn:E4; [|apply Nat.ltb_ge in E4; lia].
        reflexivity.
      * rewrite list_lookup_insert_ne by congruence.
        repeat match goal with
               | |- context [(?a <=? ?b)%nat] => destruct (Nat.leb_spec a b)
               | |- context [(?a <? ?b)%nat] => destruct (Nat.ltb_spec a b)
               end; cbn [andb]; try reflexivity; try lia.
        replace (j - k)%nat with (S (j - S k)) by lia. reflexivity.
    + apply Nat.ltb_ge in E. split; [exact Hlen|]. intros j.
      destruct (k <=? j)%nat eqn:E1; cbn [andb]; [|reflexivity].
      destruct (j <? k + S (length l))%nat; cbn [andb]; [|reflexivity].
      destruct (j <? MaxChannels)%nat eqn:E3; [|reflexivity].
      apply Nat.leb_le in E1. apply Nat.ltb_lt in E3. lia.
Qed.

(** X6.  A span built from a list of channel pointers and a frame count
    has that frame count and as many channels as the list; [getChannel]
    and [getSpan] give back the pointers of the list up to [MaxChannels],
    and for a longer list the channel indices from [MaxChannels] on pass
    the bound check of the accessors and are read outside the array. *)
Theorem from_pointers_channels (MaxChannels : nat) (l : list pointer)
    (numFrames' i : Z) :
  Z.of_nat (length l) < 2 ^ 31 ->
  0 <= i < Z.of_nat (length l) ->
  getNumFrames (from_pointers MaxChannels l numFrames') = numFrames'
  /\ getNumChannels (from_pointers MaxChannels l numFrames') = Z.of_nat (length l)
  /\ getChannel (from_pointers MaxChannels l numFrames') i
     = (if i <? Z.of_nat MaxChannels then l !! Z.to_nat i else None)
  /\ getSpan (from_pointers MaxChannels l numFrames') i
     = (if i <? Z.of_nat MaxChannels
        then (fun p => {| span_data := p; span_size := numFrames' |}) <$> l !! Z.to_nat i
        else None).
Proof.
  intros Hl Hi.
  assert (Hnc : Machine.to_int (Z.of_nat (length l)) = Z.of_nat (length l)).
  { unfold Machine.to_int. change (2 ^ 31) with 2147483648 in *.
    change (2 ^ 32) with 4294967296. rewrite Z.mod_small; lia. }
  destruct (from_pointers_loop_spec MaxChannels l (replicate MaxChannels indeterminate) 0
              (length_replicate _ _)) as (Hlen & Hj).
  assert (Harr : array_at (spans (from_pointers MaxChannels l numFrames')) i
                 = if i <? Z.of_nat MaxChannels then l !! Z.to_nat i else None).
  { unfold array_at. destruct (i <? 0) eqn:E0; [apply Z.ltb_lt in E0; lia|].
    cbn [from_pointers spans]. rewrite Hj.
    destruct (0 <=? Z.to_nat i)%nat eqn:E1; [|apply Nat.leb_gt in E1; lia].
    destruct (Z.to_nat i <? 0 + length l)%nat eqn:E2; [|apply Nat.ltb_ge in E2; lia].
    cbn [andb]. rewrite Nat.sub_0_r.
    destruct (i <? Z.of_nat MaxChannels) eqn:E3.
    - apply Z.ltb_lt in E3.
      destruct (Z.to_nat i <? MaxChannels)%nat eqn:E4; [|apply Nat.ltb_ge in E4; lia].
      reflexivity.
    - apply Z.ltb_ge in E3.
      destruct (Z.to_nat i <? MaxChannels)%nat eqn:E4; [apply Nat.ltb_lt in E4; lia|].
      apply lookup_ge_None. rewrite length_replicate. lia. }
  split; [reflexivity|]. split; [exact Hnc|].
  unfold getChannel, getSpan. cbn [from_pointers numChannels numFrames].
  rewrite Hnc.
  destruct (i <? Z.of_nat (length l)) eqn:E; [|apply Z.ltb_ge in E; lia].
  rewrite Harr. split; [reflexivity|].
  destruct (i <? Z.of_nat MaxChannels); [|reflexivity].
  destruct (l !! Z.to_nat i); reflexivity.
Qed.

Lemma from_pointers_channels_witness :
  getChannel (from_pointers 2 Inputs.three_pointers 3) 2 = None
  /\ getNumChannels (from_pointers 2 Inputs.three_pointers 3) = 3.
Proof.
  assert (Hl : Z.of_nat (length Inputs.three_pointers) < 2 ^ 31) by (vm_compute; congruence).
  assert (Hi : 0 <= 2 < Z.of_nat (length Inputs.three_pointers)) by (vm_compute; split; congruence).
  destruct (from_pointers_channels 2 Inputs.three_pointers 3 2 Hl Hi) as (_ & Hn & Hc & _).
  split; [exact Hc|exact Hn].
Defined.

(** X7.  A span built over an [AudioBuffer] of at most [MaxChannels]
    channels has the frame and channel counts of the buffer, and its frame
    [j] of channel [i] is the sample [j] of channel [i] of the buffer. *)
Theorem from_buffer_frames (MaxChannels : nat) (b : AudioBuffer) :
  (length (ab_channels b) <= MaxChannels)%nat ->
  exists s,
    from_buffer MaxChannels b = Some s
    /\ getNumFrames s = ab_numFrames b
    /\ getNumChannels s = Z.of_nat (length (ab_channels b))
    /\ forall (i j : nat),
         frame s (Z.of_nat i) (Z.of_nat j)
         = ab_channels b !! i ≫= (fun cells => cells !! j).
Proof.
  intros Hle. unfold from_buffer.
  destruct (length (ab_channels b) <=? MaxChannels)%nat eqn:E;
    [|apply Nat.leb_gt in E; lia].
  eexists. split; [reflexivity|]. split; [reflexivity|]. split; [reflexivity|].
  intros i j. unfold frame, getChannel, array_at. cbn [numChannels spans].
  destruct (Z.of_nat i <? Z.of_nat (length (ab_channels b))) eqn:E1.
  - apply Z.ltb_lt in E1.
    destruct (Z.of_nat i <? 0) eqn:E0; [apply Z.ltb_lt in E0; lia|].
    rewrite Nat2Z.id, lookup_app_l by (rewrite length_map; lia).
    rewrite list_lookup_fmap.
    destruct (ab_channels b !! i) as [cells|]; [|reflexivity].
    cbn [fmap option_fmap option_map mbind option_bind deref].
    destruct (Z.of_nat j <? 0) eqn:E2; [apply Z.ltb_lt in E2; lia|].
    rewrite Nat2Z.id. reflexivity.
  - apply Z.ltb_ge in E1. cbn [mbind option_bind deref].
    rewrite (proj2 (lookup_ge_None (ab_channels b) i)) by lia. reflexivity.
Qed.

Lemma from_buffer_frames_witness :
  exists s,
    from_buffer 2 Inputs.stereo_buffer = Some s
    /\ frame s 1 1 = Some 2%Q.
Proof.
  assert (Hle : (length (ab_channels Inputs.stereo_buffer) <= 2)%nat) by (vm_compute; lia).
  destruct (from_buffer_frames 2 Inputs.stereo_buffer Hle) as (s & R & _ & _ & F).
  exists s. split; [exact R|]. exact (F 1%nat 1%nat).
Defined.

End AudioSpanViewFacts.

(** ** FilePool: information, preloading and promises *)

Section PoolFacts.

Import FilePool.

(** X8.  [getFileInformation] answers for exactly the files that
    [preloadFile] accepts, and what it answers has one or two channels and
    an end that is the frame count of the file on 32 bits. *)
Theorem getFileInformation_iff_preloadFile (default_loopBegin default_loopEnd : Z)
    (disk : gmap string DiskFile) (instrumentInfo : SF_INSTRUMENT)
    (pool : FilePool.t) (filename : string) (maxOffset : Z) :
  (is_Some (getFileInformation default_loopBegin default_loopEnd disk instrumentInfo filename)
   <-> fst (preloadFile disk pool filename maxOffset) = true)
  /\ forall info,
       getFileInformation default_loopBegin default_loopEnd disk instrumentInfo filename
       = Some info ->
       (info_numChannels info = 1 \/ info_numChannels info = 2)
       /\ exists file, disk !! filename = Some file
            /\ info_end info = Machine.to_uint32 (sf_frames (SndfileHandle_open file)).
Proof.
  unfold getFileInformation, preloadFile.
  destruct (disk !! filename) as [file|] eqn:Hfile.
  - set (h := SndfileHandle_open file).
    destruct (negb (sf_channels h =? 1) && negb (sf_channels h =? 2)) eqn:E.
    + split; [|discriminate]. split; [intros [x Hx]; discriminate Hx|discriminate].
    + split.
      * split; [intros _|intros _; eexists; reflexivity].
        destruct (preloadedFiles pool !! filename) as [res|];
          [destruct (framesToLoad pool h maxOffset >? getNumFrames (preloadedData res))|];
          reflexivity.
      * intros info Hinfo. injection Hinfo as <-. cbn [info_numChannels info_end].
        split; [|exists file; split; reflexivity].
        apply andb_false_iff in E as [E|E]; apply negb_false_iff, Z.eqb_eq in E; auto.
  - split; [|discriminate]. split; [intros [x Hx]; discriminate Hx|discriminate].
Qed.

(** X9.  A [preloadFile] that answers [false] leaves the pool as it
    was. *)
Theorem preloadFile_failure_keeps_pool (disk : gmap string DiskFile) (pool : FilePool.t)
    (filename : string) (maxOffset : Z) :
  fst (preloadFile disk pool filename maxOffset) = false ->
  snd (preloadFile disk pool filename maxOffset) = pool.
Proof.
  unfold preloadFile.
  destruct (disk !! filename) as [file|]; [|reflexivity].
  destruct (negb _ && negb _); [reflexivity|].
  destruct (preloadedFiles pool !! filename) as [res|];
    [destruct (_ >? _)|]; cbn [fst readFromFile]; discriminate.
Qed.

Lemma preloadFile_failure_keeps_pool_witness :
  snd (preloadFile Inputs.disk (Inputs.empty_pool x1) "missing.wav" 0)
  = Inputs.empty_pool x1.
Proof.
  apply preloadFile_failure_keeps_pool. vm_compute. reflexivity.
Defined.

Lemma preloadFile_success_spec (disk : gmap string DiskFile) (pool : FilePool.t)
    (filename : string) (maxOffset : Z) :
  fst (preloadFile disk pool filename maxOffset) = true ->
  let pool' := snd (preloadFile disk pool filename maxOffset) in
  (exists file resident,
      disk !! filename = Some file
      /\ preloadedFiles pool' !! filename = Some resident
      /\ framesToLoad pool (SndfileHandle_open file) maxOffset
         <= getNumFrames (preloadedData resident))
  /\ (forall other, other <> filename ->
        preloadedFiles pool' !! other = preloadedFiles pool !! other)
  /\ getNumPreloadedSamples pool'
     = match preloadedFiles pool !! filename with
       | Some _ => getNumPreloadedSamples pool
       | None => S (getNumPreloadedSamples pool)
       end.
Proof.
  unfold preloadFile, getNumPreloadedSamples.
  destruct (disk !! filename) as [file|] eqn:Hfile; [|discriminate].
  set (h := SndfileHandle_open file).
  destruct (negb (sf_channels h =? 1) && negb (sf_channels h =? 2)); [discriminate|].
  pose proof (framesToLoad_nonneg pool h maxOffset) as Hn.
  pose proof (upsampled_frames_ge (oversamplingFactor pool) _ Hn) as Hu.
  intros _.
  destruct (preloadedFiles pool !! filename) as [res|] eqn:Hres.
  - destruct (framesToLoad pool h maxOffset >? getNumFrames (preloadedData res)) eqn:G;
      cbn [snd readFromFile with_preloadedFiles with_next_address preloadedFiles].
    + split; [|split].
      * exists file. eexists. split; [reflexivity|]. split; [apply lookup_insert_eq|].
        cbn [preloadedData getNumFrames]. exact Hu.
      * intros other Hne. apply lookup_insert_ne. congruence.
      * apply map_size_insert_Some. eauto.
    + rewrite Z.gtb_ltb in G. apply Z.ltb_ge in G.
      split; [|split; [reflexivity|reflexivity]].
      exists file, res. auto.
  - cbn [snd readFromFile with_preloadedFiles with_next_address preloadedFiles].
    split; [|split].
    + exists file. eexists. split; [reflexivity|]. split; [apply lookup_insert_eq|].
      cbn [preloadedData getNumFrames]. exact Hu.
    + intros other Hne. apply lookup_insert_ne. congruence.
    + apply map_size_insert_None. exact Hres.
Qed.



(** X11.  The map keeps a view of the string that was passed to
    [preloadFile], not a copy.  After a [preloadFile] that answers [true],
    and for as long as the strings behind the keys of the map (the one of
    that call among them) are alive and unchanged, [getFilePromise] for the
    same name returns a promise that shares the resident head (the same
    buffer address), carries the sample rate of the head and the
    oversampling factor of the pool, has no file data yet, and is appended
    to the pending queue when the queue has room.  For a name that is not
    in the map it returns the empty promise and queues nothing. *)
Theorem getFilePromise_after_preloadFile (disk : gmap string DiskFile) (pool : FilePool.t)
    (filename : string) (maxOffset : Z) (has_room : bool) (intact : string -> bool) :
  let pool' := snd (preloadFile disk pool filename maxOffset) in
  keys_intact intact pool' = true ->
  exists (p : FilePromisePtr) (promise : FilePromise) (pool'' : FilePool.t),
    getFilePromise_later intact pool' has_room filename = Some (p, promise, pool'')
    /\ (fst (preloadFile disk pool filename maxOffset) = true ->
        intact filename = true
        /\ exists resident,
             preloadedFiles pool' !! filename = Some resident
             /\ promise_preloadedData promise = Some (preloadedData resident)
             /\ address <$> promise_preloadedData promise = head_address pool' filename
             /\ promise_sampleRate promise = sampleRate resident
             /\ promise_oversamplingFactor promise = oversamplingFactor pool
             /\ promise_fileData promise = None
             /\ promise_dataReady promise = false
             /\ promiseQueue pool''
                = if has_room then promiseQueue pool ++ [p] else promiseQueue pool)
    /\ (preloadedFiles pool' !! filename = None ->
        promise = empty_promise /\ promiseQueue pool'' = promiseQueue pool).
Proof.
  intros pool' Hkeys.
  assert (Hq : promiseQueue pool' = promiseQueue pool
               /\ oversamplingFactor pool' = oversamplingFactor pool).
  { subst pool'. unfold preloadFile.
    destruct (disk !! filename) as [file|]; [|auto].
    destruct (negb _ && negb _); [auto|].
    destruct (preloadedFiles pool !! filename) as [res|];
      [destruct (_ >? _)|]; auto. }
  destruct Hq as (Hq & Hf).
  unfold getFilePromise_later. rewrite Hkeys.
  destruct (getFilePromise pool' has_room filename) as [[p promise] pool''] eqn:G.
  exists p, promise, pool''. split; [reflexivity|].
  split.
  - intros Hok.
    destruct (preloadFile_success_spec disk pool filename maxOffset Hok)
      as ((file & resident & _ & Hres & _) & _).
    fold pool' in Hres. split.
    { unfold keys_intact in Hkeys. rewrite forallb_forall in Hkeys.
      apply (Hkeys (filename, resident)).
      apply list_elem_of_In, elem_of_map_to_list. exact Hres. }
    exists resident. split; [exact Hres|].
    unfold getFilePromise, head_address in *. rewrite Hres in *.
    injection G as <- <- <-.
    cbn [fst snd promise_preloadedData promise_sampleRate promise_oversamplingFactor
         promise_fileData promise_dataReady fmap option_fmap option_map].
    repeat split; try assumption.
    destruct has_room; cbn; rewrite Hq; reflexivity.
  - intros Hnone. unfold getFilePromise in G. rewrite Hnone in G.
    injection G as <- <- <-. cbn. split; [reflexivity|exact Hq].
Qed.

Lemma getFilePromise_after_preloadFile_witness :
  exists p promise pool'',
    getFilePromise_later Inputs.all_intact
      (snd (preloadFile Inputs.disk (Inputs.empty_pool x1) "whole.wav" 0))
      true "whole.wav"
    = Some (p, promise, pool'')
    /\ promise_preloadedData promise
       = Some {| address := 0; getNumChannels := 1; getNumFrames := 8192 |}.
Proof.
  assert (K : keys_intact Inputs.all_intact
                (snd (preloadFile Inputs.disk (Inputs.empty_pool x1) "whole.wav" 0))
              = true) by (vm_compute; reflexivity).
  assert (H : fst (preloadFile Inputs.disk (Inputs.empty_pool x1) "whole.wav" 0) = true)
    by (vm_compute; reflexivity).
  destruct (getFilePromise_after_preloadFile Inputs.disk (Inputs.empty_pool x1)
              "whole.wav" 0 true Inputs.all_intact K)
    as (p & promise & pool'' & G & Hok & _).
  destruct (Hok H) as (_ & resident & Hres & Hp & _).
  exists p, promise, pool''. split; [exact G|].
  rewrite Hp. f_equal.
  assert (R : preloadedFiles
                (snd (preloadFile Inputs.disk (Inputs.empty_pool x1) "whole.wav" 0))
              !! "whole.wav"
              = Some {| preloadedData :=
                          {| address := 0; getNumChannels := 1; getNumFrames := 8192 |};
                        sampleRate := inject_Z (44100 * 1) |})
    by (vm_compute; reflexivity).
  rewrite R in Hres. injection Hres as <-. reflexivity.
Defined.

(** What the loops of [setPreloadSize] and [setOversamplingFactor] leave:
    every file of the map has a new head of [reload_frames] frames at the
    new factor, and nothing else of the pool changes but the allocator. *)
Lemma reload_fold_spec (disk : gmap string DiskFile) (oldPool : FilePool.t)
    (newPreloadSize : Z) (newFactor : Oversampling) (newSampleRate : Q -> Q)
    (acc0 : FilePool.t) (m : gmap string PreloadedFileHandle) :
  let r := map_fold (reload disk oldPool newPreloadSize newFactor newSampleRate) acc0 m in
  preloadSize r = preloadSize acc0
  /\ oversamplingFactor r = oversamplingFactor acc0
  /\ forall name,
       match m !! name with
       | Some h =>
           exists a,
             preloadedFiles r !! name
             = Some {| preloadedData :=
                         {| address := a;
                            getNumChannels := sf_channels (SndfileHandle_at disk name);
                            getNumFrames :=
                              upsampled_frames newFactor
                                (reload_frames oldPool newPreloadSize h) |};
                       sampleRate := newSampleRate (sampleRate h) |}
       | None => preloadedFiles r !! name = preloadedFiles acc0 !! name
       end.
Proof.
  cbv zeta.
  apply (map_fold_weak_ind
           (fun r m =>
              preloadSize r = preloadSize acc0
              /\ oversamplingFactor r = oversamplingFactor acc0
              /\ forall name,
                   match m !! name with
                   | Some h =>
                       exists a,
                         preloadedFiles r !! name
                         = Some {| preloadedData :=
                                     {| address := a;
                                        getNumChannels :=
                                          sf_channels (SndfileHandle_at disk name);
                                        getNumFrames :=
                                          upsampled_frames newFactor
                                            (reload_frames oldPool newPreloadSize h) |};
                                   sampleRate := newSampleRate (sampleRate h) |}
                   | None => preloadedFiles r !! name = preloadedFiles acc0 !! name
                   end)).
  - split; [reflexivity|]. split; [reflexivity|]. intros name.
    rewrite lookup_empty. reflexivity.
  - intros i x m' r Hi (H1 & H2 & H3).
    unfold reload, readFromFile. cbn.
    split; [exact H1|]. split; [exact H2|]. intros name.
    destruct (decide (i = name)) as [->|Hne].
    + rewrite !lookup_insert_eq. eexists. reflexivity.
    + rewrite !lookup_insert_ne by assumption. apply H3.
Qed.

Lemma resident_frames_of_upsampled (f : Oversampling) (n : Z) :
  upsampled_frames f n / factor f = n.
Proof.
  unfold upsampled_frames. rewrite Z.mul_comm. apply Z.div_mul. destruct f; discriminate.
Qed.

Lemma reload_frames_value (pool : FilePool.t) (newPreloadSize : Z) (h : PreloadedFileHandle) :
  0 <= preloadSize pool ->
  0 <= newPreloadSize ->
  0 <= resident_file_frames pool h ->
  newPreloadSize + resident_file_frames pool h < 2 ^ 32 ->
  reload_frames pool newPreloadSize h
  = newPreloadSize + Z.max 0 (resident_file_frames pool h - preloadSize pool).
Proof.
  intros HP0 HP HF Hfit. unfold reload_frames, resident_file_frames in *.
  set (F := getNumFrames (preloadedData h) / factor (oversamplingFactor pool)) in *.
  unfold Machine.to_uint32.
  destruct (F >? preloadSize pool) eqn:E.
  - rewrite Z.gtb_ltb in E. apply Z.ltb_lt in E.
    rewrite (Z.mod_small (F - preloadSize pool)) by lia.
    rewrite Z.mod_small by lia. lia.
  - rewrite Z.gtb_ltb in E. apply Z.ltb_ge in E.
    rewrite (Z.mod_small 0) by lia. rewrite Z.mod_small by lia. lia.
Qed.

(** X12.  [setPreloadSize(p)] stores [p], keeps the oversampling factor,
    preloads no new file, and leaves every resident head with its sample
    rate and with [p] frames of the file plus the frames its old head had
    beyond the old preload size: at least [p] frames, whatever the length
    of the file. *)
Theorem setPreloadSize_heads (disk : gmap string DiskFile) (pool : FilePool.t)
    (preloadSize' : Z) (name : string) (h : PreloadedFileHandle) :
  preloadedFiles pool !! name = Some h ->
  0 <= preloadSize pool ->
  0 <= preloadSize' ->
  0 <= resident_file_frames pool h ->
  preloadSize' + resident_file_frames pool h < 2 ^ 32 ->
  let pool' := setPreloadSize disk pool preloadSize' in
  getPreloadSize pool' = preloadSize'
  /\ getOversamplingFactor pool' = getOversamplingFactor pool
  /\ (forall other, preloadedFiles pool !! other = None ->
                    preloadedFiles pool' !! other = None)
  /\ exists h',
       preloadedFiles pool' !! name = Some h'
       /\ sampleRate h' = sampleRate h
       /\ resident_file_frames pool' h'
          = preloadSize' + Z.max 0 (resident_file_frames pool h - preloadSize pool)
       /\ preloadSize' <= resident_file_frames pool' h'.
Proof.
  intros Hh HP0 HP HF Hfit pool'.
  pose proof (reload_fold_spec disk pool preloadSize' (oversamplingFactor pool)
                (fun rate => rate) pool (preloadedFiles pool)) as (H1 & H2 & H3).
  subst pool'. unfold setPreloadSize, getPreloadSize, getOversamplingFactor.
  cbn [with_preloadSize preloadSize oversamplingFactor preloadedFiles].
  split; [reflexivity|]. split; [exact H2|]. split.
  - intros other Ho. specialize (H3 other). rewrite Ho in H3. exact H3.
  - specialize (H3 name). rewrite Hh in H3. destruct H3 as (a & Ha).
    eexists. split; [exact Ha|]. cbn [sampleRate]. split; [reflexivity|].
    unfold resident_file_frames at 1 3.
    cbn [with_preloadSize oversamplingFactor preloadedData getNumFrames].
    rewrite H2, resident_frames_of_upsampled.
    rewrite reload_frames_value by assumption. split; [reflexivity|lia].
Qed.

Lemma setPreloadSize_heads_witness :
  exists h',
    preloadedFiles (setPreloadSize Inputs.disk Inputs.pool_x1 4096) !! "whole.wav" = Some h'
    /\ 4096 <= resident_file_frames (setPreloadSize Inputs.disk Inputs.pool_x1 4096) h'.
Proof.
  assert (Hh : preloadedFiles Inputs.pool_x1 !! "whole.wav"
               = Some {| preloadedData :=
                           {| address := 0; getNumChannels := 1; getNumFrames := 8192 |};
                         sampleRate := inject_Z (44100 * 1) |})
    by (vm_compute; reflexivity).
  destruct (setPreloadSize_heads Inputs.disk Inputs.pool_x1 4096 "whole.wav" _ Hh)
    as (_ & _ & _ & h' & R & _ & _ & G); try (vm_compute; congruence).
  exists h'. split; [exact R|exact G].
Defined.

Lemma setOversamplingFactor_lookup (disk : gmap string DiskFile) (pool : FilePool.t)
    (f : Oversampling) (name : string) (h : PreloadedFileHandle) :
  preloadedFiles pool !! name = Some h ->
  preloadSize (setOversamplingFactor disk pool f) = preloadSize pool
  /\ oversamplingFactor (setOversamplingFactor disk pool f) = f
  /\ exists a,
       preloadedFiles (setOversamplingFactor disk pool f) !! name
       = Some {| preloadedData :=
                   {| address := a;
                      getNumChannels := sf_channels (SndfileHandle_at disk name);
                      getNumFrames :=
                        upsampled_frames f (reload_frames pool (preloadSize pool) h) |};
                 sampleRate :=
                   (sampleRate h
                    * (inject_Z (factor f) / inject_Z (factor (oversamplingFactor pool))))%Q |}.
Proof.
  intros Hh.
  pose proof (reload_fold_spec disk pool (preloadSize pool) f
                (fun rate => rate * (inject_Z (factor f)
                                     / inject_Z (factor (oversamplingFactor pool))))%Q
                pool (preloadedFiles pool)) as (H1 & H2 & H3).
  unfold setOversamplingFactor.
  cbn [with_oversamplingFactor preloadSize oversamplingFactor preloadedFiles].
  split; [exact H1|]. split; [reflexivity|].
  specialize (H3 name). rewrite Hh in H3. exact H3.
Qed.

Lemma reload_frames_same_size (pool : FilePool.t) (h : PreloadedFileHandle) :
  0 <= preloadSize pool < 2 ^ 32 ->
  0 <= resident_file_frames pool h < 2 ^ 32 ->
  reload_frames pool (preloadSize pool) h
  = Z.max (preloadSize pool) (resident_file_frames pool h).
Proof.
  intros HP HF. unfold reload_frames, resident_file_frames in *.
  set (F := getNumFrames (preloadedData h) / factor (oversamplingFactor pool)) in *.
  unfold Machine.to_uint32.
  destruct (F >? preloadSize pool) eqn:E; rewrite Z.gtb_ltb in E.
  - apply Z.ltb_lt in E. rewrite (Z.mod_small (F - preloadSize pool)) by lia.
    rewrite Z.mod_small by lia. lia.
  - apply Z.ltb_ge in E. rewrite (Z.mod_small 0) by lia.
    rewrite Z.mod_small by lia. lia.
Qed.

(** X13.  [setOversamplingFactor(f)] stores [f], keeps the preload size,
    and leaves every resident head with [f] times the larger of the
    preload size and the frames of the file its old head covered, and with
    its sample rate multiplied by [f] over the old factor. *)
Theorem setOversamplingFactor_heads (disk : gmap string DiskFile) (pool : FilePool.t)
    (f : Oversampling) (name : string) (h : PreloadedFileHandle) :
  preloadedFiles pool !! name = Some h ->
  0 <= preloadSize pool < 2 ^ 32 ->
  0 <= resident_file_frames pool h < 2 ^ 32 ->
  let pool' := setOversamplingFactor disk pool f in
  getOversamplingFactor pool' = f
  /\ getPreloadSize pool' = getPreloadSize pool
  /\ exists h',
       preloadedFiles pool' !! name = Some h'
       /\ getNumFrames (preloadedData h')
          = factor f * Z.max (preloadSize pool) (resident_file_frames pool h)
       /\ resident_file_frames pool' h'
          = Z.max (preloadSize pool) (resident_file_frames pool h)
       /\ sampleRate h'
          = (sampleRate h
             * (inject_Z (factor f) / inject_Z (factor (oversamplingFactor pool))))%Q.
Proof.
  intros Hh HP HF pool'.
  destruct (setOversamplingFactor_lookup disk pool f name h Hh) as (H1 & H2 & a & Ha).
  subst pool'. unfold getOversamplingFactor, getPreloadSize.
  split; [exact H2|]. split; [exact H1|].
  eexists. split; [exact Ha|].
  cbn [preloadedData getNumFrames sampleRate].
  unfold resident_file_frames at 2. cbn [preloadedData getNumFrames].
  rewrite H2, resident_frames_of_upsampled, reload_frames_same_size by assumption.
  repeat split; reflexivity.
Qed.

Lemma setOversamplingFactor_heads_witness :
  exists h',
    preloadedFiles (setOversamplingFactor Inputs.disk Inputs.pool_x1 x4) !! "whole.wav"
    = Some h'
    /\ getNumFrames (preloadedData h') = 4 * 8192.
Proof.
  assert (Hh : preloadedFiles Inputs.pool_x1 !! "whole.wav"
               = Some {| preloadedData :=
                           {| address := 0; getNumChannels := 1; getNumFrames := 8192 |};
                         sampleRate := inject_Z (44100 * 1) |})
    by (vm_compute; reflexivity).
  destruct (setOversamplingFactor_heads Inputs.disk Inputs.pool_x1 x4 "whole.wav" _ Hh)
    as (_ & _ & h' & R & G & _); try (vm_compute; split; congruence).
  exists h'. split; [exact R|exact G].
Defined.

(** X14.  Setting the same oversampling factor a second time reloads the
    heads without changing them: each head has the frame count and the
    channel count it had after the first call, and a sample rate of the
    same value. *)
Theorem setOversamplingFactor_twice (disk : gmap string DiskFile) (pool : FilePool.t)
    (f : Oversampling) (name : string) (h : PreloadedFileHandle) :
  preloadedFiles pool !! name = Some h ->
  0 <= preloadSize pool < 2 ^ 32 ->
  0 <= resident_file_frames pool h < 2 ^ 32 ->
  let once := setOversamplingFactor disk pool f in
  let twice := setOversamplingFactor disk once f in
  exists h1 h2,
    preloadedFiles once !! name = Some h1
    /\ preloadedFiles twice !! name = Some h2
    /\ getNumFrames (preloadedData h2) = getNumFrames (preloadedData h1)
    /\ getNumChannels (preloadedData h2) = getNumChannels (preloadedData h1)
    /\ (sampleRate h2 == sampleRate h1)%Q
    /\ getOversamplingFactor twice = getOversamplingFactor once.
Proof.
  intros Hh HP HF once twice.
  destruct (setOversamplingFactor_lookup disk pool f name h Hh) as (H1 & H2 & a & Ha).
  fold once in H1, H2, Ha.
  destruct (setOversamplingFactor_lookup disk once f name _ Ha) as (K1 & K2 & b & Hb).
  fold twice in K1, K2, Hb.
  eexists _, _. split; [exact Ha|]. split; [exact Hb|].
  cbn [preloadedData getNumFrames getNumChannels sampleRate].
  assert (HF1 : resident_file_frames once
                  {| preloadedData :=
                       {| address := a;
                          getNumChannels := sf_channels (SndfileHandle_at disk name);
                          getNumFrames :=
                            upsampled_frames f (reload_frames pool (preloadSize pool) h) |};
                     sampleRate :=
                       (sampleRate h
                        * (inject_Z (factor f)
                           / inject_Z (factor (oversamplingFactor pool))))%Q |}
                = Z.max (preloadSize pool) (resident_file_frames pool h)).
  { unfold resident_file_frames at 1. cbn [preloadedData getNumFrames].
    rewrite H2, resident_frames_of_upsampled. apply reload_frames_same_size; assumption. }
  split; [|split; [reflexivity|split]].
  - f_equal. rewrite (reload_frames_same_size once) by (rewrite ?HF1, ?H1; lia).
    rewrite HF1, H1. rewrite reload_frames_same_size by assumption. lia.
  - rewrite H2.
    assert (U : (inject_Z (factor f) / inject_Z (factor f) == 1)%Q)
      by (destruct f; vm_compute; reflexivity).
    rewrite U, Qmult_1_r. reflexivity.
  - unfold getOversamplingFactor. congruence.
Qed.

Lemma setOversamplingFactor_twice_witness :
  exists h1 h2,
    preloadedFiles (setOversamplingFactor Inputs.disk Inputs.pool_x1 x4) !! "whole.wav"
    = Some h1
    /\ preloadedFiles
         (setOversamplingFactor Inputs.disk
            (setOversamplingFactor Inputs.disk Inputs.pool_x1 x4) x4) !! "whole.wav"
       = Some h2
    /\ getNumFrames (preloadedData h2) = getNumFrames (preloadedData h1).
Proof.
  assert (Hh : preloadedFiles Inputs.pool_x1 !! "whole.wav"
               = Some {| preloadedData :=
                           {| address := 0; getNumChannels := 1; getNumFrames := 8192 |};
                         sampleRate := inject_Z (44100 * 1) |})
    by (vm_compute; reflexivity).
  destruct (setOversamplingFactor_twice Inputs.disk Inputs.pool_x1 x4 "whole.wav" _ Hh)
    as (h1 & h2 & R1 & R2 & G & _); try (vm_compute; split; congruence).
  exists h1, h2. auto.
Defined.

End PoolFacts.

(** ** FilePool: the loading thread *)

Section LoaderFacts.

Import FilePool.

(** X15.  When the loading thread takes from the pending queue a promise
    that a voice still holds and the file of the promise does not open,
    the pass ends early: [threadsLoading] has been incremented and is not
    decremented, the promise stays in the local variable of the thread and
    is not handed to the filled queue, and [waitForBackgroundLoading]
    cannot return while the counter stays there. *)
Theorem loadingThread_open_error_leaks (disk : gmap string DiskFile)
    (held : FilePromisePtr -> nat) (st : Loader) (p : FilePromisePtr)
    (rest : list FilePromisePtr) :
  emptyQueue st = false ->
  promiseQueue (loader_pool st) = p :: rest ->
  (0 < held p)%nat ->
  sf_error (SndfileHandle_at disk
              (default ""%string (loader_promises st !! p ≫= promise_filename))) <> 0 ->
  let st' := loadingThread_pass disk held st in
  threadsLoading st' = threadsLoading st + 1
  /\ filledPromiseQueue (loader_pool st') = filledPromiseQueue (loader_pool st)
  /\ promiseQueue (loader_pool st') = rest
  /\ loader_promise st' = Some p
  /\ loader_promises st' = loader_promises st
  /\ (0 <= threadsLoading st -> waitForBackgroundLoading_returns st' = false).
Proof.
  intros He Hq Hheld Herr. unfold loadingThread_pass. rewrite He.
  cbn [with_promisesToClean promiseQueue]. rewrite Hq.
  destruct (S _ =? 1)%nat eqn:U.
  { apply Nat.eqb_eq in U. unfold use_count in U. lia. }
  destruct (sf_error _ =? 0) eqn:E; [apply Z.eqb_eq in E; contradiction|].
  cbn. repeat split.
  intros H0. unfold waitForBackgroundLoading_returns. cbn.
  destruct (threadsLoading st + 1 >? 0) eqn:G; [apply andb_false_r|].
  rewrite Z.gtb_ltb in G. apply Z.ltb_ge in G. lia.
Qed.

Lemma loadingThread_open_error_leaks_witness :
  threadsLoading
    (loadingThread_pass Inputs.disk Inputs.one_voice (Inputs.loader_with Inputs.gone_promise))
  = 0 + 1.
Proof.
  assert (He : emptyQueue (Inputs.loader_with Inputs.gone_promise) = false) by reflexivity.
  assert (Hq : promiseQueue (loader_pool (Inputs.loader_with Inputs.gone_promise))
               = [1%nat]) by (vm_compute; reflexivity).
  assert (Hh : (0 < Inputs.one_voice 1)%nat) by (vm_compute; lia).
  assert (Herr : sf_error (SndfileHandle_at Inputs.disk
                             (default ""%string
                                (loader_promises (Inputs.loader_with Inputs.gone_promise)
                                   !! 1%nat ≫= promise_filename))) <> 0)
    by (vm_compute; congruence).
  exact (proj1 (loadingThread_open_error_leaks Inputs.disk Inputs.one_voice
                  (Inputs.loader_with Inputs.gone_promise) 1%nat [] He Hq Hh Herr)).
Defined.

(** X16.  When the loading thread takes from the pending queue a promise
    that a voice still holds and whose file opens, the promise gets a
    buffer with every frame of the file at the oversampling factor of the
    pool and its [dataReady] flag, keeps its preloaded head, and goes to
    the back of the filled queue; the thread keeps no copy of the pointer
    and [threadsLoading] is back where it was. *)
Theorem loadingThread_loads (disk : gmap string DiskFile)
    (held : FilePromisePtr -> nat) (st : Loader) (p : FilePromisePtr)
    (rest : list FilePromisePtr) (fp : FilePromise) (name : string)
    (channels frames samplerate decodable : Z) :
  emptyQueue st = false ->
  promiseQueue (loader_pool st) = p :: rest ->
  (0 < held p)%nat ->
  loader_promises st !! p = Some fp ->
  promise_filename fp = Some name ->
  disk !! name = Some (sound channels frames samplerate decodable) ->
  let st' := loadingThread_pass disk held st in
  threadsLoading st' = threadsLoading st
  /\ filledPromiseQueue (loader_pool st') = filledPromiseQueue (loader_pool st) ++ [p]
  /\ promiseQueue (loader_pool st') = rest
  /\ loader_promise st' = None
  /\ exists fp' buffer,
       loader_promises st' !! p = Some fp'
       /\ promise_dataReady fp' = true
       /\ promise_fileData fp' = Some buffer
       /\ getNumFrames buffer
          = factor (oversamplingFactor (loader_pool st)) * Machine.to_uint32 frames
       /\ getNumChannels buffer = channels
       /\ promise_preloadedData fp' = promise_preloadedData fp.
Proof.
  intros He Hq Hheld Hfp Hname Hfile. unfold loadingThread_pass. rewrite He.
  cbn [with_promisesToClean promiseQueue]. rewrite Hq.
  destruct (S _ =? 1)%nat eqn:U.
  { apply Nat.eqb_eq in U. unfold use_count in U. lia. }
  rewrite Hfp. cbn [mbind option_bind]. rewrite Hname. cbn [default]. unfold id.
  unfold SndfileHandle_at. rewrite Hfile.
  cbn [SndfileHandle_open sf_error Z.eqb negb readFromFile].
  cbn. split; [lia|]. split; [reflexivity|]. split; [reflexivity|].
  split; [reflexivity|].
  eexists _, _. rewrite lookup_alter_eq, Hfp.
  cbn. repeat split.
Qed.

Lemma loadingThread_loads_witness :
  exists fp',
    loader_promises
      (loadingThread_pass Inputs.disk Inputs.one_voice
         (Inputs.loader_with Inputs.whole_promise)) !! 1%nat = Some fp'
    /\ promise_dataReady fp' = true.
Proof.
  assert (He : emptyQueue (Inputs.loader_with Inputs.whole_promise) = false) by reflexivity.
  assert (Hq : promiseQueue (loader_pool (Inputs.loader_with Inputs.whole_promise))
               = [1%nat]) by (vm_compute; reflexivity).
  assert (Hh : (0 < Inputs.one_voice 1)%nat) by (vm_compute; lia).
  assert (Hfp : loader_promises (Inputs.loader_with Inputs.whole_promise) !! 1%nat
                = Some Inputs.whole_promise) by (vm_compute; reflexivity).
  assert (Hn : promise_filename Inputs.whole_promise = Some "whole.wav"%string)
    by (vm_compute; reflexivity).
  assert (Hf : Inputs.disk !! "whole.wav"%string = Some (sound 1 100000 44100 100000))
    by (vm_compute; reflexivity).
  destruct (loadingThread_loads Inputs.disk Inputs.one_voice
              (Inputs.loader_with Inputs.whole_promise) 1%nat [] _ _ _ _ _ _
              He Hq Hh Hfp Hn Hf)
    as (_ & _ & _ & _ & fp' & buffer & R & D & _).
  exists fp'. split; [exact R|exact D].
Defined.

Lemma cleanupPromises_moves (elsewhere : FilePromisePtr -> nat) (pool : FilePool.t)
    (p : FilePromisePtr) :
  In p (temporaryFilePromises pool ++ filledPromiseQueue pool) ->
  use_count elsewhere pool p = 1%nat ->
  exists pool',
    cleanupPromises elsewhere pool = Some pool'
    /\ ~ In p (temporaryFilePromises pool')
    /\ In p (promisesToClean pool').
Proof.
  intros Hin Hone. unfold cleanupPromises. rewrite drain_app.
  set (pool1 := with_temporaryFilePromises _ _).
  assert (UC1 : forall q, use_count elsewhere pool1 q = use_count elsewhere pool q).
  { intros q. unfold use_count, occurrences. cbn. rewrite count_occ_app.
    unfold FilePromisePtr in *. lia. }
  destruct (sweep_spec elsewhere (length (temporaryFilePromises pool1)) pool1 0
              (Z.of_nat (length (temporaryFilePromises pool1)) - 1))
    as (pool' & R & Q1 & Q2 & Occ & Clean & Keep); try lia.
  assert (UC : use_count elsewhere pool' p = 1%nat).
  { rewrite <- Hone, <- UC1. unfold use_count. rewrite Q1, Q2.
    pose proof (Occ p). unfold occurrences, FilePromisePtr in *. lia. }
  exists pool'. split; [exact R|].
  assert (Hnot : ~ In p (temporaryFilePromises pool')).
  { intros Hin'. apply (Clean p Hin'). exact UC. }
  split; [exact Hnot|].
  apply (count_occ_In Nat.eq_dec). apply (count_occ_In Nat.eq_dec) in Hin.
  apply (count_occ_not_In Nat.eq_dec) in Hnot.
  pose proof (Occ p) as O. unfold occurrences in O. cbn in O.
  unfold FilePromisePtr in *. lia.
Qed.

(** X17.  A promise that every voice has dropped by the time the loading
    thread takes it from the pending queue is not loaded: the pass hands it
    to the filled queue as it is and leaves [threadsLoading] alone.  The
    next [cleanupPromises] then takes it out of the filled queue and puts
    it in [promisesToClean], not in [temporaryFilePromises], and the pass
    of the loading thread after that empties [promisesToClean]. *)
Theorem abandoned_promise_is_dropped (disk : gmap string DiskFile) (st : Loader)
    (p : FilePromisePtr) (rest : list FilePromisePtr) (held : FilePromisePtr -> nat) :
  emptyQueue st = false ->
  promiseQueue (loader_pool st) = p :: rest ->
  held p = 0%nat ->
  ~ In p rest ->
  ~ In p (filledPromiseQueue (loader_pool st)) ->
  ~ In p (temporaryFilePromises (loader_pool st)) ->
  let st1 := loadingThread_pass disk held st in
  loader_promises st1 = loader_promises st
  /\ threadsLoading st1 = threadsLoading st
  /\ loader_promise st1 = None
  /\ filledPromiseQueue (loader_pool st1) = filledPromiseQueue (loader_pool st) ++ [p]
  /\ exists pool2,
       cleanupPromises held (loader_pool st1) = Some pool2
       /\ In p (promisesToClean pool2)
       /\ ~ In p (temporaryFilePromises pool2)
       /\ promisesToClean
            (loader_pool
               (loadingThread_pass disk held
                  {| loader_pool := pool2;
                     loader_promises := loader_promises st1;
                     loader_promise := loader_promise st1;
                     threadsLoading := threadsLoading st1;
                     emptyQueue := emptyQueue st1 |})) = [].
Proof.
  intros He Hq Hheld Hrest Hfilled Htemp st1.
  assert (Hcount : forall l, ~ In p l -> count_occ Nat.eq_dec l p = 0%nat).
  { intros l Hl. apply (count_occ_not_In Nat.eq_dec). exact Hl. }
  assert (Hst1 : st1
                 = {| loader_pool :=
                        with_filledPromiseQueue
                          (filledPromiseQueue (loader_pool st) ++ [p])
                          (with_promiseQueue rest
                             (with_promisesToClean [] (loader_pool st)));
                      loader_promises := loader_promises st;
                      loader_promise := None;
                      threadsLoading := threadsLoading st;
                      emptyQueue := false |}).
  { subst st1. unfold loadingThread_pass. rewrite He.
    cbn [with_promisesToClean promiseQueue]. rewrite Hq.
    destruct (S _ =? 1)%nat eqn:U; [reflexivity|].
    apply Nat.eqb_neq in U. exfalso. apply U. unfold use_count, occurrences. cbn.
    rewrite Hheld, (Hcount _ Hrest), (Hcount _ Hfilled), (Hcount _ Htemp). reflexivity. }
  rewrite Hst1. cbn [loader_pool loader_promises loader_promise threadsLoading emptyQueue].
  split; [reflexivity|]. split; [reflexivity|]. split; [reflexivity|].
  split; [reflexivity|].
  destruct (cleanupPromises_moves held
              (with_filledPromiseQueue (filledPromiseQueue (loader_pool st) ++ [p])
                 (with_promiseQueue rest (with_promisesToClean [] (loader_pool st)))) p)
    as (pool2 & R & Hnot & Hin).
  { cbn. apply in_or_app. right. apply in_or_app. right. left. reflexivity. }
  { unfold use_count, occurrences. cbn [promiseQueue filledPromiseQueue
      temporaryFilePromises promisesToClean with_filledPromiseQueue with_promiseQueue
      with_promisesToClean].
    pose proof (count_occ_app Nat.eq_dec (filledPromiseQueue (loader_pool st)) [p] p) as A.
    pose proof (Hcount _ Hrest). pose proof (Hcount _ Hfilled). pose proof (Hcount _ Htemp).
    assert (B : count_occ Nat.eq_dec [p] p = 1%nat)
      by (cbn; destruct (Nat.eq_dec p p); [reflexivity|contradiction]).
    cbn [count_occ] in *. unfold FilePromisePtr in *. lia. }
  exists pool2. split; [exact R|]. split; [exact Hin|]. split; [exact Hnot|].
  unfold loadingThread_pass. cbn [emptyQueue loader_pool].
  destruct (promiseQueue (with_promisesToClean [] pool2)) as [|q qs]; [reflexivity|].
  destruct (S _ =? 1)%nat; [reflexivity|].
  destruct (negb _); [reflexivity|]. reflexivity.
Qed.

Lemma abandoned_promise_is_dropped_witness :
  exists pool2,
    cleanupPromises Inputs.no_voice
      (loader_pool (loadingThread_pass Inputs.disk Inputs.no_voice
                      (Inputs.loader_with Inputs.whole_promise))) = Some pool2
    /\ In 1%nat (promisesToClean pool2).
Proof.
  assert (He : emptyQueue (Inputs.loader_with Inputs.whole_promise) = false) by reflexivity.
  assert (Hq : promiseQueue (loader_pool (Inputs.loader_with Inputs.whole_promise))
               = [1%nat]) by (vm_compute; reflexivity).
  assert (Hh : Inputs.no_voice 1%nat = 0%nat) by reflexivity.
  destruct (abandoned_promise_is_dropped Inputs.disk
              (Inputs.loader_with Inputs.whole_promise) 1%nat [] Inputs.no_voice He Hq Hh)
    as (_ & _ & _ & _ & pool2 & R & Hin & _);
    try (vm_compute; intros []).
  exists pool2. split; [exact R|exact Hin].
Defined.

End LoaderFacts.

(** ** The voice between two notes *)

Section VoiceLifeFacts.

Import AudioSpan Voice Inputs.

Lemma release_keeps (v : Voice.t) (delay : Z) :
  is_idle (state (release v delay)) = is_idle (state v)
  /\ region (release v delay) = region v
  /\ sourcePosition (release v delay) = sourcePosition v
  /\ floatPositionOffset (release v delay) = floatPositionOffset v.
Proof. unfold release. destruct (state v) eqn:E; cbn; rewrite ?E; auto. Qed.

Lemma finish_keeps (v : Voice.t) (r : Region) (src : AudioSpan.t) (indices : list Z)
    (rightCoeffs : list Q) (written : Block) :
  let v' := fst (finish v r src indices rightCoeffs written) in
  is_idle (state v') = is_idle (state v)
  /\ region v' = region v
  /\ sourcePosition v' = last_Z indices
  /\ floatPositionOffset v' = last_Q rightCoeffs.
Proof.
  unfold finish.
  match goal with |- context [if ?c then _ else _] => destruct c end; cbn [fst].
  - destruct (release_keeps (with_position (last_Z indices) (last_Q rightCoeffs) v)
                (Z.of_nat (find_index (sampleEnd r src) indices))) as (A & B & C & D).
    rewrite A, B, C, D. cbn. auto.
  - cbn. auto.
Qed.

Lemma fillWithData_keeps (v v' : Voice.t) (buffer out : Block) :
  fillWithData v buffer = Some (v', out) ->
  is_idle (state v') = is_idle (state v) /\ region v' = region v.
Proof.
  unfold fillWithData. intros H.
  destruct (block_frames buffer =? 0)%nat; [injection H as <- _; auto|].
  destruct (region v) as [r|] eqn:Hr; [|discriminate H]. cbn [mbind option_bind] in H.
  destruct (source v r) as [src|]; [|discriminate H]. cbn [mbind option_bind] in H.
  destruct (samplesPerBlock v <? Z.of_nat (block_frames buffer)); [discriminate H|].
  destruct (adjusted_positions v r src (block_frames buffer)) as [[indices leftCoeffs] rightCoeffs].
  destruct (write_block src buffer indices leftCoeffs rightCoeffs) as [written|];
    [|discriminate H].
  cbn [mbind option_bind] in H.
  destruct (finish_keeps v r src indices rightCoeffs written) as (A & B & _).
  injection H as H. rewrite H in A, B. cbn [fst] in A, B. rewrite Hr in B. auto.
Qed.

(** X18.  [isFree()] and the state agree, and every operation of the audio
    thread keeps them so: a voice whose state is idle exactly when it has
    no region is again such a voice after [startVoice], [release],
    [registerNoteOff], [registerCC], [checkOffGroup], [renderBlock] or
    [reset]; in particular a voice that [canBeStolen()] is never free.
    Of these operations only [renderBlock] can fail to return (a read
    outside a block, a block beyond [samplesPerBlock]); it returns at the
    end of a sample ([renderBlock_returns]). *)
Theorem perform_keeps_idle_iff_free (v : Voice.t) (o : operation) :
  is_idle (state v) = isFree v ->
  match perform v o with
  | Some v' =>
      is_idle (state v') = isFree v'
      /\ (canBeStolen v' = true -> isFree v' = false)
  | None => exists frames egSmoothing, o = do_renderBlock frames egSmoothing
  end.
Proof.
  intros Inv.
  destruct (perform v o) as [v'|] eqn:H;
    [|destruct o; cbn [perform] in H; try discriminate H; eauto].
  assert (G : is_idle (state v') = isFree v').
  { assert (K : forall w : Voice.t,
               is_idle (state w) = is_idle (state v) -> region w = region v ->
               is_idle (state w) = isFree w).
    { intros w A B. unfold isFree in *. rewrite A, B. exact Inv. }
    assert (R : forall (w : Voice.t) (d : Z),
               is_idle (state w) = is_idle (state v) -> region w = region v ->
               is_idle (state (release w d)) = isFree (release w d)).
    { intros w d A B. destruct (release_keeps w d) as (A' & B' & _).
      apply K; congruence. }
    destruct o; cbn [perform] in H.
    - injection H as <-. reflexivity.
    - injection H as <-. apply R; reflexivity.
    - injection H as <-. unfold registerNoteOff.
      destruct (region v) as [r|] eqn:Hr; [|exact Inv].
      destruct (negb (is_playing (state v))); [exact Inv|].
      destruct ((triggerChannel v =? channel) && (triggerNumber v =? noteNumber));
        [|exact Inv].
      destruct (is_one_shot (loopMode r)); [apply K; cbn; auto|].
      destruct (negb (checkSustain r) || (cc sustainCC <? halfCCThreshold));
        [apply R; cbn; auto|apply K; cbn; auto].
    - injection H as <-. unfold registerCC.
      destruct (region v) as [r|] eqn:Hr; [|exact Inv].
      match goal with |- context [if ?c then _ else _] => destruct c end;
        [apply R; auto|exact Inv].
    - injection H as <-. unfold checkOffGroup.
      destruct (region v) as [r|] eqn:Hr; [|exact Inv].
      destruct (is_NoteOn (triggerType v)); [|exact Inv].
      destruct (offBy r) as [g|]; [|exact Inv].
      destruct (g =? group); [apply R; auto|exact Inv].
    - unfold renderBlock in H.
      destruct (region v) as [r|] eqn:Hr; [|injection H as <-; exact Inv].
      destruct (is_idle (state v)) eqn:Hi; [injection H as <-; rewrite Hi; exact Inv|].
      match type of H with
      | (?m ≫= _) = _ => destruct m as [v2|] eqn:Hm; [|discriminate H]
      end.
      cbn [mbind option_bind] in H.
      match type of H with
      | (if ?c then _ else _) = _ => destruct c; [discriminate H|]
      end.
      injection H as <-.
      destruct (negb egSmoothing); [reflexivity|].
      destruct (isGenerator r).
      + injection Hm as <-. unfold fillWithGenerator. apply K; cbn; auto.
      + match type of Hm with
        | fst <$> ?f = _ => destruct f as [[w out]|] eqn:Hf; [|discriminate Hm]
        end.
        cbn in Hm. injection Hm as <-.
        destruct (fillWithData_keeps _ _ _ _ Hf) as (A & B).
        apply K; [rewrite A|rewrite B]; cbn; auto.
    - injection H as <-. reflexivity. }
  split; [exact G|].
  unfold canBeStolen. intros S. rewrite <- G. destruct (state v'); [discriminate S| |]; reflexivity.
Qed.

Lemma perform_keeps_idle_iff_free_witness :
  exists v',
    perform whole_voice (do_renderBlock 4 true) = Some v'
    /\ state v' = State.release
    /\ is_idle (state v') = isFree v'
    /\ (canBeStolen v' = true -> isFree v' = false).
Proof.
  destruct (perform whole_voice (do_renderBlock 4 true)) as [v'|] eqn:P;
    [|vm_compute in P; discriminate P].
  exists v'. split; [reflexivity|].
  split; [vm_compute in P; injection P as <-; reflexivity|].
  assert (Inv : is_idle (state whole_voice) = isFree whole_voice) by reflexivity.
  pose proof (perform_keeps_idle_iff_free whole_voice (do_renderBlock 4 true) Inv) as K.
  rewrite P in K. exact K.
Defined.

(** X19.  The sustain pedal defers the release.  When the note of a
    playing voice goes off while controller 64 is at 64 or above, and the
    region checks the sustain pedal, [registerNoteOff] only records
    [noteIsOff]: the voice keeps playing.  Any later [registerCC] of
    controller 64 with a value below 64 then releases it, with the delay of
    that event, whatever the loop mode of the region. *)
Theorem sustain_pedal_defers_release (cc : Z -> Z) (v : Voice.t) (r : Region)
    (delay channel noteNumber velocity : Z) :
  region v = Some r ->
  state v = State.playing ->
  checkSustain r = true ->
  triggerChannel v = channel ->
  triggerNumber v = noteNumber ->
  halfCCThreshold <= cc sustainCC ->
  let v1 := registerNoteOff cc v delay channel noteNumber velocity in
  state v1 = State.playing
  /\ noteIsOff v1 = true
  /\ forall delay' channel' ccValue : Z,
       ccValue < halfCCThreshold ->
       let v2 := registerCC v1 delay' channel' sustainCC ccValue in
       state v2 = State.release
       /\ eg_releaseDelay (egEnvelope v2) = Some delay'.
Proof.
  intros Hr Hs Hc Hch Hn Hcc v1.
  assert (E : v1 = with_noteIsOff true v).
  { subst v1. unfold registerNoteOff. rewrite Hr, Hs, Hch, Hn, !Z.eqb_refl, Hc.
    cbn [is_playing negb andb orb].
    destruct (is_one_shot (loopMode r)); [reflexivity|].
    destruct (cc sustainCC <? halfCCThreshold) eqn:L; [|reflexivity].
    apply Z.ltb_lt in L. lia. }
  rewrite E. cbn [with_noteIsOff state noteIsOff]. split; [exact Hs|].
  split; [reflexivity|].
  intros delay' channel' ccValue Hv. unfold registerCC.
  cbn [with_noteIsOff region noteIsOff]. rewrite Hr, Hc, Z.eqb_refl.
  apply Z.ltb_lt in Hv. rewrite Hv. cbn [andb].
  unfold release. cbn [with_noteIsOff state]. rewrite Hs. cbn. auto.
Qed.

Lemma sustain_pedal_defers_release_witness :
  state (registerNoteOff pedal_down playing_voice 0 1 60 0) = State.playing
  /\ state (registerCC (registerNoteOff pedal_down playing_voice 0 1 60 0) 7 1 sustainCC 0)
     = State.release.
Proof.
  destruct (sustain_pedal_defers_release pedal_down playing_voice short_region 0 1 60 0)
    as (A & _ & B); try reflexivity.
  - vm_compute. discriminate.
  - split; [exact A|]. apply (B 7 1 0). reflexivity.
Defined.

(** X20.  Notes and controllers never end a one-shot region that does not
    check the sustain pedal: through any sequence of [registerNoteOff] and
    [registerCC] events the voice stays in the state it was in. *)
Theorem one_shot_ignores_note_off (ops : list operation) (v : Voice.t) (r : Region) :
  region v = Some r ->
  loopMode r = one_shot ->
  checkSustain r = false ->
  Forall (fun o => match o with
                   | do_registerNoteOff _ _ _ _ _ | do_registerCC _ _ _ _ => True
                   | _ => False
                   end) ops ->
  run v ops = Some (replicate (length ops) (state v)).
Proof.
  intros Hr Hl Hc Hops. revert v Hr.
  induction Hops as [|o ops Ho _ IH]; intros v Hr; [reflexivity|].
  assert (K : exists v', perform v o = Some v' /\ region v' = Some r
                         /\ state v' = state v).
  { destruct o; try contradiction; cbn [perform]; eexists; (split; [reflexivity|]).
    - unfold registerNoteOff. rewrite Hr, Hl. cbn [is_one_shot].
      destruct (negb (is_playing (state v))); [auto|].
      destruct ((triggerChannel v =? channel) && (triggerNumber v =? noteNumber)); auto.
    - unfold registerCC. rewrite Hr, Hc. cbn [andb]. auto. }
  destruct K as (v' & P & Hr' & Hs').
  cbn [run]. rewrite P. cbn [mbind option_bind]. rewrite (IH v' Hr').
  cbn [mbind option_bind length replicate]. rewrite Hs'. reflexivity.
Qed.

Lemma one_shot_ignores_note_off_witness :
  run (startVoice no_cc idle_voice
         (mkRegion 44100 (fun _ _ => 1%Q) 0 0 (fun _ _ => 0%Q) false false false 2 0
            4294967295 true (preloadedData short_region) one_shot false None)
         0 1 60 100 NoteOn)
      [do_registerNoteOff no_cc 0 1 60 0; do_registerCC 0 1 64 0]
  = Some [State.playing; State.playing].
Proof.
  apply (one_shot_ignores_note_off
           [do_registerNoteOff no_cc 0 1 60 0; do_registerCC 0 1 64 0]
           (startVoice no_cc idle_voice
              (mkRegion 44100 (fun _ _ => 1%Q) 0 0 (fun _ _ => 0%Q) false false false 2 0
                 4294967295 true (preloadedData short_region) one_shot false None)
              0 1 60 100 NoteOn)
           (mkRegion 44100 (fun _ _ => 1%Q) 0 0 (fun _ _ => 0%Q) false false false 2 0
              4294967295 true (preloadedData short_region) one_shot false None));
    try reflexivity.
  repeat constructor.
Defined.

(** X21.  A block that lies wholly within the initial delay of a voice
    reads nothing from the source.  When the block has no more frames than
    [samplesPerBlock], [renderBlock] takes its frames off [initialDelay]
    and leaves the read position, the state and the region as they are,
    until the envelope has stopped smoothing and the voice is reset; a
    block of more frames ends the program in [tempSpan1.first]. *)
Theorem renderBlock_within_delay (v : Voice.t) (r : Region) (numFrames : nat)
    (egSmoothing : bool) :
  region v = Some r ->
  state v <> State.idle ->
  Z.of_nat numFrames <= initialDelay v < 2 ^ 64 ->
  renderBlock v numFrames egSmoothing
  = if samplesPerBlock v <? Z.of_nat numFrames then None
    else Some (let v1 := with_initialDelay (initialDelay v - Z.of_nat numFrames) v in
               if egSmoothing then v1 else reset v1).
Proof.
  intros Hr Hs Hd. unfold renderBlock. rewrite Hr.
  destruct (is_idle (state v)) eqn:Hi; [destruct (state v); [congruence|discriminate Hi..]|].
  unfold Machine.to_size_t. rewrite Z.mod_small by lia.
  rewrite Z.min_r by lia. rewrite Nat2Z.id, Nat.sub_diag.
  destruct (isGenerator r); cbn [mbind option_bind fmap option_fmap option_map];
    unfold fillWithGenerator, fillWithData; cbn;
    destruct (samplesPerBlock v <? Z.of_nat numFrames);
    destruct egSmoothing; reflexivity.
Qed.

Lemma renderBlock_within_delay_witness :
  renderBlock (with_initialDelay 100 playing_voice) 64 true
  = Some (with_initialDelay 36 playing_voice).
Proof.
  assert (Hr : region (with_initialDelay 100 playing_voice) = Some short_region)
    by reflexivity.
  assert (Hs : state (with_initialDelay 100 playing_voice) <> State.idle)
    by discriminate.
  assert (Hd : Z.of_nat 64 <= initialDelay (with_initialDelay 100 playing_voice) < 2 ^ 64)
    by (cbn; lia).
  exact (renderBlock_within_delay (with_initialDelay 100 playing_voice) short_region
           64 true Hr Hs Hd).
Defined.

Lemma wrap_indices_bounded (e offset : Z) :
  0 <= e - offset ->
  forall (indices : list Z) (pending : Z),
    (forall x, indices !! 0%nat = Some x -> 0 <= x - pending <= e + offset) ->
    (forall k a b, indices !! k = Some a -> indices !! S k = Some b ->
                   0 <= b - a <= offset) ->
    Forall (fun k => 0 <= k <= e) (wrap_indices e offset pending indices).
Proof.
  intros Hstart.
  induction indices as [|x l IH]; intros pending Hfirst Hstep; [constructor|].
  cbn [wrap_indices].
  pose proof (Hfirst x eq_refl) as Hx.
  assert (Hl : forall k a b, l !! k = Some a -> l !! S k = Some b -> 0 <= b - a <= offset).
  { intros k a b Ha Hb. apply (Hstep (S k) a b); assumption. }
  destruct (x - pending >? e) eqn:E.
  - rewrite Z.gtb_ltb in E. apply Z.ltb_lt in E.
    constructor; [lia|]. apply IH; [|exact Hl].
    intros y Hy. pose proof (Hstep 0%nat x y eq_refl Hy). lia.
  - rewrite Z.gtb_ltb in E. apply Z.ltb_ge in E.
    constructor; [lia|]. apply IH; [|exact Hl].
    intros y Hy. pose proof (Hstep 0%nat x y eq_refl Hy). lia.
Qed.

(** X23.  The loop wraps every position back into the sample.  In the
    looping branch of [fillWithData], with [offset] the distance from the
    start of the loop to [sampleEnd]: when the read positions of the block
    start between 0 and [sampleEnd + offset] and each is at or after the one
    before it and no more than [offset] after it, every index handed to the
    interpolation is between 0 and [sampleEnd].  The interpolation reads
    each index and the element after it, so elements 0 to [sampleEnd + 1]
    of each channel; with that element inside the block of the channel,
    [fillWithData] returns, and it leaves the state of the voice as it
    was. *)
Theorem looping_positions_wrapped (v : Voice.t) (r : Region) (src : AudioSpan.t)
    (buffer : Block) (leftCells rightCells : list Q) :
  region v = Some r ->
  source v r = Some src ->
  loops_within r src = true ->
  Z.of_nat (block_frames buffer) <= samplesPerBlock v ->
  getChannel src 0 = Some (ptr leftCells) ->
  getNumChannels src = 1 \/ getChannel src 1 = Some (ptr rightCells) ->
  sampleEnd r src + 1 < Z.of_nat (length leftCells) ->
  (getNumChannels src <> 1 -> sampleEnd r src + 1 < Z.of_nat (length rightCells)) ->
  0 <= Machine.to_int (loopRange_getStart r) ->
  let indices := fst (fst (read_positions v (block_frames buffer))) in
  let offset := sampleEnd r src - Machine.to_int (loopRange_getStart r) in
  (forall x, indices !! 0%nat = Some x -> 0 <= x <= sampleEnd r src + offset) ->
  (forall k a b, indices !! k = Some a -> indices !! S k = Some b ->
                 0 <= b - a <= offset) ->
  Forall (fun k => 0 <= k /\ k + 1 <= sampleEnd r src + 1)
         (fst (fst (adjusted_positions v r src (block_frames buffer))))
  /\ exists v' out, fillWithData v buffer = Some (v', out) /\ state v' = state v.
Proof.
  intros Hr Hsrc Hloop Hn Hch0 Hch1 Hl0 Hl1 Hstart indices offset Hfirst Hstep.
  assert (B : Forall (fun k => 0 <= k <= sampleEnd r src)
                (fst (fst (adjusted_positions v r src (block_frames buffer))))).
  { unfold adjusted_positions. subst indices.
    destruct (read_positions v (block_frames buffer)) as [[indices leftCoeffs] rightCoeffs].
    cbn [fst] in *. rewrite Hloop. cbn [fst].
    apply wrap_indices_bounded; [subst offset; lia| |exact Hstep].
    intros x Hx. pose proof (Hfirst x Hx). lia. }
  split.
  { eapply Forall_impl; [exact B|]. cbn. intros k Hk. lia. }
  unfold fillWithData.
  destruct (block_frames buffer =? 0)%nat; [eauto|].
  rewrite Hr. cbn [mbind option_bind]. rewrite Hsrc. cbn [mbind option_bind].
  destruct (samplesPerBlock v <? Z.of_nat (block_frames buffer)) eqn:E;
    [apply Z.ltb_lt in E; lia|].
  destruct (adjusted_positions v r src (block_frames buffer))
    as [[adjusted leftCoeffs] rightCoeffs].
  cbn [fst] in B.
  destruct (write_block_defined src buffer adjusted leftCoeffs rightCoeffs
              leftCells rightCells Hch0 Hch1) as [written ->].
  { eapply Forall_impl; [exact B|]. cbn. intros k Hk. lia. }
  { intros Hst. specialize (Hl1 Hst).
    eapply Forall_impl; [exact B|]. cbn. intros k Hk. lia. }
  cbn [mbind option_bind]. unfold finish.
  assert (Hs : shouldLoop r = true).
  { unfold loops_within in Hloop. apply andb_true_iff in Hloop. tauto. }
  rewrite Hs. cbn [negb]. rewrite andb_false_r. cbn [andb].
  eexists _, _. split; reflexivity.
Qed.

Lemma looping_positions_wrapped_witness :
  fst (fst (adjusted_positions looping_voice looping_region short_source 4)) = [1; 2; 1; 2]
  /\ exists v' out,
       fillWithData looping_voice silent_block = Some (v', out)
       /\ state v' = State.playing.
Proof.
  split; [vm_compute; reflexivity|].
  assert (Hr : region looping_voice = Some looping_region) by reflexivity.
  assert (Hs : source looping_voice looping_region = Some short_source) by reflexivity.
  assert (Hl : loops_within looping_region short_source = true) by reflexivity.
  assert (Hn : Z.of_nat (block_frames silent_block) <= samplesPerBlock looping_voice)
    by (vm_compute; discriminate).
  assert (Hc0 : getChannel short_source 0 = Some (ptr [10; 20; 30; 40; 99; 99; 99]%Q))
    by reflexivity.
  assert (Hc1 : getNumChannels short_source = 1
                \/ getChannel short_source 1 = Some (ptr []))
    by (left; reflexivity).
  assert (Hl0 : sampleEnd looping_region short_source + 1
                < Z.of_nat (length [10; 20; 30; 40; 99; 99; 99]%Q))
    by (vm_compute; reflexivity).
  assert (Hl1 : getNumChannels short_source <> 1 ->
                sampleEnd looping_region short_source + 1 < Z.of_nat (@length Q []))
    by (intros K; exfalso; apply K; reflexivity).
  assert (Hst : 0 <= Machine.to_int (loopRange_getStart looping_region))
    by (vm_compute; discriminate).
  assert (Hfirst : forall x,
             fst (fst (read_positions looping_voice (block_frames silent_block)))
             !! 0%nat = Some x ->
             0 <= x <= sampleEnd looping_region short_source
                       + (sampleEnd looping_region short_source
                          - Machine.to_int (loopRange_getStart looping_region))).
  { vm_compute. intros x Hx. injection Hx as <-. split; discriminate. }
  assert (Hstep : forall k a b,
             fst (fst (read_positions looping_voice (block_frames silent_block)))
             !! k = Some a ->
             fst (fst (read_positions looping_voice (block_frames silent_block)))
             !! S k = Some b ->
             0 <= b - a <= sampleEnd looping_region short_source
                            - Machine.to_int (loopRange_getStart looping_region)).
  { intros k a b. vm_compute.
    destruct k as [|[|[|[|k]]]]; cbn; intros Ha Hb;
      try discriminate Hb; injection Ha as <-; injection Hb as <-;
      split; discriminate. }
  destruct (looping_positions_wrapped looping_voice looping_region short_source
              silent_block [10; 20; 30; 40; 99; 99; 99]%Q []
              Hr Hs Hl Hn Hc0 Hc1 Hl0 Hl1 Hst Hfirst Hstep)
    as (_ & v' & out & F & S).
  exists v', out. split; [exact F|]. rewrite S. reflexivity.
Defined.

(** X24.  A file that arrives late is played by the next note.  [reset]
    keeps the ticket of the voice, and [startVoice] clears neither
    [dataReady] nor [fileData]: a file handed to a voice after its reset,
    under the ticket it still has, is taken, and a region started next that
    cannot play from its preloaded data reads that file.  When
    [garbageCollect] runs in between, the file is dropped while [dataReady]
    stays set, and the region started next has no source to read. *)
Theorem late_file_data_is_kept (cc : Z -> Z) (v : Voice.t) (file : AudioBuffer)
    (r : Region) (delay channel number value : Z) (k : TriggerType) :
  canUsePreloadedData r = false ->
  let late := setFileData (reset v) file (ticket v) in
  source (startVoice cc late r delay channel number value k) r
  = from_buffer config_numChannels file
  /\ source (startVoice cc (garbageCollect late) r delay channel number value k) r = None.
Proof.
  intros Hc late. subst late. unfold setFileData.
  cbn [reset ticket]. rewrite Z.eqb_refl. cbn [negb].
  unfold garbageCollect, isFree, source, startVoice. cbn. rewrite Hc. cbn. auto.
Qed.

Lemma late_file_data_is_kept_witness :
  source (startVoice no_cc (setFileData (reset playing_voice) streamed_file 0)
            streamed_region 0 1 60 100 NoteOn) streamed_region
  = from_buffer config_numChannels streamed_file.
Proof.
  apply (late_file_data_is_kept no_cc playing_voice streamed_file streamed_region
           0 1 60 100 NoteOn).
  reflexivity.
Defined.

(** X25.  Only the file of the expected ticket is taken.  After
    [expectFileData(ticket)] on a voice that has no file yet, a region that
    cannot play from its preloaded data reads the file of [setFileData]
    when it comes with that ticket, and goes on reading the preloaded data
    when it comes with any other. *)
Theorem setFileData_checks_ticket (v : Voice.t) (r : Region) (file : AudioBuffer)
    (expected given : Z) :
  canUsePreloadedData r = false ->
  dataReady v = false ->
  source (setFileData (expectFileData v expected) file given) r
  = if given =? expected
    then from_buffer config_numChannels file
    else preloadedData r ≫= from_buffer config_numChannels.
Proof.
  intros Hc Hd. unfold setFileData, expectFileData. cbn [ticket].
  destruct (given =? expected); unfold source; cbn; rewrite Hc, ?Hd; reflexivity.
Qed.

Lemma setFileData_checks_ticket_witness :
  source (setFileData (expectFileData
                         (startVoice no_cc idle_voice streamed_region 0 1 60 100 NoteOn) 7)
            streamed_file 6) streamed_region
  = preloadedData streamed_region ≫= from_buffer config_numChannels.
Proof.
  apply (setFileData_checks_ticket
           (startVoice no_cc idle_voice streamed_region 0 1 60 100 NoteOn)
           streamed_region streamed_file 7 6); reflexivity.
Defined.

End VoiceLifeFacts.
